(** * Firefish feed retrieval: word mutes, visibility, caches and the
      cross-partition scanner

    A shallow embedding of the backend's feed-retrieval core
    ([misc/check-word-mute.ts], [misc/cache.ts], [db/scylla.ts] and the
    home-timeline endpoint) together with the properties established about
    it, followed by what surrounds that core: the other feed filters,
    polls and reactions of the note repository, the sign-in handler and
    the marking of notifications as read.  Timestamps are integers
    (milliseconds since the epoch), strings are the UTF-8 bytes of the
    text, the Redis keyspace is a finite map, and asynchronous functions
    return an explicit [Promise]. *)

From Stdlib Require Import ZArith Lia Bool List Ascii String.
From stdpp Require Import base option list strings gmap fin_maps.
Import ListNotations.

Local Open Scope Z_scope.

(** ** JavaScript values and coercions used by the code *)

Module JS.

(** What an [async function] hands back to a caller that does not
    [await] it. *)
Inductive Promise (A : Type) : Type :=
| Fulfilled (a : A).
Arguments Fulfilled {A} a.

(** [await p]. *)
Definition await {A} (p : Promise A) : A :=
  match p with Fulfilled a => a end.

(** [ToBoolean] of an object reference: every object is truthy, and a
    promise is an object. *)
Definition truthy_object {A} (_ : Promise A) : bool := true.

(** [ToBoolean] of an optional string: [undefined] and [""] are falsy. *)
Definition truthy_string (s : option string) : bool :=
  match s with
  | Some s => negb (String.eqb s "")
  | None => false
  end.

(** [ToBoolean] of an optional integer: [undefined] and [0] are falsy. *)
Definition truthy_number (n : option Z) : bool :=
  match n with
  | Some n => negb (n =? 0)
  | None => false
  end.

(** [x ?? ""]. *)
Definition orEmpty (s : option string) : string := default "" s.

(** [String.prototype.includes]. *)
Fixpoint includes (hay needle : string) : bool :=
  String.prefix needle hay
  || match hay with
     | EmptyString => false
     | String _ rest => includes rest needle
     end.

(** [String.prototype.toLowerCase] and [String.prototype.trim] are
    builtins of the engine, defined over the whole of Unicode: the
    functions below that call them take them as parameters.  The
    examples, whose strings are ASCII, are run with the next two
    functions, which are what the builtins compute on a string of ASCII
    characters: the letters A to Z are lower-cased, and the white space
    is TAB, LF, VT, FF, CR and space. *)
Definition lowerChar (c : ascii) : ascii :=
  let n := nat_of_ascii c in
  if ((65 <=? n) && (n <=? 90))%nat then ascii_of_nat (n + 32) else c.

Fixpoint asciiToLowerCase (s : string) : string :=
  match s with
  | EmptyString => EmptyString
  | String c rest => String (lowerChar c) (asciiToLowerCase rest)
  end.

Definition isSpace (c : ascii) : bool :=
  let n := nat_of_ascii c in
  ((9 <=? n) && (n <=? 13) || (n =? 32))%nat.

Fixpoint asciiTrimStart (s : string) : string :=
  match s with
  | EmptyString => EmptyString
  | String c rest => if isSpace c then asciiTrimStart rest else s
  end.

Fixpoint asciiTrimEnd (s : string) : string :=
  match s with
  | EmptyString => EmptyString
  | String c rest =>
      let t := asciiTrimEnd rest in
      if isSpace c && String.eqb t "" then EmptyString else String c t
  end.

Definition asciiTrim (s : string) : string := asciiTrimEnd (asciiTrimStart s).

(** [Array.prototype.join]. *)
Definition join (sep : string) (parts : list string) : string :=
  String.concat sep parts.

(** [Array.prototype.includes] on an array of strings. *)
Definition arrayIncludes (l : list string) (x : string) : bool :=
  existsb (String.eqb x) l.

(** [a === b] between a string and an optional string. *)
Definition strictEqOpt (a : option string) (b : string) : bool :=
  match a with
  | Some a => String.eqb a b
  | None => false
  end.

End JS.

(** ** Feed rows *)

Inductive Visibility :=
| vis_public | vis_home | vis_followers | vis_specified | vis_hidden.

Definition Visibility_eqb (a b : Visibility) : bool :=
  match a, b with
  | vis_public, vis_public | vis_home, vis_home
  | vis_followers, vis_followers | vis_specified, vis_specified
  | vis_hidden, vis_hidden => true
  | _, _ => false
  end.

Record ScyllaDriveFile := {
  file_id : string;
  file_type : string;
  comment : option string
}.

(** [NoteLike]: the fields of a joined [note.reply] / [note.renote] entity
    that the word-mute and visibility checks read. *)
Record NoteLike := {
  like_userId : string;
  like_text : option string;
  like_cw : option string;
  like_files : list ScyllaDriveFile
}.

Record ScyllaNote := {
  note_id : string;
  createdAt : Z;
  visibility : Visibility;
  userId : string;
  userHost : option string;
  text : option string;
  cw : option string;
  files : list ScyllaDriveFile;
  visibleUserIds : list string;
  mentions : list string;
  channelId : option string;
  hasPoll : bool;
  replyId : option string;
  replyUserId : option string;
  replyUserHost : option string;
  replyText : option string;
  replyCw : option string;
  replyFiles : list ScyllaDriveFile;
  renoteId : option string;
  renoteUserId : option string;
  renoteUserHost : option string;
  renoteText : option string;
  renoteCw : option string;
  renoteFiles : list ScyllaDriveFile;
  reply : option NoteLike;
  renote : option NoteLike
}.

Record ScyllaNotification := {
  notification_id : string;
  notification_createdAt : Z;
  targetId : string;
  notifierId : option string
}.

Record ScyllaNoteReaction := {
  reaction_id : string;
  reaction_createdAt : Z;
  reaction_noteId : string;
  reaction_userId : string
}.

(** A plain note without any denormalised reply or renote columns. *)
Definition plainNote (i : string) (at_ : Z) (v : Visibility) (author : string)
    (body : option string) : ScyllaNote :=
  {| note_id := i; createdAt := at_; visibility := v; userId := author;
     userHost := None; text := body; cw := None; files := [];
     visibleUserIds := []; mentions := []; channelId := None; hasPoll := false;
     replyId := None; replyUserId := None; replyUserHost := None;
     replyText := None; replyCw := None; replyFiles := [];
     renoteId := None; renoteUserId := None; renoteUserHost := None;
     renoteText := None; renoteCw := None; renoteFiles := [];
     reply := None; renote := None |}.

(** A [NoteLike] read through the [ScyllaNote] view: the properties it does
    not have read as [undefined]. *)
Definition ofNoteLike (n : NoteLike) : ScyllaNote :=
  {| note_id := ""; createdAt := 0; visibility := vis_public;
     userId := like_userId n; userHost := None;
     text := like_text n; cw := like_cw n; files := like_files n;
     visibleUserIds := []; mentions := []; channelId := None; hasPoll := false;
     replyId := None; replyUserId := None; replyUserHost := None;
     replyText := None; replyCw := None; replyFiles := [];
     renoteId := None; renoteUserId := None; renoteUserHost := None;
     renoteText := None; renoteCw := None; renoteFiles := [];
     reply := None; renote := None |}.

(** ** Word mutes ([misc/check-word-mute.ts]) *)

(** An entry of [mutedWords]: a keyword list, or the source of a regular
    expression written [/body/flags]. *)
Inductive MutePattern :=
| Keywords (keywords : list string)
| RegexSource (source : string).

(** What callers pass as [meId]: a user id, [null]/[undefined], or (from
    [filterMutedNote]) the whole [{ id }] object. *)
Inductive MeArg :=
| me_id (id : string)
| me_nullish
| me_object (id : string).

Module WordMute.
Section WithEngine.

(** Whether the wide-column store is configured ([scyllaClient] is not
    [null]). *)
Variable scyllaClient : bool.

(** The [re2] package: [RE2 body flags] is [None] when the constructor
    throws, and otherwise the compiled expression's [test]. *)
Variable RE2 : string -> string -> option (string -> bool).

(** The builtins [String.prototype.trim] and
    [String.prototype.toLowerCase]. *)
Variable trim : string -> string.
Variable toLowerCase : string -> string.

Definition fileComments (fs : list ScyllaDriveFile) : string :=
  JS.join " " (map (fun f => JS.orEmpty (comment f)) fs).

(** The text a note is matched against: the first part of
    [checkWordMute], up to and including [text.trim()]. *)
Definition muteText (note : ScyllaNote) : string :=
  let text0 := JS.orEmpty (cw note) +:+ " " +:+ JS.orEmpty (text note) in
  let text1 :=
    if (0 <? length (files note))%nat
    then text0 +:+ " " +:+ fileComments (files note) else text0 in
  let text2 :=
    if scyllaClient then
      let t := text1 +:+ JS.orEmpty (replyCw note) +:+ " "
               +:+ JS.orEmpty (replyText note) +:+ " "
               +:+ JS.orEmpty (renoteCw note) +:+ " "
               +:+ JS.orEmpty (renoteText note) in
      let t :=
        if (0 <? length (replyFiles note))%nat
        then t +:+ " " +:+ fileComments (replyFiles note) else t in
      if (0 <? length (renoteFiles note))%nat
      then t +:+ " " +:+ fileComments (renoteFiles note) else t
    else text1 in
  trim text2.

(** [mutePattern.match] against the anchored expression "slash, one or
    more characters, slash, any characters": a leading slash, a
    non-empty body taken greedily up to the last slash, then the flags;
    the dot does not cross a line terminator, which is LF, CR, U+2028
    or U+2029 (the last two as their three bytes). *)
Definition isLineTerminator (c : ascii) : bool :=
  ((nat_of_ascii c =? 10) || (nat_of_ascii c =? 13))%nat.

Definition lineSeparator : string :=
  String (ascii_of_nat 226) (String (ascii_of_nat 128)
    (String (ascii_of_nat 168) EmptyString)).

Definition paragraphSeparator : string :=
  String (ascii_of_nat 226) (String (ascii_of_nat 128)
    (String (ascii_of_nat 169) EmptyString)).

Fixpoint noLineTerminator (s : string) : bool :=
  match s with
  | EmptyString => true
  | String c rest =>
      negb (isLineTerminator c)
      && negb (String.prefix lineSeparator s)
      && negb (String.prefix paragraphSeparator s)
      && noLineTerminator rest
  end.

Fixpoint splitLastSlash (s : string) : option (string * string) :=
  match s with
  | EmptyString => None
  | String c rest =>
      match splitLastSlash rest with
      | Some (before, after) => Some (String c before, after)
      | None => if Ascii.eqb c "/" then Some (EmptyString, rest) else None
      end
  end.

Definition matchRegexSource (s : string) : option (string * string) :=
  match s with
  | String slash (String c rest) =>
      if Ascii.eqb slash "/" && noLineTerminator (String c rest) then
        match splitLastSlash rest with
        | Some (before, flags) => Some (String c before, flags)
        | None => None
        end
      else None
  | _ => None
  end.

(** The keyword branch: empty keywords are dropped, at least one must
    remain, and every one must occur in the lower-cased text. *)
Definition keywordsMatch (text : string) (mutePattern : list string) : bool :=
  let keywords := List.filter (fun keyword => negb (String.eqb keyword "")) mutePattern in
  (0 <? length keywords)%nat
  && forallb (fun keyword =>
                JS.includes (toLowerCase text) (toLowerCase keyword))
             keywords.

(** The regular-expression branch: a source that is not [/body/flags] is
    skipped with a warning, and a constructor that throws is caught. *)
Definition regexMatch (text : string) (mutePattern : string) : bool :=
  match matchRegexSource mutePattern with
  | None => false
  | Some (body, flags) =>
      match RE2 body flags with
      | Some test => test text
      | None => false
      end
  end.

Definition patternMatch (text : string) (p : MutePattern) : bool :=
  match p with
  | Keywords ks => keywordsMatch text ks
  | RegexSource src => regexMatch text src
  end.

(** The [for (const mutePattern of mutedWords)] loop. *)
Fixpoint scanPatterns (text : string) (mutedWords : list MutePattern) : bool :=
  match mutedWords with
  | [] => false
  | mutePattern :: rest =>
      if patternMatch text mutePattern then true else scanPatterns text rest
  end.

Definition checkWordMute (note : option ScyllaNote)
    (mutedWords : list MutePattern) : bool :=
  match note with
  | None => false
  | Some note =>
      let text := muteText note in
      if String.eqb text "" then false else scanPatterns text mutedWords
  end.

(** [note.userId === meId]: strict equality holds only against a string. *)
Definition isMe (note : ScyllaNote) (meId : MeArg) : bool :=
  match meId with
  | me_id i => String.eqb (userId note) i
  | me_nullish | me_object _ => false
  end.

(** [getWordHardMute] is declared [async]: it returns a promise. *)
Definition getWordHardMute (note : ScyllaNote) (meId : MeArg)
    (mutedWords : option (list MutePattern)) : JS.Promise bool :=
  JS.Fulfilled
    match mutedWords with
    | None => false
    | Some mutedWords =>
        if isMe note meId then false
        else if (0 <? length mutedWords)%nat then
          let ng := checkWordMute (Some note) mutedWords in
          if negb scyllaClient then
            ng || checkWordMute (ofNoteLike <$> reply note) mutedWords
               || checkWordMute (ofNoteLike <$> renote note) mutedWords
          else ng
        else false
    end.

(** [filterMutedNote] of [db/scylla.ts]: the callback negates the value
    of the call itself, which is the promise. *)
Definition filterMutedNote (notes : list ScyllaNote) (user : string)
    (mutedWords : list MutePattern) : list ScyllaNote :=
  if (0 <? length mutedWords)%nat then
    List.filter
      (fun note =>
         negb (JS.truthy_object
                 (getWordHardMute note (me_object user) (Some mutedWords))))
      notes
  else notes.

End WithEngine.

(** A stand-in for [re2] on the two kinds of expression the examples
    use: dot-star, which accepts every text, and a body without
    metacharacters, which is searched for as it is (ignoring the case
    of ASCII letters under the [i] flag).  Anything else is refused like
    a syntax error. *)
Definition isMeta (c : ascii) : bool :=
  existsb (Ascii.eqb c)
    (list_ascii_of_string "\^$.|?*+()[]{}").

Fixpoint metaFree (s : string) : bool :=
  match s with
  | EmptyString => true
  | String c rest => negb (isMeta c) && metaFree rest
  end.

Definition fragmentRE2 (body flags : string) : option (string -> bool) :=
  if String.eqb body ".*" then Some (fun _ => true)
  else if metaFree body then
    if String.eqb flags "" then Some (fun t => JS.includes t body)
    else if String.eqb flags "i"
         then Some (fun t =>
                      JS.includes (JS.asciiToLowerCase t) (JS.asciiToLowerCase body))
         else None
  else None.

End WordMute.

(** ** Visibility ([filterVisibility] of [db/scylla.ts] and
       [isVisibleForMe] of the note repository) *)

Module Visibility.

(** [["public", "home"].includes(note.visibility)]. *)
Definition publicOrHome (v : Visibility) : bool :=
  existsb (Visibility_eqb v) [vis_public; vis_home].

(** The predicate applied to each row for a signed-in viewer. *)
Definition visibleTo (me : string) (followingIds : list string)
    (note : ScyllaNote) : bool :=
  publicOrHome (visibility note)
  || String.eqb (userId note) me
  || JS.arrayIncludes (visibleUserIds note) me
  || JS.arrayIncludes (mentions note) me
  || (Visibility_eqb (visibility note) vis_followers
      && (JS.arrayIncludes followingIds (userId note)
          || JS.strictEqOpt (replyUserId note) me)).

Definition filterVisibility (notes : list ScyllaNote) (user : option string)
    (followingIds : list string) : list ScyllaNote :=
  match user with
  | None => List.filter (fun note => publicOrHome (visibility note)) notes
  | Some me => List.filter (visibleTo me followingIds) notes
  end.

Section Repository.

(** The lookups behind the follower test: whether the viewer is a local
    user ([userByIdCache] and [Users.isLocalUser]), whether the viewer's
    local followings cache has the author, and whether a following row
    exists in the database. *)
Variable isLocalUser : string -> bool.
Variable localFollowingsHas : string -> string -> bool.
Variable followingExists : string -> string -> bool.

Definition isVisibleForMe (note : ScyllaNote) (meId : option string) : bool :=
  match visibility note with
  | vis_specified =>
      match meId with
      | None => false
      | Some meId =>
          if String.eqb meId (userId note) then true
          else existsb (fun id => String.eqb meId id) (visibleUserIds note)
      end
  | vis_followers =>
      match meId with
      | None => false
      | Some meId =>
          if String.eqb meId (userId note) then true
          else if match reply note with
                  | Some r => String.eqb meId (like_userId r)
                  | None => false
                  end then true
          else if existsb (fun id => String.eqb meId id) (mentions note) then true
          else if isLocalUser meId then localFollowingsHas meId (userId note)
          else followingExists meId (userId note)
               || JS.truthy_string (userHost note)
      end
  | _ => true
  end.

End Repository.
End Visibility.

(** ** The Redis keyspace behind the caches *)

Module Redis.

(** [KEYS pattern]: glob matching with [*] and [?]. *)
Fixpoint globChars (p s : list ascii) : bool :=
  match p with
  | [] => match s with [] => true | _ => false end
  | c :: p' =>
      if Ascii.eqb c "*" then
        (fix star (s : list ascii) : bool :=
           globChars p' s
           || match s with
              | [] => false
              | _ :: s' => star s'
              end) s
      else
        match s with
        | [] => false
        | d :: s' => (Ascii.eqb c "?" || Ascii.eqb c d) && globChars p' s'
        end
  end.

Definition glob (pattern key : string) : bool :=
  globChars (list_ascii_of_string pattern) (list_ascii_of_string key).

(** A string without a star, which a pattern takes literally up to its
    question marks. *)
Fixpoint noStar (s : string) : bool :=
  match s with
  | EmptyString => true
  | String c rest => negb (Ascii.eqb c "*") && noStar rest
  end.

Section Keyspace.

(** The payload of string-valued keys. *)
Context {V : Type}.

Record entry := { payload : V; expiresAt : option Z }.

(** String-valued keys with their expiry, and set-valued keys.  The
    caches store strings under [cache:...] and [...:fetched] and sets
    under [setcache:...]. *)
Record t := {
  strings : gmap string entry;
  sets : gmap string (gset string)
}.

Definition empty : t := {| strings := ∅; sets := ∅ |}.

Definition live (now : Z) (e : entry) : bool :=
  match expiresAt e with
  | Some deadline => now <? deadline
  | None => true
  end.

(** [GET]. *)
Definition getBuffer (now : Z) (st : t) (key : string) : option V :=
  match strings st !! key with
  | Some e => if live now e then Some (payload e) else None
  | None => None
  end.

(** [SET key value EX seconds]. *)
Definition set_ex (now : Z) (st : t) (key : string) (value : V) (seconds : Z) : t :=
  {| strings := <[key := {| payload := value;
                            expiresAt := Some (now + seconds * 1000) |}]> (strings st);
     sets := delete key (sets st) |}.

(** [EXPIRE key seconds]. *)
Definition expire (now : Z) (st : t) (key : string) (seconds : Z) : t :=
  match strings st !! key with
  | Some e =>
      if live now e then
        {| strings := <[key := {| payload := payload e;
                                  expiresAt := Some (now + seconds * 1000) |}]> (strings st);
           sets := sets st |}
      else st
  | None => st
  end.

(** [SCARD], [SISMEMBER], [SMEMBERS]. *)
Definition members (st : t) (key : string) : gset string :=
  default ∅ (sets st !! key).

Definition scard (st : t) (key : string) : Z := Z.of_nat (size (members st key)).

Definition sismember (st : t) (key member : string) : Z :=
  if bool_decide (member ∈ members st key) then 1 else 0.

Definition smembers (st : t) (key : string) : list string :=
  elements (members st key).

(** [EXISTS key]. *)
Definition exists_ (now : Z) (st : t) (key : string) : Z :=
  match getBuffer now st key with
  | Some _ => 1
  | None => if 0 <? scard st key then 1 else 0
  end.

(** [DEL key ...]. *)
Definition del (st : t) (keys : list string) : t :=
  {| strings := foldr delete (strings st) keys;
     sets := foldr delete (sets st) keys |}.

(** [SADD key member ...] with at least one member. *)
Definition sadd (st : t) (key : string) (targetIds : list string) : t :=
  {| strings := strings st;
     sets := <[key := list_to_set targetIds ∪ members st key]> (sets st) |}.

(** [SREM key member ...]; a set emptied this way is removed. *)
Definition srem (st : t) (key : string) (targetIds : list string) : t :=
  let rest := members st key ∖ list_to_set targetIds in
  {| strings := strings st;
     sets := if bool_decide (rest = ∅) then delete key (sets st)
             else <[key := rest]> (sets st) |}.

(** [KEYS pattern]: the keys that exist and match. *)
Definition keys (now : Z) (st : t) (pattern : string) : list string :=
  List.filter (fun key => glob pattern key && (0 <? exists_ now st key))
    (elements (dom (strings st) ∪ dom (sets st))).

(** [MGET key ...]: [null] for a key that holds no string. *)
Definition mgetBuffer (now : Z) (st : t) (ks : list string) : list (option V) :=
  map (getBuffer now st) ks.

End Keyspace.
Arguments entry : clear implicits.
Arguments t : clear implicits.
End Redis.

(** ** The keyed cache and the membership cache ([misc/cache.ts]) *)

Module Cache.
Section Keyed.

(** [Cache<T>]: values of [T] are serialised to the payload type by
    [encode] and read back by [decode] (msgpackr). *)
Context {T V : Type}.
Variable encode : T -> V.
Variable decode : V -> T.

Record t := { ttl : Z; prefix : string }.

(** The constructor. *)
Definition new (name : string) (ttlSeconds : Z) : t :=
  {| ttl := ttlSeconds; prefix := "cache:" +:+ name |}.

Definition prefixedKey (c : t) (key : option string) : string :=
  if JS.truthy_string key then prefix c +:+ ":" +:+ default "" key
  else prefix c.

Definition set (c : t) (now : Z) (st : Redis.t V) (key : option string)
    (value : T) : Redis.t V :=
  Redis.set_ex now st (prefixedKey c key) (encode value) (ttl c).

Definition get (c : t) (now : Z) (st : Redis.t V) (key : option string)
    (renew : bool) : option T * Redis.t V :=
  let _key := prefixedKey c key in
  match Redis.getBuffer now st _key with
  | None => (None, st)
  | Some cached =>
      (Some (decode cached),
       if renew then Redis.expire now st _key (ttl c) else st)
  end.

(** The loop of [getAll] that fills the [Map] from the keys and the
    values read for them. *)
Fixpoint collect (ks : list string) (values : list (option V))
    (map : gmap string T) : gmap string T :=
  match ks, values with
  | key :: ks', val :: values' =>
      collect ks' values'
        match val with
        | Some v => <[key := decode v]> map
        | None => map
        end
  | _, _ => map
  end.

Definition getAll (c : t) (now : Z) (st : Redis.t V) (renew : bool)
    : gmap string T * Redis.t V :=
  let ks := Redis.keys now st (prefix c +:+ "*") in
  if (length ks =? 0)%nat then (∅, st)
  else
    let values := Redis.mgetBuffer now st ks in
    let map := collect ks values ∅ in
    (map,
     if renew
     then foldl (fun s key => Redis.expire now s key (ttl c)) st
                (List.filter (fun key => bool_decide (is_Some (map !! key))) ks)
     else st).

(** [fetch]: the cached value when there is one and the optional
    validator accepts it; otherwise what the fetcher returns, written
    back under the key.  [fetcher] is the value the fetcher's promise
    resolves to. *)
Definition fetch (c : t) (now : Z) (st : Redis.t V) (key : option string)
    (fetcher : T) (renew : bool) (validator : option (T -> bool))
    : T * Redis.t V :=
  let '(cachedValue, st) := get c now st key renew in
  let miss := let value := fetcher in (value, set c now st key value) in
  match cachedValue with
  | Some cachedValue =>
      match validator with
      | Some validator =>
          if validator cachedValue then (cachedValue, st) else miss
      | None => (cachedValue, st)
      end
  | None => miss
  end.

(** [fetchMaybe]: the same, for a fetcher that may find nothing, in
    which case nothing is written. *)
Definition fetchMaybe (c : t) (now : Z) (st : Redis.t V) (key : option string)
    (fetcher : option T) (renew : bool) (validator : option (T -> bool))
    : option T * Redis.t V :=
  let '(cachedValue, st) := get c now st key renew in
  let miss :=
    let value := fetcher in
    (value,
     match value with
     | Some value => set c now st key value
     | None => st
     end) in
  match cachedValue with
  | Some cachedValue =>
      match validator with
      | Some validator =>
          if validator cachedValue then (Some cachedValue, st) else miss
      | None => (Some cachedValue, st)
      end
  | None => miss
  end.

End Keyed.
End Cache.

Module SetCache.

(** A handle: the key of the set and what its fetcher (a read of the
    source of truth) returns. *)
Record t := { key : string; fetcher : list string }.

(** The constructor. *)
Definition new (name userId : string) (fetched : list string) : t :=
  {| key := "setcache:" +:+ name +:+ ":" +:+ userId; fetcher := fetched |}.

Definition ttlKey (c : t) : string := key c +:+ ":fetched".

(** Seconds the freshness marker lives: [60 * 30]. *)
Definition markerSeconds : Z := 60 * 30.

Definition follow (c : t) (st : Redis.t string) (targetIds : list string)
    : Redis.t string :=
  if (0 <? length targetIds)%nat then Redis.sadd st (key c) targetIds else st.

Definition unfollow (c : t) (st : Redis.t string) (targetIds : list string)
    : Redis.t string :=
  if (0 <? length targetIds)%nat then Redis.srem st (key c) targetIds else st.

Definition isFollowing (c : t) (st : Redis.t string) (targetId : string) : bool :=
  Redis.sismember st (key c) targetId =? 1.

Definition hasFollowing (c : t) (st : Redis.t string) : bool :=
  negb (Redis.scard st (key c) =? 0).

Definition getAll (c : t) (st : Redis.t string) : list string :=
  Redis.smembers st (key c).

(** Whether [fetch] goes to the source of truth. *)
Definition stale (c : t) (now : Z) (st : Redis.t string) : bool :=
  negb (hasFollowing c st) || (Redis.exists_ now st (ttlKey c) =? 0).

Definition fetch (c : t) (now : Z) (st : Redis.t string) : Redis.t string :=
  if stale c now st then
    let st1 := Redis.del st [key c] in
    let st2 := follow c st1 (fetcher c) in
    Redis.set_ex now st2 (ttlKey c) "yes" markerSeconds
  else st.

(** [LocalFollowingsCache.init] and [ChannelFollowingsCache.init]: build
    the handle, then [fetch]. *)
Definition LocalFollowingsCache_init (userId : string) (followees : list string)
    (now : Z) (st : Redis.t string) : t * Redis.t string :=
  let cache := new "follow" userId followees in
  (cache, fetch cache now st).

Definition ChannelFollowingsCache_init (userId : string) (followees : list string)
    (now : Z) (st : Redis.t string) : t * Redis.t string :=
  let cache := new "channel" userId followees in
  (cache, fetch cache now st).

End SetCache.

(** ** The cross-partition scanner ([db/scylla.ts]) *)

Inductive FeedType :=
| feed_home | feed_local | feed_recommended | feed_global | feed_renotes
| feed_user | feed_channel | feed_notification | feed_list | feed_reaction
| feed_antenna.

Definition FeedType_eqb (a b : FeedType) : bool :=
  match a, b with
  | feed_home, feed_home | feed_local, feed_local
  | feed_recommended, feed_recommended | feed_global, feed_global
  | feed_renotes, feed_renotes | feed_user, feed_user
  | feed_channel, feed_channel | feed_notification, feed_notification
  | feed_list, feed_list | feed_reaction, feed_reaction
  | feed_antenna, feed_antenna => true
  | _, _ => false
  end.

Definition feedName (kind : FeedType) : string :=
  match kind with
  | feed_home => "home" | feed_local => "local"
  | feed_recommended => "recommended" | feed_global => "global"
  | feed_renotes => "renotes" | feed_user => "user"
  | feed_channel => "channel" | feed_notification => "notification"
  | feed_list => "list" | feed_reaction => "reaction"
  | feed_antenna => "antenna"
  end.

(** The request descriptor [ps]. *)
Record PaginationParams := {
  ps_limit : Z;
  ps_untilId : option string;
  ps_untilDate : option Z;
  ps_sinceId : option string;
  ps_sinceDate : option Z;
  ps_noteId : option string;
  ps_channelId : option string;
  ps_userIds : option (list string)
}.

(** [config.scylla]. *)
Record ScyllaConfig := {
  queryLimit : option Z;
  sparseTimelineDays : option Z
}.

(** The prepared statements of [db/cql.ts] that the selector refers to. *)
Record Prepared := {
  homeTimeline_select_byUserAndDate : string;
  localTimeline_select_byDate : string;
  globalTimeline_select_byDate : string;
  note_select_byRenoteId : string;
  note_select_byUserId : string;
  note_select_byChannelId : string;
  notification_select_byTargetId : string;
  reaction_select_byUserId : string;
  note_select_byDate : string
}.

(** A bound value of a statement. *)
Inductive Param :=
| PDate (d : Z)
| PString (s : string)
| PNumber (n : Z).

(** The three kinds of row a scan collects. *)
Inductive FeedRow :=
| NoteRow (n : ScyllaNote)
| NotificationRow (n : ScyllaNotification)
| ReactionRow (r : ScyllaNoteReaction).

Definition rowCreatedAt (r : FeedRow) : Z :=
  match r with
  | NoteRow n => createdAt n
  | NotificationRow n => notification_createdAt n
  | ReactionRow r => reaction_createdAt r
  end.

(** The caller's optional filters. *)
Record Filters := {
  filter_note : option (list ScyllaNote -> list ScyllaNote);
  filter_reaction : option (list ScyllaNoteReaction -> list ScyllaNoteReaction);
  filter_notification : option (list ScyllaNotification -> list ScyllaNotification)
}.

Definition noFilters : Filters :=
  {| filter_note := None; filter_reaction := None; filter_notification := None |}.

(** How a call ends. *)
Inductive Outcome (A : Type) :=
| Returned (a : A)
| Threw (message : string)
| OutOfFuel.
Arguments Returned {A} a.
Arguments Threw {A} message.
Arguments OutOfFuel {A}.

(** What a scan does that is visible from outside: statements sent to the
    store, ids popped off [ps.userIds], and partitions given up. *)
Inductive Event :=
| EvExecute (query : string) (params : list Param)
| EvPop (targetId : option string)
| EvPartitionEnd (untilDate : Z).

Definition isPartitionEnd (e : Event) : bool :=
  match e with EvPartitionEnd _ => true | _ => false end.

Definition isPop (e : Event) : bool :=
  match e with EvPop _ => true | _ => false end.

Module Scylla.

Definition dquote : string := String (ascii_of_nat 34) EmptyString.

(** The two time predicates and the limit clause appended to a
    statement. *)
Definition untilClause : string :=
  "AND " +:+ dquote +:+ "createdAt" +:+ dquote +:+ " < ?".
Definition sinceClause : string :=
  "AND " +:+ dquote +:+ "createdAt" +:+ dquote +:+ " > ?".
Definition limitClause : string := "LIMIT ?".

Definition msPerDay : Z := 86400000.

(** [Array.prototype.pop]. *)
Definition pop (l : list string) : option string * list string :=
  (last l, removelast l).

Section Scanner.

(** [types.Row] of the driver and the three row parsers, which read it
    column by column. *)
Variable Row : Type.
Variable parseScyllaNote : Row -> ScyllaNote.
Variable parseScyllaNotification : Row -> ScyllaNotification.
Variable parseScyllaReaction : Row -> ScyllaNoteReaction.

(** [config.scylla]; the client exists exactly when it is configured. *)
Variable config_scylla : option ScyllaConfig.
Variable prepared : Prepared.

(** [scyllaClient.execute(query, params, { prepare: true })]: the rows,
    or [None] when the driver rejects. *)
Variable execute : string -> list Param -> option (list Row).

(** [getTimestamp] of [misc/gen-id.ts], the clock, and the offset of
    local time from UTC in milliseconds, for a host whose time zone
    keeps one offset across the days scanned. *)
Variable getTimestamp : string -> Z.
Variable now : Z.
Variable tzOffset : Z.

Definition scyllaClient : bool :=
  match config_scylla with Some _ => true | None => false end.

Definition selectStatement (kind : FeedType) : string :=
  match kind with
  | feed_home => homeTimeline_select_byUserAndDate prepared
  | feed_local => localTimeline_select_byDate prepared
  | feed_recommended | feed_global => globalTimeline_select_byDate prepared
  | feed_renotes => note_select_byRenoteId prepared
  | feed_user | feed_list => note_select_byUserId prepared
  | feed_channel => note_select_byChannelId prepared
  | feed_notification => notification_select_byTargetId prepared
  | feed_reaction => reaction_select_byUserId prepared
  | feed_antenna => note_select_byDate prepared
  end.

Record PreparedQuery := {
  query : string;
  untilDate : Z;
  sinceDate : option Z
}.

Definition resolveUntil (ps : PaginationParams) : Z :=
  let until := now in
  let until :=
    if JS.truthy_string (ps_untilId ps)
    then getTimestamp (default "" (ps_untilId ps)) else until in
  if JS.truthy_number (ps_untilDate ps) && (default 0 (ps_untilDate ps) <? until)
  then default 0 (ps_untilDate ps) else until.

Definition resolveSince (ps : PaginationParams) : option Z :=
  let since :=
    if JS.truthy_string (ps_sinceId ps)
    then Some (getTimestamp (default "" (ps_sinceId ps))) else None in
  if JS.truthy_number (ps_sinceDate ps)
     && match since with
        | None => true
        | Some s => s <? default 0 (ps_sinceDate ps)
        end
  then Some (default 0 (ps_sinceDate ps)) else since.

Definition preparePaginationQuery (kind : FeedType) (ps : PaginationParams)
    : PreparedQuery :=
  let queryParts := [selectStatement kind] in
  let queryParts := queryParts ++ [untilClause] in
  let until := resolveUntil ps in
  let since := resolveSince ps in
  let queryParts :=
    match since with
    | Some _ => queryParts ++ [sinceClause]
    | None => queryParts
    end in
  let queryParts := queryParts ++ [limitClause] in
  {| query := JS.join " " queryParts; untilDate := until; sinceDate := since |}.

(** The variables of the loop, the caller's [ps.userIds] array, and what
    has happened so far. *)
Record ScanState := {
  cur_untilDate : Z;
  scannedPartitions : Z;
  found : list FeedRow;
  cur_userIds : option (list string);
  events : list Event
}.

Definition withUntil (st : ScanState) (u : Z) : ScanState :=
  {| cur_untilDate := u; scannedPartitions := scannedPartitions st;
     found := found st; cur_userIds := cur_userIds st; events := events st |}.

Definition withEvent (st : ScanState) (e : Event) : ScanState :=
  {| cur_untilDate := cur_untilDate st; scannedPartitions := scannedPartitions st;
     found := found st; cur_userIds := cur_userIds st;
     events := events st ++ [e] |}.

Definition pushFound (st : ScanState) (rows : list FeedRow) : ScanState :=
  {| cur_untilDate := cur_untilDate st; scannedPartitions := scannedPartitions st;
     found := found st ++ rows; cur_userIds := cur_userIds st;
     events := events st |}.

(** [const yesterday = new Date(untilDate.getTime() - 86400000);
    yesterday.setHours(23, 59, 59, 990)]: the last instant but ten
    milliseconds of the local day before, in a zone of offset
    [tzOffset]; [LocalTime.endOfYesterday] below reads the same
    statements in any zone. *)
Definition endOfYesterday (until : Z) : Z :=
  let yesterday := until - msPerDay in
  (yesterday + tzOffset) / msPerDay * msPerDay - tzOffset
  + (23 * 3600000 + 59 * 60000 + 59 * 1000 + 990).

Definition fetchLimit (kind : FeedType) (ps : PaginationParams) : Z :=
  let queryLimit := default 100 (config_scylla ≫= queryLimit) in
  if FeedType_eqb kind feed_list then Z.min (ps_limit ps) queryLimit
  else queryLimit.

Definition foundLimit (kind : FeedType) (ps : PaginationParams) : Z :=
  match ps_userIds ps with
  | Some userIds =>
      if FeedType_eqb kind feed_list
      then ps_limit ps * Z.of_nat (length userIds) else ps_limit ps
  | None => ps_limit ps
  end.

(** The first part of the loop body: the parameters that identify the
    partition, [None] when the list branch finds no target left. *)
Definition partitionParams (kind : FeedType) (ps : PaginationParams)
    (userId : option string) (st : ScanState)
    : option (list Param) * ScanState :=
  let untilDate := cur_untilDate st in
  let uid := default "" userId in
  if FeedType_eqb kind feed_home && JS.truthy_string userId then
    (Some [PString uid; PDate untilDate; PDate untilDate], st)
  else if (FeedType_eqb kind feed_user || FeedType_eqb kind feed_reaction)
          && JS.truthy_string userId then
    (Some [PString uid; PDate untilDate], st)
  else if FeedType_eqb kind feed_renotes && JS.truthy_string (ps_noteId ps) then
    (Some [PString (default "" (ps_noteId ps)); PDate untilDate], st)
  else if FeedType_eqb kind feed_channel && JS.truthy_string (ps_channelId ps) then
    (Some [PString (default "" (ps_channelId ps)); PDate untilDate], st)
  else if FeedType_eqb kind feed_notification && JS.truthy_string userId then
    (Some [PString uid; PDate untilDate; PDate untilDate], st)
  else
    match (if FeedType_eqb kind feed_list then cur_userIds st else None) with
    | Some userIds =>
        let '(targetId, rest) := pop userIds in
        let st :=
          withEvent
            {| cur_untilDate := cur_untilDate st;
               scannedPartitions := scannedPartitions st;
               found := found st; cur_userIds := Some rest;
               events := events st |}
            (EvPop targetId) in
        if JS.truthy_string targetId
        then (Some [PString (default "" targetId); PDate untilDate], st)
        else (None, st)
    | None => (Some [PDate untilDate; PDate untilDate], st)
    end.

(** The rows of a non-empty result, parsed and filtered for the feed
    kind, with the creation time of the last row read. *)
Definition collectRows (kind : FeedType) (filter : Filters) (rows : list Row)
    : list FeedRow * Z :=
  match kind with
  | feed_notification =>
      let notifications := map parseScyllaNotification rows in
      (map NotificationRow
         (match filter_notification filter with
          | Some f => f notifications
          | None => notifications
          end),
       default 0 (notification_createdAt <$> last notifications))
  | feed_reaction =>
      let reactions := map parseScyllaReaction rows in
      (map ReactionRow
         (match filter_reaction filter with
          | Some f => f reactions
          | None => reactions
          end),
       default 0 (reaction_createdAt <$> last reactions))
  | _ =>
      let notes := map parseScyllaNote rows in
      (map NoteRow
         (match filter_note filter with
          | Some f => f notes
          | None => notes
          end),
       default 0 (createdAt <$> last notes))
  end.

(** The rest of the parameters: the lower bound when there is one, then
    the fetch limit. *)
Definition boundParams (pq : PreparedQuery) (fetchLimit : Z)
    (params : list Param) : list Param :=
  let params :=
    match sinceDate pq with
    | Some since => params ++ [PDate since]
    | None => params
    end in
  params ++ [PNumber fetchLimit].

Inductive Step :=
| Continue (st : ScanState)
| Break (st : ScanState)
| Rejected (st : ScanState).

(** One pass through the body of the [while] loop. *)
Definition iteration (kind : FeedType) (ps : PaginationParams)
    (filter : Filters) (userId : option string) (pq : PreparedQuery)
    (st : ScanState) : Step :=
  match partitionParams kind ps userId st with
  | (None, st) => Break st
  | (Some params, st) =>
      let fetchLimit := fetchLimit kind ps in
      let params := boundParams pq fetchLimit params in
      let st := withEvent st (EvExecute (query pq) params) in
      match execute (query pq) params with
      | None => Rejected st
      | Some rows =>
          let rowLength := Z.of_nat (length rows) in
          let st :=
            if 0 <? rowLength then
              let '(kept, lastCreatedAt) := collectRows kind filter rows in
              withUntil (pushFound st kept) lastCreatedAt
            else st in
          if rowLength <? fetchLimit then
            let untilDate := endOfYesterday (cur_untilDate st) in
            let st :=
              withEvent
                {| cur_untilDate := untilDate;
                   scannedPartitions := scannedPartitions st + 1;
                   found := found st; cur_userIds := cur_userIds st;
                   events := events st |}
                (EvPartitionEnd untilDate) in
            match sinceDate pq with
            | Some since => if untilDate <? since then Break st else Continue st
            | None => Continue st
            end
          else Continue st
      end
  end.

Definition stepState (s : Step) : ScanState :=
  match s with
  | Continue st | Break st | Rejected st => st
  end.

(** The [while] loop, run for at most [fuel] passes. *)
Fixpoint scanLoop (fuel : nat) (kind : FeedType) (ps : PaginationParams)
    (filter : Filters) (userId : option string) (pq : PreparedQuery)
    (maxPartitions : Z) (st : ScanState) : Outcome unit * ScanState :=
  if (Z.of_nat (length (found st)) <? foundLimit kind ps)
     && (scannedPartitions st <? maxPartitions) then
    match fuel with
    | O => (OutOfFuel, st)
    | S fuel =>
        match iteration kind ps filter userId pq st with
        | Continue st => scanLoop fuel kind ps filter userId pq maxPartitions st
        | Break st => (Returned tt, st)
        | Rejected st => (Threw "QueryError", st)
        end
    end
  else (Returned tt, st).

(** The checks on the scoping id of the feed kind. *)
Definition missingScope (kind : FeedType) (ps : PaginationParams)
    (userId : option string) : option string :=
  match kind with
  | feed_home | feed_user | feed_notification | feed_reaction =>
      if negb (JS.truthy_string userId)
      then Some ("Feed " +:+ feedName kind +:+ " needs userId") else None
  | feed_renotes =>
      if negb (JS.truthy_string (ps_noteId ps))
      then Some ("Feed " +:+ feedName kind +:+ " needs noteId") else None
  | feed_channel =>
      if negb (JS.truthy_string (ps_channelId ps))
      then Some ("Feed " +:+ feedName kind +:+ " needs channelId") else None
  | feed_list =>
      match ps_userIds ps with
      | Some (_ :: _) => None
      | _ => Some ("Feed " +:+ feedName kind +:+ " needs userIds")
      end
  | _ => None
  end.

Definition defaultMaxPartitions : Z :=
  default 14 (config_scylla ≫= sparseTimelineDays).

Definition initialState (ps : PaginationParams) (pq : PreparedQuery) : ScanState :=
  {| cur_untilDate := untilDate pq; scannedPartitions := 0; found := [];
     cur_userIds := ps_userIds ps; events := [] |}.

(** [execPaginationQuery]: the outcome, together with the final state
    (whose [cur_userIds] is the caller's array after the call). *)
Definition execPaginationQuery (fuel : nat) (kind : FeedType)
    (ps : PaginationParams) (filter : Filters) (userId : option string)
    (maxPartitions : option Z) : Outcome (list FeedRow) * ScanState :=
  let pq0 := {| query := ""; untilDate := now; sinceDate := None |} in
  if negb scyllaClient then (Returned [], initialState ps pq0)
  else
    match missingScope kind ps userId with
    | Some message => (Threw message, initialState ps pq0)
    | None =>
        let pq := preparePaginationQuery kind ps in
        let maxPartitions := default defaultMaxPartitions maxPartitions in
        match scanLoop fuel kind ps filter userId pq maxPartitions
                (initialState ps pq) with
        | (Returned _, st) => (Returned (found st), st)
        | (Threw message, st) => (Threw message, st)
        | (OutOfFuel, st) => (OutOfFuel, st)
        end
    end.

End Scanner.
End Scylla.

(** Modelled from the spec: the day-partitioned store that answers
    [execute] (the statements of [db/cql.ts] and the store itself are not
    among the sources).  A statement reads one partition, that is the rows
    of its key and, where it binds two dates, of the calendar day of the
    first one; it yields the rows strictly inside its time bounds, newest
    first, and no more of them than its limit. *)
Module DayStore.

Record Stored := { feedKey : string; stored : ScyllaNote }.

Record Scan := {
  scan_key : option string;
  scan_day : option Z;
  scan_until : Z;
  scan_since : option Z;
  scan_limit : Z
}.

Definition dayOf (t : Z) : Z := t / Scylla.msPerDay.

(** The bound values of a statement, read back by position. *)
Definition decode (query : string) (params : list Param) : option Scan :=
  if JS.includes query Scylla.sinceClause then
    match params with
    | [PString k; PDate d; PDate u; PDate s; PNumber l] =>
        Some {| scan_key := Some k; scan_day := Some (dayOf d);
                scan_until := u; scan_since := Some s; scan_limit := l |}
    | [PString k; PDate u; PDate s; PNumber l] =>
        Some {| scan_key := Some k; scan_day := None;
                scan_until := u; scan_since := Some s; scan_limit := l |}
    | [PDate d; PDate u; PDate s; PNumber l] =>
        Some {| scan_key := None; scan_day := Some (dayOf d);
                scan_until := u; scan_since := Some s; scan_limit := l |}
    | _ => None
    end
  else
    match params with
    | [PString k; PDate d; PDate u; PNumber l] =>
        Some {| scan_key := Some k; scan_day := Some (dayOf d);
                scan_until := u; scan_since := None; scan_limit := l |}
    | [PString k; PDate u; PNumber l] =>
        Some {| scan_key := Some k; scan_day := None;
                scan_until := u; scan_since := None; scan_limit := l |}
    | [PDate d; PDate u; PNumber l] =>
        Some {| scan_key := None; scan_day := Some (dayOf d);
                scan_until := u; scan_since := None; scan_limit := l |}
    | _ => None
    end.

Definition inScan (sc : Scan) (r : Stored) : bool :=
  match scan_key sc with
  | Some k => String.eqb (feedKey r) k
  | None => true
  end
  && match scan_day sc with
     | Some d => dayOf (createdAt (stored r)) =? d
     | None => true
     end
  && (createdAt (stored r) <? scan_until sc)
  && match scan_since sc with
     | Some s => s <? createdAt (stored r)
     | None => true
     end.

(** Newest first. *)
Fixpoint insertDesc (r : Stored) (l : list Stored) : list Stored :=
  match l with
  | [] => [r]
  | x :: rest =>
      if createdAt (stored x) <=? createdAt (stored r) then r :: l
      else x :: insertDesc r rest
  end.

Definition sortDesc (l : list Stored) : list Stored :=
  foldr insertDesc [] l.

Definition execute (table : list Stored) (query : string)
    (params : list Param) : option (list Stored) :=
  match decode query params with
  | Some sc =>
      Some (firstn (Z.to_nat (scan_limit sc))
              (sortDesc (List.filter (inScan sc) table)))
  | None => None
  end.

Definition parseNote (r : Stored) : ScyllaNote := stored r.

Definition parseNotification (r : Stored) : ScyllaNotification :=
  {| notification_id := note_id (stored r);
     notification_createdAt := createdAt (stored r);
     targetId := feedKey r; notifierId := None |}.

Definition parseReaction (r : Stored) : ScyllaNoteReaction :=
  {| reaction_id := note_id (stored r);
     reaction_createdAt := createdAt (stored r);
     reaction_noteId := note_id (stored r);
     reaction_userId := feedKey r |}.

(** Statement texts for this store; only their time clauses are read. *)
Definition statements : Prepared :=
  {| homeTimeline_select_byUserAndDate := "SELECT home_timeline";
     localTimeline_select_byDate := "SELECT local_timeline";
     globalTimeline_select_byDate := "SELECT global_timeline";
     note_select_byRenoteId := "SELECT note_by_renote_id";
     note_select_byUserId := "SELECT note_by_user_id";
     note_select_byChannelId := "SELECT note_by_channel_id";
     notification_select_byTargetId := "SELECT notification";
     reaction_select_byUserId := "SELECT reaction";
     note_select_byDate := "SELECT note" |}.

(** [execPaginationQuery] over this store, in UTC. *)
Definition exec (table : list Stored) (cfg : ScyllaConfig) (now : Z)
    (stamp : string -> Z) :=
  Scylla.execPaginationQuery Stored parseNote parseNotification parseReaction
    (Some cfg) statements (execute table) stamp now 0.

End DayStore.

(** ** The home-timeline endpoint ([endpoints/notes/timeline.ts]) *)

Module Timeline.
Section Endpoint.

(** A packed note, and [Notes.packMany] for the viewer. *)
Variable Packed : Type.
Variable packMany : list ScyllaNote -> list Packed.

(** The call [execPaginationQuery("home", ps, { note: filter }, user.id)]
    as a function of the request descriptor it is given. *)
Variable execHome : PaginationParams -> Outcome (list ScyllaNote).

(** [query.take(take).skip(skip).getMany()] on the relational store,
    [None] when the query fails. *)
Variable getMany : Z -> Z -> option (list ScyllaNote).

Definition setUntilDate (ps : PaginationParams) (d : Z) : PaginationParams :=
  {| ps_limit := ps_limit ps; ps_untilId := ps_untilId ps;
     ps_untilDate := Some d; ps_sinceId := ps_sinceId ps;
     ps_sinceDate := ps_sinceDate ps; ps_noteId := ps_noteId ps;
     ps_channelId := ps_channelId ps; ps_userIds := ps_userIds ps |}.

(** [a.slice(0, n)] for a count [n] that is not negative. *)
Definition slice {A} (l : list A) (n : Z) : list A := firstn (Z.to_nat n) l.

(** One and a half times the limit, as the integer both paths end up
    using ([slice] truncates, [Math.floor] rounds down). *)
Definition overFetch (ps : PaginationParams) : Z := ps_limit ps * 3 / 2.

(** The loop of the partitioned-store path. *)
Fixpoint scyllaLoop (fuel : nat) (ps : PaginationParams)
    (foundPacked : list Packed) : Outcome (list Packed) :=
  if Z.of_nat (length foundPacked) <? ps_limit ps then
    match fuel with
    | O => OutOfFuel
    | S fuel =>
        match execHome ps with
        | Returned rows =>
            let foundNotes := slice rows (overFetch ps) in
            let foundPacked := foundPacked ++ packMany foundNotes in
            if Z.of_nat (length foundNotes) <? ps_limit ps
            then Returned foundPacked
            else scyllaLoop fuel
                   (setUntilDate ps (default 0 (createdAt <$> last foundNotes)))
                   foundPacked
        | Threw message => Threw message
        | OutOfFuel => OutOfFuel
        end
    end
  else Returned foundPacked.

Definition scyllaPath (fuel : nat) (ps : PaginationParams) : Outcome (list Packed) :=
  match scyllaLoop fuel ps [] with
  | Returned foundPacked => Returned (slice foundPacked (ps_limit ps))
  | Threw message => Threw message
  | OutOfFuel => OutOfFuel
  end.

(** The loop of the relational path. *)
Fixpoint relationalLoop (fuel : nat) (ps : PaginationParams) (skip : Z)
    (found : list Packed) : Outcome (list Packed) :=
  if Z.of_nat (length found) <? ps_limit ps then
    match fuel with
    | O => OutOfFuel
    | S fuel =>
        let take := overFetch ps in
        match getMany take skip with
        | None => Threw "QUERY_ERROR"
        | Some notes =>
            let found := found ++ packMany notes in
            let skip := skip + take in
            if Z.of_nat (length notes) <? take then Returned found
            else relationalLoop fuel ps skip found
        end
    end
  else Returned found.

Definition relationalPath (fuel : nat) (ps : PaginationParams) : Outcome (list Packed) :=
  match relationalLoop fuel ps 0 [] with
  | Returned found =>
      Returned (if ps_limit ps <? Z.of_nat (length found)
                then slice found (ps_limit ps) else found)
  | Threw message => Threw message
  | OutOfFuel => OutOfFuel
  end.

(** The handler, after the caches have been read. *)
Definition timeline (scyllaClient : bool) (fuel : nat) (ps : PaginationParams)
    : Outcome (list Packed) :=
  if scyllaClient then scyllaPath fuel ps else relationalPath fuel ps.

End Endpoint.

(** [take] and [skip] over the rows the relational query selects. *)
Definition pageOf (table : list ScyllaNote) (take skip : Z)
    : option (list ScyllaNote) :=
  Some (firstn (Z.to_nat take) (skipn (Z.to_nat skip) table)).

End Timeline.

(** ** What the specification says, in its own words *)

Module Spec.
Section WordMute.

Variable RE2 : string -> string -> option (string -> bool).
Variable toLowerCase : string -> string.

(** A keyword list matches a text when it has a keyword that is not
    empty and every such keyword occurs in the text, ignoring case:
    keyword and text are compared lower-cased. *)
Definition literalMatches (text : string) (keywords : list string) : Prop :=
  (exists k, In k keywords /\ k <> "")
  /\ forall k, In k keywords -> k <> "" ->
       JS.includes (toLowerCase text) (toLowerCase k) = true.

(** A source [/body/flags] matches a text when the engine compiles the
    body under the flags and the compiled expression accepts the text. *)
Definition regexMatches (text : string) (source : string) : Prop :=
  exists body flags test,
    WordMute.matchRegexSource source = Some (body, flags)
    /\ RE2 body flags = Some test
    /\ test text = true.

Definition patternMatches (text : string) (p : MutePattern) : Prop :=
  match p with
  | Keywords ks => literalMatches text ks
  | RegexSource src => regexMatches text src
  end.

(** Some configured pattern matches. *)
Definition somePatternMatches (text : string) (mutedWords : list MutePattern) : Prop :=
  exists p, In p mutedWords /\ patternMatches text p.

End WordMute.

Section Pagination.

Variable getTimestamp : string -> Z.
Variable now : Z.

(** The upper bound: the timestamp of the id when one is given and the
    clock otherwise, replaced by the explicit timestamp when that is
    given and earlier. *)
Definition untilBound (untilId : option string) (untilDate : option Z) : Z :=
  let decoded :=
    match untilId with
    | Some i => getTimestamp i
    | None => now
    end in
  match untilDate with
  | Some d => Z.min d decoded
  | None => decoded
  end.

(** The lower bound: the later of the id's timestamp and the explicit
    timestamp, the one that is given when only one is, and none when
    neither is. *)
Definition sinceBound (sinceId : option string) (sinceDate : option Z) : option Z :=
  match sinceId, sinceDate with
  | Some i, Some d => Some (Z.max (getTimestamp i) d)
  | Some i, None => Some (getTimestamp i)
  | None, Some d => Some d
  | None, None => None
  end.

End Pagination.

(** What the handler takes as given: an id that is not the empty string,
    a timestamp that is not zero. *)
Definition givenId (s : option string) : option string :=
  match s with
  | Some s => if String.eqb s "" then None else Some s
  | None => None
  end.

Definition givenDate (d : option Z) : option Z :=
  match d with
  | Some d => if d =? 0 then None else Some d
  | None => None
  end.

(** The limit bound to each statement a scan sent, in order. *)
Definition executedLimits (evs : list Event) : list (option Param) :=
  flat_map (fun e => match e with
                     | EvExecute _ params => [last params]
                     | _ => []
                     end) evs.

(** The first value bound to each statement a scan sent, in order. *)
Definition executedTargets (evs : list Event) : list (option Param) :=
  flat_map (fun e => match e with
                     | EvExecute _ params => [head params]
                     | _ => []
                     end) evs.

(** The ids a scan popped off [ps.userIds], in order. *)
Definition poppedIds (evs : list Event) : list string :=
  flat_map (fun e => match e with
                     | EvPop (Some i) => [i]
                     | _ => []
                     end) evs.

(** How many partitions a scan gave up. *)
Definition partitionEnds (evs : list Event) : nat :=
  length (List.filter isPartitionEnd evs).

(** How many of the given creation times lie strictly before a bound. *)
Definition countBelow (times : list Z) (bound : Z) : nat :=
  length (List.filter (fun t => t <? bound) times).

(** What a scan has left to do: partitions within the budget, and rows
    before the cursor. *)
Definition remaining (maxPartitions : Z) (times : list Z)
    (st : Scylla.ScanState) : nat :=
  (Z.to_nat (maxPartitions - Scylla.scannedPartitions st)
   + countBelow times (Scylla.cur_untilDate st))%nat.

(** What the calls of the endpoint have left to walk through: the rows
    created before the cursor, or all of them and the first call when
    there is no cursor yet. *)
Definition stockBelow (stock : list Z) (ps : PaginationParams) : nat :=
  match ps_untilDate ps with
  | Some d => countBelow stock d
  | None => S (length stock)
  end.

(** The ids popped so far are the end of the caller's array, last one
    first, and every statement sent went to one of them. *)
Definition consumedFrom (ids : list string) (st : Scylla.ScanState) : Prop :=
  exists rest,
    Scylla.cur_userIds st = Some rest
    /\ ids = rest ++ rev (poppedIds (Scylla.events st))
    /\ Forall (fun t => exists i, t = Some (PString i)
                                  /\ In i (poppedIds (Scylla.events st)))
              (executedTargets (Scylla.events st)).

(** The creation time the scanner reads off a row of a feed kind. *)
Definition rowTime {Row : Type} (parseScyllaNote : Row -> ScyllaNote)
    (parseScyllaNotification : Row -> ScyllaNotification)
    (parseScyllaReaction : Row -> ScyllaNoteReaction)
    (kind : FeedType) (r : Row) : Z :=
  match kind with
  | feed_notification => notification_createdAt (parseScyllaNotification r)
  | feed_reaction => reaction_createdAt (parseScyllaReaction r)
  | _ => createdAt (parseScyllaNote r)
  end.


End Spec.

(** Rows and requests used in the examples. *)
Module Examples.

Definition fooOnly : ScyllaNote :=
  plainNote "n1" 1000 vis_public "alice" (Some "foo only").

Definition fooBar : ScyllaNote :=
  plainNote "n2" 2000 vis_public "alice" (Some "FOO bar").

(** A pure renote: no text of its own, and nothing denormalised. *)
Definition wordless : ScyllaNote :=
  plainNote "n3" 3000 vis_public "alice" None.

Definition hello : ScyllaNote :=
  plainNote "n4" 4000 vis_public "bob" (Some "hello").

(** A warm membership cache without its freshness marker: the set of
    [u1] holds alice, the source of truth says bob. *)
Definition followCache : SetCache.t := SetCache.new "follow" "u1" ["bob"].

Definition warmUnmarked : Redis.t string :=
  Redis.sadd Redis.empty (SetCache.key followCache) ["alice"].

(** Two keyed caches, the name of one extending the name of the other,
    and a keyspace in which only the longer one has written. *)
Definition userCache : Cache.t := Cache.new "user" 60.
Definition userByIdCache : Cache.t := Cache.new "userById" 60.

Definition onlyUserById : Redis.t string :=
  Cache.set (fun v : string => v) userByIdCache 0 Redis.empty (Some "k") "v".

(** A request for ten rows with no bounds. *)
Definition tenRows : PaginationParams :=
  {| ps_limit := 10; ps_untilId := None; ps_untilDate := None;
     ps_sinceId := None; ps_sinceDate := None; ps_noteId := None;
     ps_channelId := None; ps_userIds := None |}.

(** The same with an explicit lower bound at the epoch. *)
Definition sinceEpoch : PaginationParams :=
  {| ps_limit := 10; ps_untilId := None; ps_untilDate := None;
     ps_sinceId := None; ps_sinceDate := Some 0; ps_noteId := None;
     ps_channelId := None; ps_userIds := None |}.

(** The same for a list of three users. *)
Definition threeUsers : PaginationParams :=
  {| ps_limit := 10; ps_untilId := None; ps_untilDate := None;
     ps_sinceId := None; ps_sinceDate := None; ps_noteId := None;
     ps_channelId := None; ps_userIds := Some ["a"; "b"; "v"] |}.

Definition defaults : ScyllaConfig :=
  {| queryLimit := None; sparseTimelineDays := None |}.

Definition stamp (_ : string) : Z := 0.

Definition day (n : Z) : Z := n * 86400000.

(** On day 10 the feed of [v] holds five rows, all written on day 7. *)
Definition today : Z := day 10 + 5000.

Definition threeDaysAgo : list DayStore.Stored :=
  map (fun i => {| DayStore.feedKey := "v";
                   DayStore.stored :=
                     plainNote "n" (day 7 + 1000 * i) vis_public "a" (Some "x") |})
      [1; 2; 3; 4; 5].

(** A home feed of three notes, scanned without any filter: the notes
    before the cursor, newest first. *)
Definition homeNotes : list ScyllaNote :=
  [plainNote "h3" 3000 vis_public "alice" (Some "three");
   plainNote "h2" 2000 vis_public "alice" (Some "two");
   plainNote "h1" 1000 vis_public "alice" (Some "one")].

Definition scanHome (ps : PaginationParams) : Outcome (list ScyllaNote) :=
  Returned
    (List.filter
       (fun n => match ps_untilDate ps with
                 | Some d => createdAt n <? d
                 | None => true
                 end)
       homeNotes).

(** Two rows asked for. *)
Definition twoRows : PaginationParams :=
  {| ps_limit := 2; ps_untilId := None; ps_untilDate := None;
     ps_sinceId := None; ps_sinceDate := None; ps_noteId := None;
     ps_channelId := None; ps_userIds := None |}.

(** A direct note by alice that lists nobody but mentions the viewer. *)
Definition directMention : ScyllaNote :=
  {| note_id := "n5"; createdAt := 5000; visibility := vis_specified;
     userId := "alice"; userHost := None; text := Some "@me hi"; cw := None;
     files := []; visibleUserIds := []; mentions := ["me"];
     channelId := None; hasPoll := false;
     replyId := None; replyUserId := None; replyUserHost := None;
     replyText := None; replyCw := None; replyFiles := [];
     renoteId := None; renoteUserId := None; renoteUserHost := None;
     renoteText := None; renoteCw := None; renoteFiles := [];
     reply := None; renote := None |}.

(** A followers-only note by alice whose recipient list names the viewer,
    who neither follows alice nor is replied to or mentioned. *)
Definition followersListed : ScyllaNote :=
  {| note_id := "n6"; createdAt := 6000; visibility := vis_followers;
     userId := "alice"; userHost := None; text := Some "hi"; cw := None;
     files := []; visibleUserIds := ["me"]; mentions := [];
     channelId := None; hasPoll := false;
     replyId := None; replyUserId := None; replyUserHost := None;
     replyText := None; replyCw := None; replyFiles := [];
     renoteId := None; renoteUserId := None; renoteUserHost := None;
     renoteText := None; renoteCw := None; renoteFiles := [];
     reply := None; renote := None |}.

End Examples.

(** ** The other feed filters of [db/scylla.ts] *)

Module Feed.

(** [list.includes(x)] for an [x] that may be [null]. *)
Definition includesOpt (l : list string) (x : option string) : bool :=
  match x with
  | Some x => JS.arrayIncludes l x
  | None => false
  end.

Definition filterChannel (notes : list ScyllaNote) (user : option string)
    (followingIds : list string) : list ScyllaNote :=
  match user with
  | None =>
      List.filter (fun note => negb (JS.truthy_string (channelId note))) notes
  | Some _ =>
      let channelNotes :=
        List.filter (fun note => JS.truthy_string (channelId note)) notes in
      if (0 <? length channelNotes)%nat then
        List.filter
          (fun note => negb (JS.truthy_string (channelId note))
                       || includesOpt followingIds (channelId note))
          notes
      else notes
  end.

Definition filterReply (notes : list ScyllaNote) (withReplies : bool)
    (user : option string) : list ScyllaNote :=
  match user with
  | None =>
      List.filter
        (fun note => negb (JS.truthy_string (replyId note))
                     || JS.strictEqOpt (replyUserId note) (userId note))
        notes
  | Some me =>
      if negb withReplies then
        List.filter
          (fun note => negb (JS.truthy_string (replyId note))
                       || JS.strictEqOpt (replyUserId note) me
                       || String.eqb (userId note) me
                       || JS.strictEqOpt (replyUserId note) (userId note))
          notes
      else notes
  end.

(** [x && list.includes(x)], read as a condition. *)
Definition knownIn (l : list string) (x : option string) : bool :=
  JS.truthy_string x && includesOpt l x.

Definition filterMutedUser (notes : list ScyllaNote) (mutedIds : list string)
    (mutedInstances : list string) (exclude : option string)
    : list ScyllaNote :=
  let userIds :=
    match exclude with
    | Some excluded => List.filter (fun id => negb (String.eqb id excluded)) mutedIds
    | None => mutedIds
    end in
  List.filter
    (fun note =>
       negb (JS.arrayIncludes userIds (userId note))
       && negb (knownIn userIds (replyUserId note))
       && negb (knownIn userIds (renoteUserId note))
       && negb (knownIn mutedInstances (userHost note))
       && negb (knownIn mutedInstances (replyUserHost note))
       && negb (knownIn mutedInstances (renoteUserHost note)))
    notes.

Definition filterBlockUser (notes : list ScyllaNote) (blockIds : list string)
    : list ScyllaNote :=
  List.filter
    (fun note =>
       negb (JS.arrayIncludes blockIds (userId note))
       && negb (knownIn blockIds (replyUserId note))
       && negb (knownIn blockIds (renoteUserId note)))
    notes.

Definition filterMutedRenotes (notes : list ScyllaNote) (muteeIds : list string)
    : list ScyllaNote :=
  List.filter
    (fun note =>
       JS.truthy_string (text note)
       || negb (JS.truthy_string (renoteId note))
       || negb (JS.arrayIncludes muteeIds (userId note)))
    notes.

End Feed.

(** ** Attachment URLs ([getScyllaDrivePublicUrl] of [db/scylla.ts]) *)

Module Drive.

(** The columns of a [ScyllaDriveFile] that the function reads. *)
Record FileUrls := {
  type : string;
  url : string;
  thumbnailUrl : option string
}.

Definition imageTypes : list string :=
  ["image/png"; "image/apng"; "image/gif"; "image/jpeg"; "image/webp";
   "image/svg+xml"; "image/avif"].

Definition getScyllaDrivePublicUrl (file : FileUrls) (thumbnail : bool)
    : option string :=
  let isImage :=
    JS.truthy_string (Some (type file)) && JS.arrayIncludes imageTypes (type file) in
  if thumbnail then
    if JS.truthy_string (thumbnailUrl file) then thumbnailUrl file
    else if isImage then Some (url file) else None
  else Some (url file).

End Drive.

(** ** Polls ([populatePoll] of the note repository) *)

Module Poll.

(** [ScyllaPoll]; [choices] are the entries of the [choices] object in the
    order [Object.entries] gives them, each index as the integer its key
    spells. *)
Record ScyllaPoll := {
  expiresAt : option Z;
  multiple : bool;
  choices : list (Z * string)
}.

(** The columns of a [ScyllaPollVote] that are read. *)
Record ScyllaPollVote := {
  vote_userId : string;
  vote_choice : gset Z
}.

(** A row of the relational [poll] table. *)
Record PollRow := {
  row_choices : list string;
  row_votes : list Z;
  row_multiple : bool;
  row_expiresAt : option Z
}.

(** An entry of the returned [choices]; [votes] is [None] where the
    code reads past the end of an array. *)
Record Choice := {
  choice_text : string;
  votes : option Z;
  isVoted : bool
}.

Record Populated := {
  populated_multiple : bool;
  populated_expiresAt : option Z;
  populated_choices : list Choice
}.

(** [a === b] between a string and a string that may be [null]. *)
Definition sameUser (a : string) (b : option string) : bool :=
  match b with
  | Some b => String.eqb a b
  | None => false
  end.

(** The body of the inner loop: one more vote for a choice the poll has. *)
Definition bump (counts : gmap Z Z) (choice : Z) : gmap Z Z :=
  match counts !! choice with
  | Some count => <[choice := count + 1]> counts
  | None => counts
  end.

(** The two nested loops over the votes and the choices of each. *)
Definition tally (votes : list ScyllaPollVote) (counts : gmap Z Z) : gmap Z Z :=
  foldl (fun counts vote => foldl bump counts (elements (vote_choice vote)))
        counts votes.

(** [new Map(Object.keys(choices).map((i) => [i, 0]))]. *)
Definition zeroCounts (poll : ScyllaPoll) : gmap Z Z :=
  foldl (fun counts entry => <[fst entry := 0]> counts) ∅ (choices poll).

Definition scyllaChoices (poll : ScyllaPoll) (pollVotes : list ScyllaPollVote)
    (meId : option string) : list Choice :=
  let counts := tally pollVotes (zeroCounts poll) in
  flat_map
    (fun entry =>
       match counts !! fst entry with
       | Some count =>
           [{| choice_text := snd entry;
               votes := Some count;
               isVoted :=
                 existsb (fun v => sameUser (vote_userId v) meId
                                   && bool_decide (fst entry ∈ vote_choice v))
                         pollVotes |}]
       | None => []
       end)
    (choices poll).

(** [Array.prototype.indexOf], [-1] when there is no such element. *)
Fixpoint indexOf (l : list string) (c : string) : Z :=
  match l with
  | [] => -1
  | x :: rest =>
      if String.eqb x c then 0
      else let i := indexOf rest c in if i <? 0 then -1 else i + 1
  end.

(** [a[i]] for an integer [i]: [undefined] outside the array. *)
Definition at_ {A} (a : list A) (i : Z) : option A :=
  if i <? 0 then None else a !! Z.to_nat i.

(** [choices[myChoice].isVoted = true]: a [TypeError] when there is no
    such entry. *)
Definition markVoted (cs : list Choice) (myChoice : Z) : Outcome (list Choice) :=
  match at_ cs myChoice with
  | Some c =>
      Returned (<[Z.to_nat myChoice :=
                    {| choice_text := choice_text c; votes := votes c;
                       isVoted := true |}]> cs)
  | None => Threw "TypeError"
  end.

Fixpoint markAll (cs : list Choice) (myChoices : list Z) : Outcome (list Choice) :=
  match myChoices with
  | [] => Returned cs
  | myChoice :: rest =>
      match markVoted cs myChoice with
      | Returned cs => markAll cs rest
      | other => other
      end
  end.

Section PopulatePoll.

(** Whether the wide-column store is configured, and the reads the
    function makes: the parsed rows of [prepared.poll.select] for a note
    ([None] when the driver rejects), [Polls.findOneByOrFail], and the
    [choice] column of what [PollVotes.findBy] and [PollVotes.findOneBy]
    find for a user and a note. *)
Variable scyllaClient : bool.
Variable selectVotes : string -> option (list ScyllaPollVote).
Variable findPoll : string -> option PollRow.
Variable findVotes : string -> string -> list Z.
Variable findOneVote : string -> string -> option Z.

(** [populatePoll(note, meId)], given the note's id and its [poll]
    column. *)
Definition populatePoll (noteId : string) (poll : option ScyllaPoll)
    (meId : option string) : Outcome Populated :=
  if scyllaClient then
    match poll with
    | Some poll =>
        match selectVotes noteId with
        | Some pollVotes =>
            Returned {| populated_multiple := multiple poll;
                        populated_expiresAt := expiresAt poll;
                        populated_choices := scyllaChoices poll pollVotes meId |}
        | None => Threw "QueryError"
        end
    | None => Threw "poll not found"
    end
  else
    match findPoll noteId with
    | None => Threw "EntityNotFoundError"
    | Some poll =>
        let cs :=
          map (fun c => {| choice_text := c;
                           votes := at_ (row_votes poll) (indexOf (row_choices poll) c);
                           isVoted := false |})
              (row_choices poll) in
        let marked :=
          if JS.truthy_string meId then
            let me := default "" meId in
            if row_multiple poll then markAll cs (findVotes me noteId)
            else
              match findOneVote me noteId with
              | Some choice => markVoted cs choice
              | None => Returned cs
              end
          else Returned cs in
        match marked with
        | Returned cs =>
            Returned {| populated_multiple := row_multiple poll;
                        populated_expiresAt := row_expiresAt poll;
                        populated_choices := cs |}
        | Threw message => Threw message
        | OutOfFuel => OutOfFuel
        end
    end.

End PopulatePoll.
End Poll.

(** ** Row counts ([fetchPostCount] and [fetchReactionCount] of
       [db/scylla.ts]) *)

Module Counts.
Section Counting.

(** The serialisation of a number, whether the wide-column store is
    configured, and what each [SELECT COUNT] returns. *)
Context {V : Type}.
Variable encode : Z -> V.
Variable decode : V -> Z.
Variable scyllaClient : bool.

Definition localPostCountCache : Cache.t := Cache.new "localPostCount" (1000 * 60 * 60).
Definition allPostCountCache : Cache.t := Cache.new "allPostCount" (1000 * 60 * 60).
Definition reactionCountCache : Cache.t := Cache.new "reactionCount" (1000 * 60 * 60).

Definition fetchPostCount (localCount allCount : Z) (now : Z) (st : Redis.t V)
    (local : bool) : Outcome Z * Redis.t V :=
  if negb scyllaClient then (Threw "ScyllaDB is disabled", st)
  else if local then
    let '(n, st) :=
      Cache.fetch encode decode localPostCountCache now st None localCount false None in
    (Returned n, st)
  else
    let '(n, st) :=
      Cache.fetch encode decode allPostCountCache now st None allCount false None in
    (Returned n, st).

Definition fetchReactionCount (reactionCount : Z) (now : Z) (st : Redis.t V)
    : Outcome Z * Redis.t V :=
  if negb scyllaClient then (Threw "ScyllaDB is disabled", st)
  else
    let '(n, st) :=
      Cache.fetch encode decode reactionCountCache now st None reactionCount false None in
    (Returned n, st).

End Counting.
End Counts.

(** ** Conditions on the parts a scan is given *)

(** Filters that return no more rows than they are given. *)
Definition filtersShorten (filter : Filters) : Prop :=
  (forall f l, filter_note filter = Some f -> (length (f l) <= length l)%nat)
  /\ (forall f l, filter_reaction filter = Some f -> (length (f l) <= length l)%nat)
  /\ (forall f l, filter_notification filter = Some f -> (length (f l) <= length l)%nat).

(** ** Signing in ([server/api/private/signin.ts]) *)

Module Signin.

(** What the handler tells apart about a field of the request body: a
    string, [null] or [undefined], or anything else. *)
Inductive Field :=
| FString (s : string)
| FNullish
| FOther.

(** [typeof x === "string"]. *)
Definition isString (x : Field) : bool :=
  match x with FString _ => true | _ => false end.

(** [ToBoolean] of a field that is a string or nullish. *)
Definition truthy (x : Field) : bool :=
  match x with
  | FString s => negb (String.eqb s "")
  | FNullish => false
  | FOther => true
  end.

Definition stringOf (x : Field) : string :=
  match x with FString s => s | _ => "" end.

Record User := { id : string; isSuspended : bool }.

Record Profile := {
  password : option string;
  twoFactorEnabled : bool;
  twoFactorSecret : option string;
  usePasswordLessLogin : bool
}.

Record Challenge := { challenge : string; challenge_createdAt : Z }.

(** What the handler does that is visible from outside, in order:
    [ctx.status] is set from the [ApiError] of a code (with the
    [WWW-Authenticate] header when that status is 401); a row of the
    sign-in history is inserted; [signin(ctx, user)] is called; the
    attestation challenges of a user are deleted; one is inserted; the
    body of the response is set together with a status; an exception
    leaves the handler, raised by the expression named. *)
Inductive Effect :=
| SetStatus (code : string)
| InsertSignin (userId : string) (success : bool)
| SignIn (userId : string)
| DeleteChallenge (userId : string)
| InsertChallenge (userId : string)
| Respond (status : Z)
| Throws (expression : string).

Section Handler.

(** The request and what the handler reads and calls: whether the rate
    limiter rejects; the fields of the body; the builtin
    [String.prototype.toLowerCase]; the user and profile lookups;
    [bcrypt.compare]; the TOTP check; whether [body.credentialId] is
    truthy; the parsed client data ([None] when decoding or parsing it
    throws); the challenge found for the user; the clock; the security
    key found for the credential (the outer [None] when decoding the
    credential id throws); [verifyLogin] ([None] when building its
    arguments throws); and the number of security keys the user has. *)
Variable rateLimited : bool.
Variable username password token : Field.
Variable toLowerCase : string -> string.
Variable findUser : string -> option User.
Variable findProfile : string -> option Profile.
Variable compare : string -> option string -> bool.
Variable totpVerify : option string -> string -> bool.
Variable credentialId : bool.
Variable clientData : option string.
Variable findChallenge : string -> string -> option Challenge.
Variable now : Z.
Variable findSecurityKey : option (option string).
Variable verifyLogin : string -> string -> string -> option bool.
Variable securityKeys : string -> nat.

(** The inner [error]: it sets the status of the response and then
    builds the body, whose last property reads [endpoint.name].  No
    [endpoint] is declared or imported in the module, so evaluating the
    name throws a ReferenceError before [ctx.body] is assigned, and the
    exception leaves [error] and the handler. *)
Definition error (code : string) : list Effect :=
  [SetStatus code; Throws "endpoint.name"].

(** The inner [fail]: the attempt is recorded, then [error] is called. *)
Definition fail (user : User) : list Effect :=
  InsertSignin (id user) false :: error "ACCESS_DENIED".

(** The branch for a security-key assertion. *)
Definition assertion (user : User) (profile : Profile) (same : bool)
    : list Effect :=
  if negb same && negb (usePasswordLessLogin profile) then fail user
  else
    match clientData with
    | None => [Throws "JSON.parse"]
    | Some clientChallenge =>
        match findChallenge (id user) clientChallenge with
        | None => fail user
        | Some found =>
            DeleteChallenge (id user)
            :: if 5 * 60 * 1000 <=? now - challenge_createdAt found then fail user
               else
                 match findSecurityKey with
                 | None => [Throws "Buffer.from"]
                 | Some None => fail user
                 | Some (Some publicKey) =>
                     match verifyLogin publicKey clientChallenge (challenge found) with
                     | None => [Throws "Buffer.from"]
                     | Some isValid =>
                         if isValid then [SignIn (id user)] else fail user
                     end
                 end
        end
    end.

(** The branch that starts a security-key login. *)
Definition startAssertion (user : User) (profile : Profile) (same : bool)
    : list Effect :=
  if negb same && negb (usePasswordLessLogin profile) then fail user
  else if (securityKeys (id user) =? 0)%nat then fail user
  else [InsertChallenge (id user); Respond 200].

Definition handler : list Effect :=
  if rateLimited then error "RATE_LIMIT_EXCEEDED"
  else if negb (isString username) then error "INVALID_PARAM"
  else if negb (isString password) then error "INVALID_PARAM"
  else if match token with FNullish => false | _ => negb (isString token) end
  then error "INVALID_PARAM"
  else
    match findUser (toLowerCase (stringOf username)) with
    | None => error "NO_SUCH_USER"
    | Some user =>
        if isSuspended user then error "SUSPENDED"
        else
          match findProfile (id user) with
          | None => [Throws "findOneByOrFail"]
          | Some profile =>
              let same := compare (stringOf password) (Signin.password profile) in
              if negb (twoFactorEnabled profile) then
                if same then [SignIn (id user)] else fail user
              else if truthy token then
                if negb same then fail user
                else if totpVerify (twoFactorSecret profile) (stringOf token)
                     then [SignIn (id user)]
                     else fail user
              else if credentialId then assertion user profile same
              else startAssertion user profile same
          end
    end.

End Handler.
End Signin.

(** ** The feed filters under an untyped call

    The declared parameter types of [db/scylla.ts] do not constrain what
    a caller passes at run time.  The three filters that the home
    timeline calls with the viewer in second place are read here on the
    values that can arrive there. *)

Module Untyped.

(** What arrives where an array of ids is declared: an array of
    strings, or a user object. *)
Inductive Value :=
| Strings (l : list string)
| UserObject (id : string).

Definition bind {A B} (o : Outcome A) (k : A -> Outcome B) : Outcome B :=
  match o with
  | Returned a => k a
  | Threw message => Threw message
  | OutOfFuel => OutOfFuel
  end.

(** [v.includes(x)]: a user object has no such method, and calling
    [undefined] throws. *)
Definition includes (v : Value) (x : string) : Outcome bool :=
  match v with
  | Strings l => Returned (JS.arrayIncludes l x)
  | UserObject _ => Threw "TypeError"
  end.

(** [v.filter(keep)], likewise. *)
Definition filterOf (v : Value) (keep : string -> bool) : Outcome Value :=
  match v with
  | Strings l => Returned (Strings (List.filter keep l))
  | UserObject _ => Threw "TypeError"
  end.

(** [v.id]: [undefined] on an array. *)
Definition idOf (v : Value) : option string :=
  match v with
  | UserObject id => Some id
  | Strings _ => None
  end.

(** [!a], [a && b] and [a || b], the right operand being evaluated only
    when the left one does not decide. *)
Definition negate (a : Outcome bool) : Outcome bool :=
  bind a (fun x => Returned (negb x)).

Definition andAlso (a b : Outcome bool) : Outcome bool :=
  bind a (fun x => if x then b else Returned false).

Definition orElse (a b : Outcome bool) : Outcome bool :=
  bind a (fun x => if x then Returned true else b).

(** [x && v.includes(x)], read as a condition. *)
Definition knownIn (v : Value) (x : option string) : Outcome bool :=
  match x with
  | Some s => if negb (String.eqb s "") then includes v s else Returned false
  | None => Returned false
  end.

(** [Array.prototype.filter] with a callback that may throw. *)
Fixpoint filterWith {A} (keep : A -> Outcome bool) (l : list A)
    : Outcome (list A) :=
  match l with
  | [] => Returned []
  | x :: rest =>
      bind (keep x) (fun kept =>
      bind (filterWith keep rest) (fun others =>
      Returned (if kept then x :: others else others)))
  end.

(** [exclude], when given, is an object and so truthy. *)
Definition filterMutedUser (notes : list ScyllaNote)
    (mutedIds mutedInstances : Value) (exclude : option Value)
    : Outcome (list ScyllaNote) :=
  bind
    match exclude with
    | Some excluded =>
        filterOf mutedIds (fun id => negb (JS.strictEqOpt (idOf excluded) id))
    | None => Returned mutedIds
    end
    (fun userIds =>
       filterWith
         (fun note =>
            andAlso (negate (includes userIds (userId note)))
           (andAlso (negate (knownIn userIds (replyUserId note)))
           (andAlso (negate (knownIn userIds (renoteUserId note)))
           (andAlso (negate (knownIn mutedInstances (userHost note)))
           (andAlso (negate (knownIn mutedInstances (replyUserHost note)))
                    (negate (knownIn mutedInstances (renoteUserHost note))))))))
         notes).

Definition filterBlockUser (notes : list ScyllaNote) (blockIds : Value)
    : Outcome (list ScyllaNote) :=
  filterWith
    (fun note =>
       andAlso (negate (includes blockIds (userId note)))
      (andAlso (negate (knownIn blockIds (replyUserId note)))
               (negate (knownIn blockIds (renoteUserId note)))))
    notes.

Definition filterMutedRenotes (notes : list ScyllaNote) (muteeIds : Value)
    : Outcome (list ScyllaNote) :=
  filterWith
    (fun note =>
       orElse (Returned (JS.truthy_string (text note)))
      (orElse (Returned (negb (JS.truthy_string (renoteId note))))
              (negate (includes muteeIds (userId note)))))
    notes.

End Untyped.

(** ** The filter chain of the home timeline
       ([endpoints/notes/timeline.ts]) *)

Module HomeFilter.
Section Chain.

(** The regular-expression engine and the string builtins behind the
    word mutes. *)
Variable RE2 : string -> string -> option (string -> bool).
Variable trim : string -> string.
Variable toLowerCase : string -> string.

(** The request flags the chain reads. *)
Record Flags := {
  withReplies : bool;
  includeMyRenotes : bool;
  includeRenotedMyNotes : bool;
  includeLocalRenotes : bool;
  withFiles : bool
}.

(** What the handler has read from the caches before it builds the
    chain. *)
Record Lists := {
  followingChannelIds : list string;
  followingUserIds : list string;
  mutedUserIds : list string;
  mutedInstances : list string;
  mutedWords : list MutePattern;
  blockerIds : list string;
  blockingIds : list string;
  renoteMutedIds : list string
}.

(** A note that is more than a bare renote. *)
Definition optFilter (n : ScyllaNote) : bool :=
  negb (JS.truthy_string (renoteId n))
  || JS.truthy_string (text n)
  || (0 <? length (files n))%nat
  || hasPoll n.

(** The chain, each stage called with the arguments the endpoint
    writes: [filterMutedUser(filtered, user, mutedUserIds,
    mutedInstances)] binds the viewer to [mutedIds], the muted user ids
    to [mutedInstances] and the muted instances to [exclude];
    [filterBlockUser(filtered, user, ids)] and
    [filterMutedRenotes(filtered, user, ids)] bind the viewer to the
    array of ids, the third argument being ignored.  The chain is an
    [async] function: what it throws rejects its promise. *)
Definition filter (ps : Flags) (user : string) (c : Lists)
    (notes : list ScyllaNote) : Outcome (list ScyllaNote) :=
  let validUserIds := user :: followingUserIds c in
  let filtered :=
    List.filter (fun n => JS.arrayIncludes validUserIds (userId n)) notes in
  let filtered := Feed.filterChannel filtered (Some user) (followingChannelIds c) in
  let filtered := Feed.filterReply filtered (withReplies ps) (Some user) in
  let filtered :=
    Visibility.filterVisibility filtered (Some user) (followingUserIds c) in
  Untyped.bind
    (Untyped.filterMutedUser filtered (Untyped.UserObject user)
       (Untyped.Strings (mutedUserIds c))
       (Some (Untyped.Strings (mutedInstances c))))
    (fun filtered =>
  let filtered :=
    WordMute.filterMutedNote true RE2 trim toLowerCase filtered user
      (mutedWords c) in
  Untyped.bind (Untyped.filterBlockUser filtered (Untyped.UserObject user))
    (fun filtered =>
  Untyped.bind (Untyped.filterMutedRenotes filtered (Untyped.UserObject user))
    (fun filtered =>
  let filtered :=
    if negb (includeMyRenotes ps)
    then List.filter (fun n => negb (String.eqb (userId n) user) || optFilter n)
           filtered
    else filtered in
  let filtered :=
    if negb (includeRenotedMyNotes ps)
    then List.filter
           (fun n => negb (JS.strictEqOpt (renoteUserId n) user) || optFilter n)
           filtered
    else filtered in
  let filtered :=
    if negb (includeLocalRenotes ps)
    then List.filter
           (fun n => JS.truthy_string (renoteUserHost n) || optFilter n) filtered
    else filtered in
  let filtered :=
    if withFiles ps
    then List.filter (fun n => (0 <? length (files n))%nat) filtered
    else filtered in
  Returned
    (List.filter (fun n => negb (Visibility_eqb (visibility n) vis_hidden))
       filtered)))).

End Chain.
End HomeFilter.

(** ** Local time ([Date.prototype.setHours]) *)

Module LocalTime.
Section Zone.

(** The time zone of the host as the language reads it: the offset of
    local time from UTC, in milliseconds, at a UTC time value, and the
    offset under which a local time value is read back as UTC. *)
Variable offsetAt : Z -> Z.
Variable offsetOfLocal : Z -> Z.

(** The local time value of the day of [t] at the given time of day. *)
Definition localDate (t hour min sec ms : Z) : Z :=
  let local := t + offsetAt t in
  local / Scylla.msPerDay * Scylla.msPerDay
  + (hour * 3600000 + min * 60000 + sec * 1000 + ms).

(** [date.setHours(hour, min, sec, ms)] on the time value [t]. *)
Definition setHours (t hour min sec ms : Z) : Z :=
  let date := localDate t hour min sec ms in
  date - offsetOfLocal date.

(** [const yesterday = new Date(untilDate.getTime() - 86400000);
    yesterday.setHours(23, 59, 59, 990)]. *)
Definition endOfYesterday (until : Z) : Z :=
  let yesterday := until - Scylla.msPerDay in
  setHours yesterday 23 59 59 990.

End Zone.
End LocalTime.

(** ** The viewer's reactions for a batch of notes (the hint of
       [packMany] and [populateMyReaction] of the note repository) *)

Module Pack.

(** The columns of a [NoteReaction] that are read. *)
Record NoteReaction := {
  noteId : string;
  reaction : string
}.

(** [Map<Note["id"], NoteReaction | null>]: an id that is absent reads
    as [undefined], an id mapped to [None] as [null]. *)
Definition Hint := gmap string (option NoteReaction).

Section Packing.

(** Whether the wide-column store is configured;
    [convertLegacyReaction]; the first row of
    [prepared.reaction.select.byNoteAndUser] for one note and
    [NoteReactions.findOneBy], by note and user; the rows of the same
    statement for many notes and [NoteReactions.findBy], by targets and
    user. *)
Variable scyllaClient : bool.
Variable convertLegacyReaction : string -> string.
Variable selectOne : string -> string -> option NoteReaction.
Variable findOneBy : string -> string -> option NoteReaction.
Variable selectMany : list string -> string -> list NoteReaction.
Variable findBy : list string -> string -> list NoteReaction.

(** [populateMyReaction(note, meId, _hint_)]: the viewer's reaction, and
    whether the store was asked for it. *)
Definition populateMyReaction (note : string) (meId : string)
    (_hint_ : option Hint) : option string * bool :=
  let fromStore :=
    let reaction := if scyllaClient then selectOne note meId else findOneBy note meId in
    (convertLegacyReaction <$> (Pack.reaction <$> reaction), true) in
  match _hint_ with
  | Some myReactions =>
      match myReactions !! note with
      | Some (Some reaction) =>
          (Some (convertLegacyReaction (Pack.reaction reaction)), false)
      | Some None => (None, false)
      | None => fromStore
      end
  | None => fromStore
  end.

(** The ids the hint is built for: every note of the batch, then every
    note that one of them renotes. *)
Definition targets (notes : list ScyllaNote) : list string :=
  let renoteIds :=
    map (fun n => default "" (renoteId n))
        (List.filter (fun n => JS.truthy_string (renoteId n)) notes) in
  map note_id notes ++ renoteIds.

(** The loop of [packMany] that fills the hint. *)
Definition fillHint (myReactions : list NoteReaction) (ids : list string) : Hint :=
  foldl (fun (m : Hint) target =>
           <[target := List.find (fun r => String.eqb (noteId r) target) myReactions]> m)
        ∅ ids.

(** The hint that [packMany] hands to every [pack] of the batch. *)
Definition myReactionsMap (notes : list ScyllaNote) (me : option string) : Hint :=
  if JS.truthy_string me then
    let meId := default "" me in
    let myReactions :=
      if scyllaClient then selectMany (targets notes) meId
      else findBy (targets notes) meId in
    fillHint myReactions (targets notes)
  else ∅.

End Packing.
End Pack.

(** ** Marking notifications as read
       ([server/api/common/read-notification.ts]) *)

Module ReadNotification.

(** A row of the relational notification table: the columns the module
    itself reads, and the rest of the row. *)
Record Notification := {
  id : string;
  notifieeId : string;
  isRead : bool;
  rest : gmap string string
}.

Definition markRead (n : Notification) : Notification :=
  {| id := id n; notifieeId := notifieeId n; isRead := true; rest := rest n |}.

(** What is sent to the user's main stream and to their push
    subscriptions. *)
Inductive Event :=
| Publish (userId : string) (type : string) (notificationIds : option (list string))
| Push (userId : string) (type : string) (notificationIds : option (list string)).

Section Reading.

(** Whether the wide-column store is configured, and
    [Users.getHasUnreadNotification] as a function of the user and the
    table. *)
Variable scyllaClient : bool.
Variable getHasUnreadNotification : string -> list Notification -> bool.

Definition postReadAllNotifications (userId : string) : list Event :=
  [Publish userId "readAllNotifications" None;
   Push userId "readAllNotifications" None].

Definition postReadNotifications (userId : string) (notificationIds : list string)
    : list Event :=
  [Publish userId "readNotifications" (Some notificationIds);
   Push userId "readNotifications" (Some notificationIds)].

(** The rows that [Notifications.update] selects. *)
Definition selected (userId : string) (notificationIds : list string)
    (n : Notification) : bool :=
  String.eqb (notifieeId n) userId
  && JS.arrayIncludes notificationIds (id n)
  && Bool.eqb (isRead n) false.

Definition readNotification (userId : string) (notificationIds : list string)
    (table : list Notification) : list Notification * list Event :=
  if (length notificationIds =? 0)%nat || scyllaClient then (table, [])
  else
    let affected := length (List.filter (selected userId notificationIds) table) in
    let table :=
      map (fun n => if selected userId notificationIds n then markRead n else n)
          table in
    if (affected =? 0)%nat then (table, [])
    else if negb (getHasUnreadNotification userId table)
         then (table, postReadAllNotifications userId)
         else (table, postReadNotifications userId notificationIds).

(** [readNotificationByQuery]; [query] stands for the conditions of the
    caller's query object on the columns other than [notifieeId] and
    [isRead], which the function overrides. *)
Definition readNotificationByQuery (userId : string)
    (query : Notification -> bool) (table : list Notification)
    : list Notification * list Event :=
  if scyllaClient then (table, [])
  else
    let notificationIds :=
      map id
          (List.filter
             (fun n => query n && String.eqb (notifieeId n) userId
                       && Bool.eqb (isRead n) false)
             table) in
    readNotification userId notificationIds table.

End Reading.
End ReadNotification.

(** Polls, files and caches used in the examples. *)
Module Samples.

(** A poll with two choices and two votes on it: the viewer's for both
    choices, bob's for the second and for an index the poll does not
    have. *)
Definition lunchPoll : Poll.ScyllaPoll :=
  {| Poll.expiresAt := None; Poll.multiple := true;
     Poll.choices := [(0, "soup"); (1, "salad")] |}.

Definition lunchVotes : list Poll.ScyllaPollVote :=
  [{| Poll.vote_userId := "me"; Poll.vote_choice := {[0; 1]} |};
   {| Poll.vote_userId := "bob"; Poll.vote_choice := {[1; 7]} |}].

(** The same poll as a relational row, with three and five votes. *)
Definition lunchRow : Poll.PollRow :=
  {| Poll.row_choices := ["soup"; "salad"]; Poll.row_votes := [3; 5];
     Poll.row_multiple := true; Poll.row_expiresAt := None |}.

(** Two unread notifications of [u] and one of [w]. *)
Definition inbox : list ReadNotification.Notification :=
  [{| ReadNotification.id := "a"; ReadNotification.notifieeId := "u";
      ReadNotification.isRead := false; ReadNotification.rest := ∅ |};
   {| ReadNotification.id := "b"; ReadNotification.notifieeId := "w";
      ReadNotification.isRead := false; ReadNotification.rest := ∅ |};
   {| ReadNotification.id := "c"; ReadNotification.notifieeId := "u";
      ReadNotification.isRead := false; ReadNotification.rest := ∅ |}].

(** New York around the end of daylight saving time in 2023: the
    offset changes from four to five hours behind UTC at
    2023-11-05T06:00:00Z, and a local time is read with the later
    offset from 02:00 of that day on. *)
Definition newYorkOffsetAt (t : Z) : Z :=
  if t <? 1699164000000 then - 14400000 else - 18000000.

Definition newYorkOffsetOfLocal (local : Z) : Z :=
  if local <? 1699149600000 then - 14400000 else - 18000000.

End Samples.

(** * Properties *)

(** ** Word mutes *)

Section WordMuteFacts.

Variable scyllaClient : bool.
Variable RE2 : string -> string -> option (string -> bool).
Variable toLowerCase : string -> string.

Local Abbreviation regexMatches := (Spec.regexMatches RE2).
Local Abbreviation patternMatches := (Spec.patternMatches RE2 toLowerCase).
Local Abbreviation somePatternMatches := (Spec.somePatternMatches RE2 toLowerCase).
Local Abbreviation literalMatches := (Spec.literalMatches toLowerCase).

Lemma keywordsMatch_iff text ks :
  WordMute.keywordsMatch toLowerCase text ks = true <-> literalMatches text ks.
Proof.
  unfold WordMute.keywordsMatch, Spec.literalMatches.
  rewrite andb_true_iff, forallb_forall, Nat.ltb_lt.
  split.
  - intros [Hlen Hall]. split.
    + destruct (List.filter _ ks) as [|k rest] eqn:E; [simpl in Hlen; lia|].
      assert (Hin : In k (List.filter (fun keyword => negb (String.eqb keyword "")) ks))
        by (rewrite E; left; reflexivity).
      apply filter_In in Hin as [Hin Hne].
      exists k. split; [exact Hin|].
      intros ->. discriminate Hne.
    + intros k Hin Hne. apply Hall. apply filter_In. split; [exact Hin|].
      apply negb_true_iff. apply String.eqb_neq. exact Hne.
  - intros [[k [Hin Hne]] Hall]. split.
    + assert (Hk : In k (List.filter (fun keyword => negb (String.eqb keyword "")) ks)).
      { apply filter_In. split; [exact Hin|].
        apply negb_true_iff. apply String.eqb_neq. exact Hne. }
      destruct (List.filter _ ks); [destruct Hk | simpl; lia].
    + intros k' Hk'. apply filter_In in Hk' as [Hin' Hne'].
      apply Hall; [exact Hin'|].
      apply negb_true_iff in Hne'. apply String.eqb_neq in Hne'. exact Hne'.
Qed.

Lemma regexMatch_iff text src :
  WordMute.regexMatch RE2 text src = true <-> regexMatches text src.
Proof.
  unfold WordMute.regexMatch, Spec.regexMatches. split.
  - destruct (WordMute.matchRegexSource src) as [[body flags]|]; [|discriminate].
    destruct (RE2 body flags) as [test|] eqn:E; [|discriminate].
    intros H. exists body, flags, test. auto.
  - intros (body & flags & test & -> & -> & H). exact H.
Qed.

Lemma patternMatch_iff text p :
  WordMute.patternMatch RE2 toLowerCase text p = true <-> patternMatches text p.
Proof.
  destruct p; simpl; [apply keywordsMatch_iff | apply regexMatch_iff].
Qed.

Lemma scanPatterns_iff text mutedWords :
  WordMute.scanPatterns RE2 toLowerCase text mutedWords = true
  <-> somePatternMatches text mutedWords.
Proof.
  unfold Spec.somePatternMatches.
  induction mutedWords as [|p rest IH]; simpl.
  - split; [discriminate | intros (p & [] & _)].
  - destruct (WordMute.patternMatch RE2 toLowerCase text p) eqn:E.
    + split; [|reflexivity]. intros _. exists p. split; [left; reflexivity|].
      apply patternMatch_iff. exact E.
    + rewrite IH. split.
      * intros (q & Hin & Hq). exists q. split; [right; exact Hin | exact Hq].
      * intros (q & [<- | Hin] & Hq).
        -- apply patternMatch_iff in Hq. congruence.
        -- exists q. split; assumption.
Qed.

(** A malformed source never matches: neither one the anchored
    expression rejects, nor one the engine refuses to compile. *)
Lemma regexMatch_malformed text src :
  (WordMute.matchRegexSource src = None
   \/ exists body flags,
        WordMute.matchRegexSource src = Some (body, flags)
        /\ RE2 body flags = None) ->
  WordMute.regexMatch RE2 text src = false.
Proof.
  unfold WordMute.regexMatch.
  intros [-> | (body & flags & -> & ->)]; reflexivity.
Qed.

End WordMuteFacts.

(** C9, as stated, fails on a row without text: the configured pattern
    dot-star matches the empty text, yet the check answers no. *)
Lemma checkWordMute_empty_text_never_matches :
  Spec.somePatternMatches WordMute.fragmentRE2 JS.asciiToLowerCase
    (WordMute.muteText true JS.asciiTrim Examples.wordless) [RegexSource "/.*/"]
  /\ WordMute.checkWordMute true WordMute.fragmentRE2
       JS.asciiTrim JS.asciiToLowerCase
       (Some Examples.wordless) [RegexSource "/.*/"] = false.
Proof.
  split; [|reflexivity].
  exists (RegexSource "/.*/"). split; [left; reflexivity|].
  exists ".*", "", (fun _ => true). repeat split; reflexivity.
Qed.

(** C9, amended: whatever the engine's [trim] and [toLowerCase] compute,
    [checkWordMute] answers yes exactly when the trimmed, concatenated
    text is not empty and some configured pattern matches it, a keyword
    list matching when it has a non-empty keyword and every non-empty
    keyword occurs in the text, both lower-cased, and a source
    [/body/flags] matching when the engine compiles it and accepts the
    text; a malformed source counts as no match.  On the ASCII texts of
    the scenario, the keyword list foo, bar does not match "foo only",
    and [/foo/i] on "FOO bar" is the engine's answer for body foo under
    flag i, which is yes for case-insensitive search. *)
Theorem checkWordMute_matches_some_pattern
    (scyllaClient : bool) (RE2 : string -> string -> option (string -> bool))
    (trim toLowerCase : string -> string)
    (note : ScyllaNote) (mutedWords : list MutePattern) :
  (WordMute.checkWordMute scyllaClient RE2 trim toLowerCase (Some note) mutedWords
   = true
   <-> WordMute.muteText scyllaClient trim note <> ""
       /\ Spec.somePatternMatches RE2 toLowerCase
            (WordMute.muteText scyllaClient trim note) mutedWords)
  /\ WordMute.checkWordMute scyllaClient RE2 JS.asciiTrim JS.asciiToLowerCase
       (Some Examples.fooOnly) [Keywords ["foo"; "bar"]] = false
  /\ WordMute.checkWordMute scyllaClient RE2 JS.asciiTrim JS.asciiToLowerCase
       (Some Examples.fooBar) [RegexSource "/foo/i"]
     = match RE2 "foo" "i" with Some test => test "FOO bar" | None => false end
  /\ WordMute.checkWordMute scyllaClient WordMute.fragmentRE2
       JS.asciiTrim JS.asciiToLowerCase (Some Examples.fooBar)
       [RegexSource "/foo/i"] = true.
Proof.
  split; [|split; [|split]].
  - unfold WordMute.checkWordMute.
    destruct (String.eqb_spec (WordMute.muteText scyllaClient trim note) "") as [E|E].
    + split; [discriminate | intros [H _]; contradiction].
    + rewrite scanPatterns_iff. split; [intros H; split; assumption | intros [_ H]; exact H].
  - destruct scyllaClient; reflexivity.
  - assert (Htext : WordMute.muteText scyllaClient JS.asciiTrim Examples.fooBar
                    = "FOO bar")
      by (destruct scyllaClient; reflexivity).
    unfold WordMute.checkWordMute. rewrite Htext.
    change (WordMute.scanPatterns RE2 JS.asciiToLowerCase "FOO bar"
              [RegexSource "/foo/i"])
      with (if WordMute.regexMatch RE2 "FOO bar" "/foo/i" then true else false).
    unfold WordMute.regexMatch.
    change (WordMute.matchRegexSource "/foo/i") with (Some ("foo", "i")).
    simpl. destruct (RE2 "foo" "i") as [test|]; [destruct (test "FOO bar")|]; reflexivity.
  - destruct scyllaClient; reflexivity.
Qed.

(** C1: with a non-empty pattern list [filterMutedNote] negates the promise
    that [getWordHardMute] returns instead of its value, so no row is
    kept: the row "hello" by bob matches no pattern (the awaited answer is
    no) and is dropped all the same.  An empty pattern list leaves the
    batch as it is. *)
Theorem filterMutedNote_negates_promise
    (scyllaClient : bool) (RE2 : string -> string -> option (string -> bool))
    (trim toLowerCase : string -> string)
    (notes : list ScyllaNote) (user : string)
    (p : MutePattern) (mutedWords : list MutePattern) :
  WordMute.filterMutedNote scyllaClient RE2 trim toLowerCase notes user
    (p :: mutedWords) = []
  /\ WordMute.filterMutedNote scyllaClient RE2 trim toLowerCase notes user [] = notes
  /\ JS.await (WordMute.getWordHardMute true WordMute.fragmentRE2
                 JS.asciiTrim JS.asciiToLowerCase Examples.hello
                 (me_object "me") (Some [Keywords ["spam"]])) = false
  /\ WordMute.filterMutedNote true WordMute.fragmentRE2
       JS.asciiTrim JS.asciiToLowerCase [Examples.hello] "me"
       [Keywords ["spam"]] = [].
Proof.
  split; [|split; [|split]]; try reflexivity.
  unfold WordMute.filterMutedNote. simpl.
  induction notes as [|n rest IH]; simpl; [reflexivity | exact IH].
Qed.

(** ** Visibility *)

Lemma arrayIncludes_In (l : list string) (x : string) :
  JS.arrayIncludes l x = true <-> In x l.
Proof.
  unfold JS.arrayIncludes. rewrite existsb_exists. split.
  - intros (y & Hin & Heq). apply String.eqb_eq in Heq. subst. exact Hin.
  - intros Hin. exists x. split; [exact Hin | apply String.eqb_refl].
Qed.

(** What [filterVisibility] keeps: for an anonymous viewer the public and
    home rows; for a signed-in viewer also every row they wrote, are listed
    on or are mentioned in, whatever its scope, and the followers-only rows
    of the users they follow or that reply to them. *)
Lemma filterVisibility_keeps (notes : list ScyllaNote) (user : option string)
    (followingIds : list string) (note : ScyllaNote) :
  In note (Visibility.filterVisibility notes user followingIds)
  <-> In note notes
      /\ (visibility note = vis_public \/ visibility note = vis_home
          \/ exists me, user = Some me
               /\ (userId note = me
                   \/ In me (visibleUserIds note)
                   \/ In me (mentions note)
                   \/ (visibility note = vis_followers
                       /\ (In (userId note) followingIds
                           \/ replyUserId note = Some me)))).
Proof.
  assert (Hpub : forall v, Visibility.publicOrHome v = true
                           <-> v = vis_public \/ v = vis_home).
  { intros v. destruct v; cbn; split; intros H; try discriminate; auto;
      destruct H as [H|H]; discriminate H. }
  assert (Hreply : forall o me, JS.strictEqOpt o me = true <-> o = Some me).
  { intros [s|] me; simpl.
    - rewrite String.eqb_eq. split; [intros ->; reflexivity | intros [= ->]; reflexivity].
    - split; discriminate. }
  assert (Hfol : forall v, Visibility_eqb v vis_followers = true <-> v = vis_followers).
  { intros v. destruct v; cbn; split; intros H; try discriminate; auto. }
  unfold Visibility.filterVisibility. destruct user as [me|].
  - rewrite filter_In. unfold Visibility.visibleTo.
    rewrite !orb_true_iff, andb_true_iff, orb_true_iff, Hpub, String.eqb_eq,
      !arrayIncludes_In, Hfol, Hreply.
    split.
    + intros [Hin H]. split; [exact Hin|].
      destruct H as [[[[[H|H]|H]|H]|H]|H]; auto;
        right; right; exists me; split; tauto.
    + intros [Hin H]. split; [exact Hin|].
      destruct H as [H|[H|(me' & Hme & H)]]; [tauto | tauto |].
      injection Hme as <-. tauto.
  - rewrite filter_In, Hpub. split.
    + intros [Hin H]. split; [exact Hin|]. destruct H; auto.
    + intros [Hin H]. split; [exact Hin|].
      destruct H as [H|[H|(me & Hme & _)]]; auto. discriminate Hme.
Qed.

(** C2: [filterVisibility] lets through a direct note that only mentions
    the viewer, and a followers-only note that only lists the viewer; the
    repository's own [isVisibleForMe] refuses both (for the second, when
    the viewer is a local user who does not follow the author). *)
Theorem filterVisibility_wider_than_isVisibleForMe
    (isLocalUser : string -> bool)
    (localFollowingsHas followingExists : string -> string -> bool) :
  Visibility.filterVisibility [Examples.directMention] (Some "me") []
  = [Examples.directMention]
  /\ Visibility.isVisibleForMe isLocalUser localFollowingsHas followingExists
       Examples.directMention (Some "me") = false
  /\ Visibility.filterVisibility [Examples.followersListed] (Some "me") []
     = [Examples.followersListed]
  /\ Visibility.isVisibleForMe (fun _ => true) (fun _ _ => false) followingExists
       Examples.followersListed (Some "me") = false.
Proof. repeat split; reflexivity. Qed.

(** ** The membership cache *)

Lemma append_neq_self (s t : string) : t <> "" -> s +:+ t <> s.
Proof.
  intros Ht. induction s as [|c s IH]; simpl.
  - exact Ht.
  - intros H. injection H as H. exact (IH H).
Qed.

Lemma ttlKey_neq_key (c : SetCache.t) : SetCache.ttlKey c <> SetCache.key c.
Proof. apply append_neq_self. discriminate. Qed.

Lemma exists_0_or_1 {V} (now : Z) (st : Redis.t V) (k : string) :
  Redis.exists_ now st k = 0 \/ Redis.exists_ now st k = 1.
Proof.
  unfold Redis.exists_. destruct (Redis.getBuffer now st k); [right; reflexivity|].
  destruct (0 <? Redis.scard st k); [right | left]; reflexivity.
Qed.

Lemma stale_iff (c : SetCache.t) (now : Z) (st : Redis.t string) :
  SetCache.stale c now st = true
  <-> Redis.scard st (SetCache.key c) = 0
      \/ Redis.exists_ now st (SetCache.ttlKey c) = 0.
Proof.
  unfold SetCache.stale, SetCache.hasFollowing.
  rewrite orb_true_iff, negb_involutive, !Z.eqb_eq. reflexivity.
Qed.

Lemma lookup_foldr_delete_one {A} (m : gmap string A) (k k' : string) :
  foldr delete m [k] !! k' = if decide (k = k') then None else m !! k'.
Proof. simpl. apply lookup_delete. Qed.

(** What a reload leaves behind. *)
Lemma fetch_when_stale (c : SetCache.t) (now : Z) (st : Redis.t string) :
  SetCache.stale c now st = true ->
  Redis.members (SetCache.fetch c now st) (SetCache.key c)
  = list_to_set (SetCache.fetcher c)
  /\ Redis.strings (SetCache.fetch c now st) !! SetCache.ttlKey c
     = Some {| Redis.payload := "yes";
               Redis.expiresAt := Some (now + 1800 * 1000) |}
  /\ forall k, k <> SetCache.key c -> k <> SetCache.ttlKey c ->
       Redis.strings (SetCache.fetch c now st) !! k = Redis.strings st !! k
       /\ Redis.sets (SetCache.fetch c now st) !! k = Redis.sets st !! k.
Proof.
  intros Hstale. unfold SetCache.fetch. rewrite Hstale.
  pose proof (ttlKey_neq_key c) as Hne.
  unfold SetCache.follow.
  destruct (0 <? length (SetCache.fetcher c))%nat eqn:Hlen.
  - split; [|split].
    + unfold Redis.members, Redis.set_ex, Redis.sadd, Redis.del; simpl.
      rewrite lookup_delete_ne by exact Hne.
      rewrite lookup_insert_eq. simpl. unfold Redis.members; simpl.
      rewrite lookup_delete_eq. simpl. apply (right_id_L ∅ (∪)).
    + unfold Redis.set_ex; simpl. rewrite lookup_insert_eq. reflexivity.
    + intros k Hk Hk'. unfold Redis.set_ex, Redis.sadd, Redis.del; simpl. split.
      * rewrite lookup_insert_ne by congruence.
        rewrite lookup_delete_ne by congruence. reflexivity.
      * rewrite lookup_delete_ne by congruence.
        rewrite lookup_insert_ne by congruence.
        rewrite lookup_delete_ne by congruence. reflexivity.
  - apply Nat.ltb_ge in Hlen.
    destruct (SetCache.fetcher c) as [|x l] eqn:Hf; [|simpl in Hlen; lia].
    split; [|split].
    + unfold Redis.members, Redis.set_ex, Redis.del; simpl.
      rewrite lookup_delete_ne by exact Hne.
      rewrite lookup_delete_eq. reflexivity.
    + unfold Redis.set_ex; simpl. rewrite lookup_insert_eq. reflexivity.
    + intros k Hk Hk'. unfold Redis.set_ex, Redis.del; simpl. split.
      * rewrite lookup_insert_ne by congruence.
        rewrite lookup_delete_ne by congruence. reflexivity.
      * rewrite !lookup_delete_ne by congruence. reflexivity.
Qed.

(** C3, as stated, fails on a warm set whose marker has expired: the set
    holds alice before [fetch] and bob after it. *)
Lemma fetch_reloads_warm_set_without_marker :
  SetCache.hasFollowing Examples.followCache Examples.warmUnmarked = true
  /\ SetCache.getAll Examples.followCache Examples.warmUnmarked = ["alice"]
  /\ SetCache.getAll Examples.followCache
       (SetCache.fetch Examples.followCache 0 Examples.warmUnmarked) = ["bob"].
Proof. vm_compute. repeat split; reflexivity. Qed.

(** C3, amended: [fetch] reloads exactly when the cached set is empty or
    the freshness marker is absent.  A reload replaces the members by the
    list the source of truth returns, sets the marker to expire 1800
    seconds later and touches no other key; otherwise, that is when the
    set is not empty and the marker is there, [fetch] changes nothing. *)
Theorem fetch_reloads_when_empty_or_unmarked
    (c : SetCache.t) (now : Z) (st : Redis.t string) :
  (SetCache.stale c now st = true
   <-> Redis.scard st (SetCache.key c) = 0
       \/ Redis.exists_ now st (SetCache.ttlKey c) = 0)
  /\ (Redis.scard st (SetCache.key c) <> 0
      /\ Redis.exists_ now st (SetCache.ttlKey c) = 1 ->
      SetCache.fetch c now st = st)
  /\ (Redis.scard st (SetCache.key c) = 0
      \/ Redis.exists_ now st (SetCache.ttlKey c) = 0 ->
      Redis.members (SetCache.fetch c now st) (SetCache.key c)
      = list_to_set (SetCache.fetcher c)
      /\ Redis.strings (SetCache.fetch c now st) !! SetCache.ttlKey c
         = Some {| Redis.payload := "yes";
                   Redis.expiresAt := Some (now + 1800 * 1000) |}
      /\ forall k, k <> SetCache.key c -> k <> SetCache.ttlKey c ->
           Redis.strings (SetCache.fetch c now st) !! k = Redis.strings st !! k
           /\ Redis.sets (SetCache.fetch c now st) !! k = Redis.sets st !! k).
Proof.
  split; [apply stale_iff | split].
  - intros [Hcard Hmark].
    assert (Hfresh : SetCache.stale c now st = false).
    { destruct (SetCache.stale c now st) eqn:E; [|reflexivity].
      apply stale_iff in E as [E|E]; [contradiction | lia]. }
    unfold SetCache.fetch. rewrite Hfresh. reflexivity.
  - intros H. apply fetch_when_stale. apply stale_iff. exact H.
Qed.

(** Both constructors' [init] runs that [fetch] on the handle it builds. *)
Lemma init_is_fetch (userId : string) (followees : list string) (now : Z)
    (st : Redis.t string) :
  snd (SetCache.LocalFollowingsCache_init userId followees now st)
  = SetCache.fetch (SetCache.new "follow" userId followees) now st
  /\ snd (SetCache.ChannelFollowingsCache_init userId followees now st)
     = SetCache.fetch (SetCache.new "channel" userId followees) now st.
Proof. split; reflexivity. Qed.

(** A witness for the amended C3: the warm set without marker is
    reloaded, and a second [fetch] right after it changes nothing. *)
Lemma fetch_reloads_when_empty_or_unmarked_witness :
  Redis.members (SetCache.fetch Examples.followCache 0 Examples.warmUnmarked)
    (SetCache.key Examples.followCache)
  = list_to_set (SetCache.fetcher Examples.followCache)
  /\ SetCache.fetch Examples.followCache 10
       (SetCache.fetch Examples.followCache 0 Examples.warmUnmarked)
     = SetCache.fetch Examples.followCache 0 Examples.warmUnmarked.
Proof.
  split.
  - pose proof (fetch_reloads_when_empty_or_unmarked
                  Examples.followCache 0 Examples.warmUnmarked) as (_ & _ & H).
    refine (proj1 (H _)). right. vm_compute. reflexivity.
  - pose proof (fetch_reloads_when_empty_or_unmarked Examples.followCache 10
                  (SetCache.fetch Examples.followCache 0 Examples.warmUnmarked))
      as (_ & H & _).
    refine (H _). split; vm_compute; [discriminate | reflexivity].
Defined.

(** ** The keyed cache *)

Section KeyedCacheFacts.

Context {T V : Type}.
Variable decode : V -> T.

Lemma collect_lookup (g : string -> option V) (ks : list string)
    (m : gmap string T) (k : string) :
  Cache.collect decode ks (map g ks) m !! k
  = match existsb (String.eqb k) ks, g k with
    | true, Some v => Some (decode v)
    | _, _ => m !! k
    end.
Proof.
  revert m. induction ks as [|key ks IH]; intros m; simpl.
  - reflexivity.
  - rewrite IH. destruct (String.eqb_spec k key) as [->|Hne]; simpl.
    + destruct (g key) as [v|] eqn:Hg.
      * rewrite lookup_insert_eq. destruct (existsb _ ks); reflexivity.
      * destruct (existsb _ ks); reflexivity.
    + destruct (existsb (String.eqb k) ks), (g k), (g key);
        try reflexivity; rewrite lookup_insert_ne by congruence; reflexivity.
Qed.

Lemma keys_In (now : Z) (st : Redis.t V) (pattern k : string) :
  In k (Redis.keys now st pattern)
  <-> Redis.glob pattern k = true
      /\ 0 < Redis.exists_ now st k
      /\ k ∈ dom (Redis.strings st) ∪ dom (Redis.sets st).
Proof.
  unfold Redis.keys. rewrite filter_In, andb_true_iff, Z.ltb_lt.
  rewrite <- list_elem_of_In, elem_of_elements. tauto.
Qed.

Lemma getBuffer_key (now : Z) (st : Redis.t V) (pattern k : string) (v : V) :
  Redis.glob pattern k = true ->
  Redis.getBuffer now st k = Some v ->
  In k (Redis.keys now st pattern).
Proof.
  intros Hglob Hget. apply keys_In. split; [exact Hglob | split].
  - unfold Redis.exists_. rewrite Hget. lia.
  - apply elem_of_union_l, elem_of_dom. unfold Redis.getBuffer in Hget.
    destruct (Redis.strings st !! k); [eauto | discriminate].
Qed.

(** [getAll] returns the live string entries whose key matches the
    pattern made of the prefix and a star, each under its full key. *)
Lemma getAll_lookup (c : Cache.t) (now : Z) (st : Redis.t V) (renew : bool)
    (k : string) (x : T) :
  fst (Cache.getAll decode c now st renew) !! k = Some x
  <-> Redis.glob (Cache.prefix c +:+ "*") k = true
      /\ exists v, Redis.getBuffer now st k = Some v /\ x = decode v.
Proof.
  unfold Cache.getAll.
  set (ks := Redis.keys now st (Cache.prefix c +:+ "*")).
  assert (Hmem : existsb (String.eqb k) ks = true <-> In k ks).
  { rewrite existsb_exists. split.
    - intros (y & Hin & Heq). apply String.eqb_eq in Heq. subst. exact Hin.
    - intros Hin. exists k. split; [exact Hin | apply String.eqb_refl]. }
  assert (Hcollect :
    Cache.collect decode ks (Redis.mgetBuffer now st ks) ∅ !! k = Some x
    <-> Redis.glob (Cache.prefix c +:+ "*") k = true
        /\ exists v, Redis.getBuffer now st k = Some v /\ x = decode v).
  { unfold Redis.mgetBuffer. rewrite collect_lookup, lookup_empty.
    destruct (existsb (String.eqb k) ks) eqn:E.
    - assert (Hin : In k ks) by (apply Hmem; reflexivity).
      apply keys_In in Hin as (Hglob & _).
      destruct (Redis.getBuffer now st k) as [v|].
      + split.
        * intros [= <-]. split; [exact Hglob | eauto].
        * intros (_ & v' & [= <-] & ->). reflexivity.
      + split; [discriminate | intros (_ & v' & Hv & _); discriminate].
    - split; [discriminate|].
      intros (Hglob & v & Hget & _).
      pose proof (getBuffer_key now st _ k v Hglob Hget) as Hin.
      apply Hmem in Hin. fold ks in Hin. congruence. }
  destruct (length ks =? 0)%nat eqn:Hlen; simpl; [|exact Hcollect].
  apply Nat.eqb_eq in Hlen. destruct ks; [|discriminate].
  exact Hcollect.
Qed.

End KeyedCacheFacts.

Lemma list_ascii_of_string_app (a b : string) :
  list_ascii_of_string (a +:+ b) = list_ascii_of_string a ++ list_ascii_of_string b.
Proof.
  induction a as [|c a IH]; [reflexivity|].
  change (c :: list_ascii_of_string (a +:+ b)
          = c :: (list_ascii_of_string a ++ list_ascii_of_string b)).
  f_equal. exact IH.
Qed.

Lemma append_assoc (a b c : string) : (a +:+ b) +:+ c = a +:+ (b +:+ c).
Proof.
  induction a as [|x a IH]; [reflexivity|].
  change (String x ((a +:+ b) +:+ c) = String x (a +:+ (b +:+ c))).
  f_equal. exact IH.
Qed.

(** A prefix without a star, followed by a star, matches every key that
    starts with the prefix. *)
Lemma glob_prefix_star (p rest : string) :
  Redis.noStar p = true -> Redis.glob (p +:+ "*") (p +:+ rest) = true.
Proof.
  unfold Redis.glob. rewrite !list_ascii_of_string_app.
  generalize (list_ascii_of_string rest) as s. clear rest.
  induction p as [|c p IH]; intros s Hp.
  - simpl. induction s as [|x s IHs]; [reflexivity|].
    simpl in *. exact IHs.
  - simpl in Hp. apply andb_true_iff in Hp as [Hc Hp].
    apply negb_true_iff in Hc. cbn [list_ascii_of_string app Redis.globChars].
    rewrite Hc, Ascii.eqb_refl, orb_true_r. simpl. apply IH. exact Hp.
Qed.

(** Whatever a cache writes is returned by [getAll] of every cache whose
    prefix its own prefix extends. *)
Lemma getAll_reads_every_extension {T V : Type} (encode : T -> V) (decode : V -> T)
    (c1 c2 : Cache.t) (ext : string) (now : Z) (st : Redis.t V)
    (key : option string) (value : T) (renew : bool) :
  Cache.prefix c2 = Cache.prefix c1 +:+ ext ->
  Redis.noStar (Cache.prefix c1) = true ->
  0 < Cache.ttl c2 ->
  fst (Cache.getAll decode c1 now (Cache.set encode c2 now st key value) renew)
    !! Cache.prefixedKey c2 key
  = Some (decode (encode value)).
Proof.
  intros Hext Hstar Httl. apply getAll_lookup. split.
  - unfold Cache.prefixedKey. rewrite Hext.
    destruct (JS.truthy_string key).
    + rewrite append_assoc. apply glob_prefix_star. exact Hstar.
    + apply glob_prefix_star. exact Hstar.
  - exists (encode value). split; [|reflexivity].
    unfold Cache.set, Redis.getBuffer, Redis.set_ex; simpl.
    rewrite lookup_insert_eq. unfold Redis.live; simpl.
    destruct (Z.ltb_spec now (now + Cache.ttl c2 * 1000)); [reflexivity | lia].
Qed.

(** C8: nothing was ever written under the namespace user, and [getAll]
    on it still returns the entry that the namespace userById wrote, under
    that entry's full key. *)
Theorem getAll_reads_extending_namespace :
  Redis.keys 0 Examples.onlyUserById (Cache.prefix Examples.userCache +:+ "*")
  = ["cache:userById:k"]
  /\ Cache.prefixedKey Examples.userByIdCache (Some "k") = "cache:userById:k"
  /\ fst (Cache.getAll (fun v : string => v) Examples.userCache 0
            Examples.onlyUserById false)
     = {["cache:userById:k" := "v"]}.
Proof.
  split; [vm_compute; reflexivity | split; [reflexivity|]].
  vm_compute. reflexivity.
Qed.

(** ** The query selector *)

(** C6, as stated, fails on an explicit lower bound at the epoch: a since
    bound is given, none is resolved, and the statement carries no
    lower-bound predicate. *)
Lemma preparePaginationQuery_drops_epoch_since :
  Spec.sinceBound Examples.stamp (ps_sinceId Examples.sinceEpoch)
    (ps_sinceDate Examples.sinceEpoch) = Some 0
  /\ Scylla.sinceDate
       (Scylla.preparePaginationQuery DayStore.statements Examples.stamp
          Examples.today feed_home Examples.sinceEpoch) = None
  /\ JS.includes
       (Scylla.query
          (Scylla.preparePaginationQuery DayStore.statements Examples.stamp
             Examples.today feed_home Examples.sinceEpoch))
       Scylla.sinceClause = false.
Proof. vm_compute. repeat split; reflexivity. Qed.

Lemma resolveUntil_spec (getTimestamp : string -> Z) (now : Z)
    (ps : PaginationParams) :
  Scylla.resolveUntil getTimestamp now ps
  = Spec.untilBound getTimestamp now
      (Spec.givenId (ps_untilId ps)) (Spec.givenDate (ps_untilDate ps)).
Proof.
  unfold Scylla.resolveUntil, Spec.untilBound, Spec.givenId, Spec.givenDate,
    JS.truthy_string, JS.truthy_number.
  destruct (ps_untilId ps) as [i|], (ps_untilDate ps) as [d|]; simpl;
    repeat match goal with
           | |- context [String.eqb ?a ?b] => destruct (String.eqb a b); simpl
           | |- context [?a =? ?b] => destruct (Z.eqb_spec a b); simpl
           | |- context [?a <? ?b] => destruct (Z.ltb_spec a b); simpl
           end; lia.
Qed.

Lemma resolveSince_spec (getTimestamp : string -> Z) (ps : PaginationParams) :
  Scylla.resolveSince getTimestamp ps
  = Spec.sinceBound getTimestamp
      (Spec.givenId (ps_sinceId ps)) (Spec.givenDate (ps_sinceDate ps)).
Proof.
  unfold Scylla.resolveSince, Spec.sinceBound, Spec.givenId, Spec.givenDate,
    JS.truthy_string, JS.truthy_number.
  destruct (ps_sinceId ps) as [i|], (ps_sinceDate ps) as [d|]; simpl;
    repeat match goal with
           | |- context [String.eqb ?a ?b] => destruct (String.eqb a b); simpl
           | |- context [?a =? ?b] => destruct (Z.eqb_spec a b); simpl
           | |- context [?a <? ?b] => destruct (Z.ltb_spec a b); simpl
           end; try reflexivity; f_equal; lia.
Qed.

(** C6, amended: counting an empty id and a zero timestamp as not given,
    the upper bound is the timestamp of [untilId] when given and the clock
    otherwise, replaced by [untilDate] when that is given and earlier; the
    lower bound is the later of the timestamp of [sinceId] and
    [sinceDate], the given one of the two, or none when neither is given;
    and the statement is the selected one followed by the upper-bound
    predicate, the lower-bound predicate exactly when a lower bound was
    resolved, and the limit clause. *)
Theorem preparePaginationQuery_bounds_and_clauses
    (prepared : Prepared) (getTimestamp : string -> Z) (now : Z)
    (kind : FeedType) (ps : PaginationParams) :
  Scylla.untilDate (Scylla.preparePaginationQuery prepared getTimestamp now kind ps)
  = Spec.untilBound getTimestamp now
      (Spec.givenId (ps_untilId ps)) (Spec.givenDate (ps_untilDate ps))
  /\ Scylla.sinceDate (Scylla.preparePaginationQuery prepared getTimestamp now kind ps)
     = Spec.sinceBound getTimestamp
         (Spec.givenId (ps_sinceId ps)) (Spec.givenDate (ps_sinceDate ps))
  /\ Scylla.query (Scylla.preparePaginationQuery prepared getTimestamp now kind ps)
     = JS.join " "
         ([Scylla.selectStatement prepared kind; Scylla.untilClause]
          ++ match Spec.sinceBound getTimestamp
                     (Spec.givenId (ps_sinceId ps))
                     (Spec.givenDate (ps_sinceDate ps)) with
             | Some _ => [Scylla.sinceClause]
             | None => []
             end
          ++ [Scylla.limitClause]).
Proof.
  unfold Scylla.preparePaginationQuery; simpl.
  rewrite resolveUntil_spec, resolveSince_spec.
  split; [reflexivity | split; [reflexivity|]].
  destruct (Spec.sinceBound _ _ _); reflexivity.
Qed.

(** ** The scanner *)

Lemma executedLimits_app (a b : list Event) :
  Spec.executedLimits (a ++ b) = Spec.executedLimits a ++ Spec.executedLimits b.
Proof. apply flat_map_app. Qed.

Lemma executedTargets_app (a b : list Event) :
  Spec.executedTargets (a ++ b) = Spec.executedTargets a ++ Spec.executedTargets b.
Proof. apply flat_map_app. Qed.

Lemma poppedIds_app (a b : list Event) :
  Spec.poppedIds (a ++ b) = Spec.poppedIds a ++ Spec.poppedIds b.
Proof. apply flat_map_app. Qed.

Lemma partitionEnds_app (a b : list Event) :
  Spec.partitionEnds (a ++ b) = (Spec.partitionEnds a + Spec.partitionEnds b)%nat.
Proof. unfold Spec.partitionEnds. rewrite List.filter_app, length_app. reflexivity. Qed.

Lemma last_map {A B} (f : A -> B) (l : list A) :
  last (map f l) = f <$> last l.
Proof.
  induction l as [|x [|y l] IH]; [reflexivity | reflexivity | exact IH].
Qed.

Lemma boundParams_last (pq : Scylla.PreparedQuery) (n : Z) (params : list Param) :
  last (Scylla.boundParams pq n params) = Some (PNumber n).
Proof. unfold Scylla.boundParams. apply last_snoc. Qed.

(** The first part of the loop body touches nothing but the array of
    target ids, and that only for the list feed, where it pops one id. *)
Lemma partitionParams_cases (kind : FeedType) (ps : PaginationParams)
    (userId : option string) (st st1 : Scylla.ScanState) (o : option (list Param)) :
  Scylla.partitionParams kind ps userId st = (o, st1) ->
  Scylla.cur_untilDate st1 = Scylla.cur_untilDate st
  /\ Scylla.scannedPartitions st1 = Scylla.scannedPartitions st
  /\ Scylla.found st1 = Scylla.found st
  /\ ((st1 = st /\ kind <> feed_list /\ is_Some o)
      \/ (st1 = st /\ kind = feed_list /\ Scylla.cur_userIds st = None /\ is_Some o)
      \/ (kind = feed_list
          /\ exists ids,
               Scylla.cur_userIds st = Some ids
               /\ Scylla.cur_userIds st1 = Some (removelast ids)
               /\ Scylla.events st1 = Scylla.events st ++ [EvPop (last ids)]
               /\ o = if JS.truthy_string (last ids)
                      then Some [PString (default "" (last ids));
                                 PDate (Scylla.cur_untilDate st)]
                      else None)).
Proof.
  unfold Scylla.partitionParams.
  destruct kind; simpl;
    repeat match goal with
           | |- context [JS.truthy_string ?x] =>
               lazymatch x with
               | last _ => fail
               | _ => destruct (JS.truthy_string x)
               end
           end;
    try (intros [= <- <-]; repeat split; left; repeat split; eauto; discriminate).
  destruct (Scylla.cur_userIds st) as [ids|] eqn:Hids.
  - unfold Scylla.pop.
    destruct (JS.truthy_string (last ids)) eqn:Ht; intros [= <- <-]; simpl;
      repeat split; right; right; split; try reflexivity;
      exists ids; rewrite Ht; repeat split; reflexivity.
  - intros [= <- <-]. repeat split. right; left. repeat split; eauto.
Qed.

Lemma countBelow_mono (times : list Z) (u u' : Z) :
  u' <= u -> (Spec.countBelow times u' <= Spec.countBelow times u)%nat.
Proof.
  intros Hle. unfold Spec.countBelow.
  induction times as [|t l IH]; simpl; [lia|].
  destruct (Z.ltb_spec t u'), (Z.ltb_spec t u); simpl; lia.
Qed.

Lemma countBelow_strict (times : list Z) (u t : Z) :
  In t times -> t < u -> (Spec.countBelow times t < Spec.countBelow times u)%nat.
Proof.
  intros Hin Hlt.
  induction times as [|x l IH]; [destruct Hin|].
  pose proof (countBelow_mono l u t ltac:(lia)) as Hmono.
  unfold Spec.countBelow in *. simpl.
  destruct Hin as [->|Hin].
  - destruct (Z.ltb_spec t t), (Z.ltb_spec t u); simpl; lia.
  - specialize (IH Hin).
    destruct (Z.ltb_spec x t), (Z.ltb_spec x u); simpl; lia.
Qed.

Section ScannerFacts.

Variable Row : Type.
Variable parseScyllaNote : Row -> ScyllaNote.
Variable parseScyllaNotification : Row -> ScyllaNotification.
Variable parseScyllaReaction : Row -> ScyllaNoteReaction.
Variable config_scylla : option ScyllaConfig.
Variable execute : string -> list Param -> option (list Row).
Variable tzOffset : Z.
Variable kind : FeedType.
Variable ps : PaginationParams.
Variable filter : Filters.
Variable userId : option string.
Variable pq : Scylla.PreparedQuery.
Variable maxPartitions : Z.

Local Abbreviation iteration :=
  (Scylla.iteration Row parseScyllaNote parseScyllaNotification
     parseScyllaReaction config_scylla execute tzOffset kind ps filter userId pq).

Local Abbreviation scanLoop :=
  (fun fuel => Scylla.scanLoop Row parseScyllaNote parseScyllaNotification
     parseScyllaReaction config_scylla execute tzOffset fuel kind ps filter
     userId pq maxPartitions).

Local Abbreviation theLimit := (Scylla.fetchLimit config_scylla kind ps).

(** What a statement of this scan looks like in the trace. *)
Definition ownStatement (e : Event) : Prop :=
  match e with
  | EvExecute q params =>
      q = Scylla.query pq /\ last params = Some (PNumber theLimit)
  | _ => False
  end.

Ltac split_iteration Hpp Hex :=
  unfold Scylla.iteration;
  destruct (Scylla.partitionParams _ _ _ _) as [[params|] st1] eqn:Hpp;
  [ destruct (execute _ _) as [rows|] eqn:Hex;
    [ destruct (0 <? Z.of_nat (length rows)) eqn:Hpos;
      [ destruct (Scylla.collectRows _ _ _ _ _ _ _) as [kept lastAt] eqn:Hcol | ];
      (destruct (Z.of_nat (length rows) <? _) eqn:Hfull;
       [ destruct (Scylla.sinceDate pq) as [since|] eqn:Hsince;
         [ destruct (_ <? since) eqn:Hbefore | ] | ])
    | ]
  | ]; cbn [Scylla.stepState].

(** One pass adds to the trace at most one pop, then at most one
    statement, then at most one partition end, and it counts a partition
    exactly when it records the end of one. *)
Lemma iteration_trace (st : Scylla.ScanState) :
  exists pops execs ends,
    Scylla.events (Scylla.stepState (iteration st))
    = Scylla.events st ++ pops ++ execs ++ ends
    /\ Forall ownStatement execs
    /\ ((ends = []
         /\ Scylla.scannedPartitions (Scylla.stepState (iteration st))
            = Scylla.scannedPartitions st)
        \/ ((exists u, ends = [EvPartitionEnd u])
            /\ Scylla.scannedPartitions (Scylla.stepState (iteration st))
               = Scylla.scannedPartitions st + 1))
    /\ ((pops = []
         /\ Scylla.cur_userIds (Scylla.stepState (iteration st))
            = Scylla.cur_userIds st
         /\ (kind <> feed_list \/ Scylla.cur_userIds st = None))
        \/ (kind = feed_list
            /\ exists ids,
                 Scylla.cur_userIds st = Some ids
                 /\ Scylla.cur_userIds (Scylla.stepState (iteration st))
                    = Some (removelast ids)
                 /\ pops = [EvPop (last ids)]
                 /\ (execs = []
                     \/ exists i rest,
                          last ids = Some i
                          /\ execs = [EvExecute (Scylla.query pq) (PString i :: rest)]))).
Proof.
  split_iteration Hpp Hex;
    apply partitionParams_cases in Hpp
      as (Hu & Hs & Hf & [(-> & Hk & Ho) | [(-> & Hk & Hids & Ho) | (Hk & ids & Hids & Hids1 & Hev & Ho)]]);
    cbn [Scylla.events Scylla.scannedPartitions Scylla.cur_userIds
         Scylla.withEvent Scylla.withUntil Scylla.pushFound];
    try (exfalso; exact (is_Some_None Ho)).
  all: try rewrite Hev.
  all: try (destruct (JS.truthy_string (last ids)) eqn:Ht; [|discriminate Ho];
            injection Ho as ->;
            destruct (last ids) as [i|] eqn:Hlast; [|simpl in Ht; discriminate Ht]).
  all: try (destruct (JS.truthy_string (last ids)) eqn:Ht; [discriminate Ho|]).
  all: rewrite <- ?app_assoc; cbn [app].
  all: lazymatch goal with
       | |- context [EvPop ?p :: EvExecute ?q ?a :: EvPartitionEnd ?u :: nil] =>
           exists [EvPop p], [EvExecute q a], [EvPartitionEnd u]
       | |- context [EvPop ?p :: EvExecute ?q ?a :: nil] =>
           exists [EvPop p], [EvExecute q a], []
       | |- context [EvExecute ?q ?a :: EvPartitionEnd ?u :: nil] =>
           exists [], [EvExecute q a], [EvPartitionEnd u]
       | |- context [EvExecute ?q ?a :: nil] =>
           exists [], [EvExecute q a], []
       | |- context [EvPop ?p :: nil] =>
           exists [EvPop p], [], []
       end.
  all: cbn [app]; split; [reflexivity|].
  all: split;
         [ first [ constructor;
                   [ split; [reflexivity | apply boundParams_last] | constructor ]
                 | constructor ]
         | ].
  all: split;
         [ first [ left; split; [reflexivity | lia]
                 | right; split; [eexists; reflexivity | lia] ]
         | ].
  all: first [ left; split; [reflexivity | split; [congruence | tauto]]
             | right; split; [exact Hk|]; exists ids;
               split; [exact Hids|]; split; [assumption|]; split; [congruence|];
               first [ left; reflexivity
                     | right; unfold Scylla.boundParams; cbn [app];
                       destruct (Scylla.sinceDate pq); cbn [app]; eauto ] ].
Qed.

Lemma ownStatement_facts (execs : list Event) :
  Forall ownStatement execs ->
  Spec.partitionEnds execs = 0%nat
  /\ Spec.poppedIds execs = []
  /\ Forall (fun l => l = Some (PNumber theLimit)) (Spec.executedLimits execs).
Proof.
  induction 1 as [|e execs He _ (IH1 & IH2 & IH3)]; [repeat split; constructor|].
  destruct e as [q params | |]; try contradiction. destruct He as [_ He].
  repeat split; [exact IH1 | exact IH2 |].
  cbn. constructor; [exact He | exact IH3].
Qed.

(** The loop, one pass at a time. *)
Lemma scanLoop_step (fuel : nat) (st : Scylla.ScanState) :
  (Z.of_nat (length (Scylla.found st)) <? Scylla.foundLimit kind ps)
  && (Scylla.scannedPartitions st <? maxPartitions) = true ->
  scanLoop (S fuel) st
  = match iteration st with
    | Scylla.Continue st' => scanLoop fuel st'
    | Scylla.Break st' => (Returned tt, st')
    | Scylla.Rejected st' => (Threw "QueryError", st')
    end.
Proof. intros Hguard. simpl. rewrite Hguard. reflexivity. Qed.

Lemma scanLoop_done (fuel : nat) (st : Scylla.ScanState) :
  (Z.of_nat (length (Scylla.found st)) <? Scylla.foundLimit kind ps)
  && (Scylla.scannedPartitions st <? maxPartitions) = false ->
  scanLoop fuel st = (Returned tt, st).
Proof. intros Hguard. destruct fuel; simpl; rewrite Hguard; reflexivity. Qed.

(** A property of the loop's state that every pass keeps while the loop
    condition holds is kept by the whole loop, however long it runs. *)
Lemma scanLoop_invariant (Inv : Scylla.ScanState -> Prop) :
  (forall st, Inv st ->
     Z.of_nat (length (Scylla.found st)) < Scylla.foundLimit kind ps ->
     Scylla.scannedPartitions st < maxPartitions ->
     Inv (Scylla.stepState (iteration st))) ->
  forall fuel st, Inv st -> Inv (snd (scanLoop fuel st)).
Proof.
  intros Hstep. induction fuel as [|fuel IH]; intros st Hinv; simpl.
  - destruct (_ && _); exact Hinv.
  - destruct (_ && _) eqn:Hguard; [|exact Hinv].
    apply andb_true_iff in Hguard as [Hfound Hscan].
    apply Z.ltb_lt in Hfound, Hscan.
    specialize (Hstep st Hinv Hfound Hscan).
    destruct (iteration st) as [st'|st'|st']; simpl in *;
      [apply IH; exact Hstep | exact Hstep | exact Hstep].
Qed.

(** Every statement the loop sends carries the same fetch limit. *)
Lemma scanLoop_limits (fuel : nat) (st : Scylla.ScanState) :
  Forall (fun l => l = Some (PNumber theLimit))
    (Spec.executedLimits (Scylla.events st)) ->
  Forall (fun l => l = Some (PNumber theLimit))
    (Spec.executedLimits (Scylla.events (snd (scanLoop fuel st)))).
Proof.
  apply (scanLoop_invariant
           (fun st => Forall (fun l => l = Some (PNumber theLimit))
                        (Spec.executedLimits (Scylla.events st)))).
  clear st. intros st Hinv _ _.
  destruct (iteration_trace st) as (pops & execs & ends & -> & Hexecs & Hends & Hpops).
  rewrite !executedLimits_app. apply ownStatement_facts in Hexecs as (_ & _ & Hexecs).
  repeat apply Forall_app_2; try assumption.
  - destruct Hpops as [(-> & _) | (_ & ids & _ & _ & -> & _)]; constructor.
  - destruct Hends as [[-> _] | [[u ->] _]]; constructor.
Qed.

(** The loop counts a partition exactly when it gives one up, and never
    beyond the budget. *)
Lemma scanLoop_partitions (fuel : nat) (st : Scylla.ScanState) :
  Scylla.scannedPartitions st = Z.of_nat (Spec.partitionEnds (Scylla.events st)) ->
  Scylla.scannedPartitions st <= Z.max 0 maxPartitions ->
  Scylla.scannedPartitions (snd (scanLoop fuel st))
  = Z.of_nat (Spec.partitionEnds (Scylla.events (snd (scanLoop fuel st))))
  /\ Scylla.scannedPartitions (snd (scanLoop fuel st)) <= Z.max 0 maxPartitions.
Proof.
  intros H1 H2.
  apply (scanLoop_invariant
           (fun st => Scylla.scannedPartitions st
                      = Z.of_nat (Spec.partitionEnds (Scylla.events st))
                      /\ Scylla.scannedPartitions st <= Z.max 0 maxPartitions));
    [|split; assumption].
  clear st H1 H2. intros st [H1 H2] _ Hscan.
  destruct (iteration_trace st) as (pops & execs & ends & -> & Hexecs & Hends & Hpops).
  rewrite !partitionEnds_app. apply ownStatement_facts in Hexecs as (-> & _ & _).
  assert (Hp : Spec.partitionEnds pops = 0%nat)
    by (destruct Hpops as [(-> & _) | (_ & ids & _ & _ & -> & _)]; reflexivity).
  rewrite Hp.
  destruct Hends as [[-> ->] | [[u ->] ->]]; cbn; lia.
Qed.

(** The list feed: a pass that continues has popped an id off a
    non-empty array. *)
Lemma iteration_continue_list (st st' : Scylla.ScanState) (rest : list string) :
  kind = feed_list ->
  Scylla.cur_userIds st = Some rest ->
  iteration st = Scylla.Continue st' ->
  rest <> [] /\ Scylla.cur_userIds st' = Some (removelast rest).
Proof.
  intros Hkind Hrest.
  split_iteration Hpp Hex; intros [= <-];
    cbn [Scylla.cur_userIds Scylla.withEvent Scylla.withUntil Scylla.pushFound];
    apply partitionParams_cases in Hpp
      as (_ & _ & _ & [(_ & Hk & _) | [(_ & _ & Hnone & _) | (_ & ids & Hids & Hids1 & _ & Ho)]]);
    try contradiction; try congruence.
  all: assert (ids = rest) by congruence; subst ids.
  all: split; [|exact Hids1].
  all: intros ->; simpl in Ho; discriminate Ho.
Qed.

(** The list feed comes to an end by itself: each pass takes one id. *)
Lemma scanLoop_list_terminates (fuel : nat) (st : Scylla.ScanState)
    (rest : list string) :
  kind = feed_list ->
  Scylla.cur_userIds st = Some rest ->
  (length rest < fuel)%nat ->
  fst (scanLoop fuel st) <> OutOfFuel.
Proof.
  intros Hkind. revert st rest.
  induction fuel as [|fuel IH]; intros st rest Hrest Hfuel; [lia|]. simpl.
  destruct (_ && _); [|discriminate].
  destruct (iteration st) as [st'|st'|st'] eqn:Hit; simpl; try discriminate.
  destruct (iteration_continue_list st st' rest Hkind Hrest Hit) as [Hne Hrest'].
  apply (IH st' (removelast rest) Hrest').
  destruct rest as [|x rest]; [contradiction|].
  rewrite removelast_firstn_len, length_firstn. simpl in *. lia.
Qed.

Lemma iteration_consumes (ids : list string) (st : Scylla.ScanState) :
  kind = feed_list ->
  Spec.consumedFrom ids st ->
  Spec.consumedFrom ids (Scylla.stepState (iteration st)).
Proof.
  intros Hkind (rest & Hrest & Hids & Htargets). unfold Spec.consumedFrom.
  destruct (iteration_trace st) as (pops & execs & ends & -> & Hexecs & Hends & Hpops).
  rewrite !poppedIds_app, !executedTargets_app.
  assert (Hends' : Spec.poppedIds ends = [] /\ Spec.executedTargets ends = [])
    by (destruct Hends as [[-> _] | [[u ->] _]]; split; reflexivity).
  destruct Hends' as [-> ->].
  pose proof (ownStatement_facts execs Hexecs) as (_ & -> & _).
  rewrite !app_nil_r.
  destruct Hpops as [(_ & _ & [Hk | Hnone]) | (_ & ids0 & Hids0 & Hids1 & -> & Hex)];
    [contradiction | congruence |].
  assert (ids0 = rest) by congruence. subst ids0.
  exists (removelast rest). split; [exact Hids1|].
  destruct (last rest) as [i|] eqn:Hlast.
  + apply last_Some in Hlast as [rest' ->].
    rewrite removelast_last. cbn [Spec.poppedIds flat_map app].
    rewrite rev_app_distr. cbn [rev app].
    split; [rewrite Hids, <- app_assoc; reflexivity|].
    change (Spec.executedTargets [EvPop (Some i)]) with (@nil (option Param)).
    cbn [app]. apply Forall_app_2.
    * eapply Forall_impl; [exact Htargets|].
      intros t (j & -> & Hj). exists j. split; [reflexivity|].
      apply in_or_app. left. exact Hj.
    * destruct Hex as [-> | (j & rest0 & [= <-] & ->)]; [constructor|].
      cbn. constructor; [|constructor].
      exists i. split; [reflexivity|]. apply in_or_app. right. left. reflexivity.
  + apply last_None in Hlast. subst rest.
    cbn [Spec.poppedIds flat_map app removelast]. rewrite app_nil_r.
    split; [exact Hids|].
    destruct Hex as [-> | (j & rest0 & Hj & _)]; [|discriminate Hj].
    cbn. rewrite app_nil_r. exact Htargets.
Qed.

(** Once an id has been popped the trace keeps it. *)
Lemma scanLoop_keeps_popped (fuel : nat) (st : Scylla.ScanState) :
  Spec.poppedIds (Scylla.events st) <> [] ->
  Spec.poppedIds (Scylla.events (snd (scanLoop fuel st))) <> [].
Proof.
  apply (scanLoop_invariant (fun st => Spec.poppedIds (Scylla.events st) <> [])).
  clear st. intros st Hne _ _.
  destruct (iteration_trace st) as (pops & execs & ends & -> & _).
  rewrite poppedIds_app. intros H. apply app_eq_nil in H as [H _]. exact (Hne H).
Qed.

(** The first pass of the list feed already pops an id. *)
Lemma scanLoop_list_pops (fuel : nat) (st : Scylla.ScanState) (rest : list string) :
  kind = feed_list ->
  Scylla.cur_userIds st = Some rest ->
  rest <> [] ->
  Z.of_nat (length (Scylla.found st)) < Scylla.foundLimit kind ps ->
  Scylla.scannedPartitions st < maxPartitions ->
  (0 < fuel)%nat ->
  Spec.poppedIds (Scylla.events (snd (scanLoop fuel st))) <> [].
Proof.
  intros Hkind Hrest Hne Hfound Hscan Hfuel.
  destruct fuel as [|fuel]; [lia|]. simpl.
  apply Z.ltb_lt in Hfound, Hscan. rewrite Hfound, Hscan. simpl.
  assert (Hpop : Spec.poppedIds (Scylla.events (Scylla.stepState (iteration st))) <> []).
  { destruct (iteration_trace st)
      as (pops & execs & ends & -> & _ & _
          & [(_ & _ & [Hk | Hnone]) | (_ & ids & Hids & _ & -> & _)]);
      [contradiction | congruence |].
    assert (ids = rest) by congruence. subst ids.
    destruct (last rest) as [i|] eqn:Hlast;
      [|apply last_None in Hlast; contradiction].
    rewrite !poppedIds_app. cbn [Spec.poppedIds flat_map app].
    intros H. apply app_eq_nil in H as [_ H]. discriminate H. }
  destruct (iteration st) as [st'|st'|st']; simpl in *;
    [apply scanLoop_keeps_popped; exact Hpop | exact Hpop | exact Hpop].
Qed.

(** What has been popped is kept track of through the whole loop. *)
Lemma scanLoop_consumes (ids : list string) (fuel : nat) (st : Scylla.ScanState) :
  kind = feed_list ->
  Spec.consumedFrom ids st ->
  Spec.consumedFrom ids (snd (scanLoop fuel st)).
Proof.
  intros Hkind. apply (scanLoop_invariant (Spec.consumedFrom ids)).
  intros st' Hinv _ _. apply iteration_consumes; assumption.
Qed.

Section Termination.

(** The creation times of the rows the store holds, a fetch limit that
    asks for at least one row, and a store that answers a statement of the
    scan with rows it holds, created strictly before the upper bound. *)
Variable times : list Z.
Hypothesis limit_positive : 0 < theLimit.
Hypothesis execute_bounded :
  forall st params st1 rows,
    Scylla.partitionParams kind ps userId st = (Some params, st1) ->
    execute (Scylla.query pq) (Scylla.boundParams pq theLimit params) = Some rows ->
    Forall (fun r =>
              In (Spec.rowTime parseScyllaNote parseScyllaNotification
                    parseScyllaReaction kind r) times
              /\ Spec.rowTime parseScyllaNote parseScyllaNotification
                   parseScyllaReaction kind r < Scylla.cur_untilDate st)
           rows.

Lemma collectRows_last (rows : list Row) (r : Row) :
  last rows = Some r ->
  snd (Scylla.collectRows Row parseScyllaNote parseScyllaNotification
         parseScyllaReaction kind filter rows)
  = Spec.rowTime parseScyllaNote parseScyllaNotification parseScyllaReaction kind r.
Proof.
  intros Hlast. unfold Scylla.collectRows, Spec.rowTime.
  destruct kind; simpl; rewrite last_map, Hlast; reflexivity.
Qed.

Lemma endOfYesterday_before (u : Z) : Scylla.endOfYesterday tzOffset u < u.
Proof.
  unfold Scylla.endOfYesterday, Scylla.msPerDay.
  assert (H : 86400000 * ((u - 86400000 + tzOffset) / 86400000)
              <= u - 86400000 + tzOffset)
    by (apply Z.mul_div_le; lia).
  lia.
Qed.

Local Abbreviation remaining := (Spec.remaining maxPartitions times).

Lemma iteration_decreases (st st' : Scylla.ScanState) :
  Scylla.scannedPartitions st < maxPartitions ->
  iteration st = Scylla.Continue st' ->
  (remaining st' < remaining st)%nat.
Proof.
  intros Hscan. unfold Spec.remaining.
  split_iteration Hpp Hex; intros [= <-];
    cbn [Scylla.cur_untilDate Scylla.scannedPartitions Scylla.withEvent
         Scylla.withUntil Scylla.pushFound];
    pose proof (execute_bounded _ _ _ _ Hpp Hex) as Hrows;
    apply partitionParams_cases in Hpp as (Hu & Hs & _ & _);
    rewrite ?Hu, ?Hs.
  all: try (apply Z.ltb_lt in Hpos;
            destruct (last rows) as [r|] eqn:Hlast;
            [ | apply last_None in Hlast; subst rows; simpl in Hpos; lia ];
            pose proof (collectRows_last rows r Hlast) as Hsnd;
            rewrite Hcol in Hsnd; simpl in Hsnd; subst lastAt;
            assert (Hr : In r rows)
              by (apply list_elem_of_In, last_Some_elem_of; exact Hlast);
            rewrite Forall_forall in Hrows;
            apply list_elem_of_In in Hr;
            destruct (Hrows r Hr) as [Hin Hlt]).
  all: try (pose proof (endOfYesterday_before
                          (Spec.rowTime parseScyllaNote parseScyllaNotification
                             parseScyllaReaction kind r)) as Hy;
            pose proof (countBelow_mono times (Scylla.cur_untilDate st)
                          (Scylla.endOfYesterday tzOffset
                             (Spec.rowTime parseScyllaNote parseScyllaNotification
                                parseScyllaReaction kind r)) ltac:(lia));
            lia).
  all: try (pose proof (endOfYesterday_before (Scylla.cur_untilDate st)) as Hy;
            pose proof (countBelow_mono times (Scylla.cur_untilDate st)
                          (Scylla.endOfYesterday tzOffset (Scylla.cur_untilDate st))
                          ltac:(lia));
            lia).
  all: pose proof (countBelow_strict times (Scylla.cur_untilDate st) _ Hin Hlt); lia.
Qed.

(** With as much fuel as there is left to do, the loop comes to an end. *)
Lemma scanLoop_terminates (fuel : nat) (st : Scylla.ScanState) :
  (remaining st <= fuel)%nat ->
  fst (scanLoop fuel st) <> OutOfFuel.
Proof.
  revert st. induction fuel as [|fuel IH]; intros st Hfuel; simpl.
  - destruct (_ && _) eqn:Hguard; [|discriminate].
    apply andb_true_iff in Hguard as [_ Hscan]. apply Z.ltb_lt in Hscan.
    unfold Spec.remaining in Hfuel. lia.
  - destruct (_ && _) eqn:Hguard; [|discriminate].
    apply andb_true_iff in Hguard as [_ Hscan]. apply Z.ltb_lt in Hscan.
    destruct (iteration st) as [st'|st'|st'] eqn:Hit; simpl; try discriminate.
    apply IH. pose proof (iteration_decreases st st' Hscan Hit). lia.
Qed.

End Termination.
End ScannerFacts.

(** What the budget is when the caller passes none. *)
Lemma defaultMaxPartitions_cases (config_scylla : option ScyllaConfig) :
  Scylla.defaultMaxPartitions config_scylla
  = match config_scylla with
    | Some cfg => default 14 (sparseTimelineDays cfg)
    | None => 14
    end.
Proof. destruct config_scylla; reflexivity. Qed.

(** ** The day-partitioned store *)

Lemma insertDesc_In (r x : DayStore.Stored) (l : list DayStore.Stored) :
  In x (DayStore.insertDesc r l) <-> x = r \/ In x l.
Proof.
  induction l as [|y l IH]; simpl.
  - intuition congruence.
  - destruct (_ <=? _); simpl; [intuition congruence|].
    rewrite IH. intuition congruence.
Qed.

Lemma sortDesc_In (x : DayStore.Stored) (l : list DayStore.Stored) :
  In x (DayStore.sortDesc l) <-> In x l.
Proof.
  unfold DayStore.sortDesc. induction l as [|y l IH]; simpl; [reflexivity|].
  rewrite insertDesc_In, IH. intuition congruence.
Qed.

(** The store answers with rows it holds, inside the bounds it decoded. *)
Lemma DayStore_execute_rows (table : list DayStore.Stored) (q : string)
    (params : list Param) (rows : list DayStore.Stored) :
  DayStore.execute table q params = Some rows ->
  exists sc,
    DayStore.decode q params = Some sc
    /\ Forall (fun r => In r table
                        /\ createdAt (DayStore.stored r) < DayStore.scan_until sc)
              rows.
Proof.
  unfold DayStore.execute. destruct (DayStore.decode q params) as [sc|]; [|discriminate].
  intros [= <-]. exists sc. split; [reflexivity|].
  apply Forall_forall. intros r Hr.
  apply subseteq_take, list_elem_of_In, sortDesc_In, filter_In in Hr as [Hin Hscan].
  split; [exact Hin|].
  unfold DayStore.inScan in Hscan.
  apply andb_true_iff in Hscan as [Hscan _].
  apply andb_true_iff in Hscan as [_ Hscan].
  apply Z.ltb_lt. exact Hscan.
Qed.

(** A statement carries the lower-bound predicate exactly when a lower
    bound was resolved, whatever the feed kind. *)
Lemma statements_since_clause (getTimestamp : string -> Z) (now : Z)
    (kind : FeedType) (ps : PaginationParams) :
  JS.includes
    (Scylla.query
       (Scylla.preparePaginationQuery DayStore.statements getTimestamp now kind ps))
    Scylla.sinceClause
  = match Scylla.sinceDate
            (Scylla.preparePaginationQuery DayStore.statements getTimestamp now kind ps) with
    | Some _ => true
    | None => false
    end.
Proof.
  unfold Scylla.preparePaginationQuery; cbn [Scylla.query Scylla.sinceDate].
  destruct (Scylla.resolveSince getTimestamp ps); destruct kind;
    vm_compute; reflexivity.
Qed.

(** The day-partitioned store meets what the termination argument asks of
    a store: each row of an answer is one of its rows, created strictly
    before the cursor of the pass that asked. *)
Lemma DayStore_bounded (table : list DayStore.Stored) (cfg : ScyllaConfig)
    (getTimestamp : string -> Z) (now : Z) (kind : FeedType)
    (ps : PaginationParams) (userId : option string)
    (st st1 : Scylla.ScanState) (params : list Param)
    (rows : list DayStore.Stored) :
  Scylla.partitionParams kind ps userId st = (Some params, st1) ->
  DayStore.execute table
    (Scylla.query
       (Scylla.preparePaginationQuery DayStore.statements getTimestamp now kind ps))
    (Scylla.boundParams
       (Scylla.preparePaginationQuery DayStore.statements getTimestamp now kind ps)
       (Scylla.fetchLimit (Some cfg) kind ps) params) = Some rows ->
  Forall (fun r =>
            In (Spec.rowTime DayStore.parseNote DayStore.parseNotification
                  DayStore.parseReaction kind r)
               (map (fun r => createdAt (DayStore.stored r)) table)
            /\ Spec.rowTime DayStore.parseNote DayStore.parseNotification
                 DayStore.parseReaction kind r < Scylla.cur_untilDate st)
         rows.
Proof.
  intros Hpp Hex.
  apply DayStore_execute_rows in Hex as (sc & Hdec & Hrows).
  assert (Htime : forall r,
             Spec.rowTime DayStore.parseNote DayStore.parseNotification
               DayStore.parseReaction kind r = createdAt (DayStore.stored r))
    by (intros r; destruct kind; reflexivity).
  assert (Huntil : DayStore.scan_until sc = Scylla.cur_untilDate st).
  { unfold DayStore.decode in Hdec. rewrite statements_since_clause in Hdec.
    unfold Scylla.boundParams in Hdec.
    unfold Scylla.partitionParams in Hpp.
    destruct (Scylla.sinceDate _) as [since|];
      repeat match type of Hpp with
             | context [if ?c then _ else _] => destruct c
             | context [match ?c with Some _ => _ | None => _ end] => destruct c
             | context [let '(_, _) := ?c in _] => destruct c
             end;
      try discriminate Hpp;
      injection Hpp as <- <-; cbn [app] in Hdec;
      injection Hdec as <-; reflexivity. }
  rewrite Forall_forall in Hrows |- *. intros r Hr.
  destruct (Hrows r Hr) as [Hin Hlt]. rewrite Htime, <- Huntil.
  split; [|exact Hlt].
  apply in_map_iff. exists r. split; [reflexivity | exact Hin].
Qed.

(** ** The scanner as a whole *)

Section ExecFacts.

Variable Row : Type.
Variable parseScyllaNote : Row -> ScyllaNote.
Variable parseScyllaNotification : Row -> ScyllaNotification.
Variable parseScyllaReaction : Row -> ScyllaNoteReaction.
Variable config_scylla : option ScyllaConfig.
Variable prepared : Prepared.
Variable execute : string -> list Param -> option (list Row).
Variable getTimestamp : string -> Z.
Variable now tzOffset : Z.

Local Abbreviation exec :=
  (Scylla.execPaginationQuery Row parseScyllaNote parseScyllaNotification
     parseScyllaReaction config_scylla prepared execute getTimestamp now tzOffset).

Local Abbreviation loop :=
  (Scylla.scanLoop Row parseScyllaNote parseScyllaNotification
     parseScyllaReaction config_scylla execute tzOffset).

(** A call either ends before the loop, with nothing in its trace, or
    ends as the loop ends. *)
Lemma execPaginationQuery_state (fuel : nat) (kind : FeedType)
    (ps : PaginationParams) (filter : Filters) (userId : option string)
    (maxPartitions : option Z) :
  (fst (exec fuel kind ps filter userId maxPartitions) <> OutOfFuel
   /\ Scylla.events (snd (exec fuel kind ps filter userId maxPartitions)) = []
   /\ Scylla.scannedPartitions (snd (exec fuel kind ps filter userId maxPartitions)) = 0
   /\ Scylla.cur_userIds (snd (exec fuel kind ps filter userId maxPartitions))
      = ps_userIds ps
   /\ (config_scylla = None \/ Scylla.missingScope kind ps userId <> None))
  \/ (config_scylla <> None
      /\ Scylla.missingScope kind ps userId = None
      /\ snd (exec fuel kind ps filter userId maxPartitions)
         = snd (loop fuel kind ps filter userId
                  (Scylla.preparePaginationQuery prepared getTimestamp now kind ps)
                  (default (Scylla.defaultMaxPartitions config_scylla) maxPartitions)
                  (Scylla.initialState ps
                     (Scylla.preparePaginationQuery prepared getTimestamp now kind ps)))
      /\ (fst (exec fuel kind ps filter userId maxPartitions) = OutOfFuel
          <-> fst (loop fuel kind ps filter userId
                     (Scylla.preparePaginationQuery prepared getTimestamp now kind ps)
                     (default (Scylla.defaultMaxPartitions config_scylla) maxPartitions)
                     (Scylla.initialState ps
                        (Scylla.preparePaginationQuery prepared getTimestamp now kind ps)))
              = OutOfFuel)).
Proof.
  unfold Scylla.execPaginationQuery, Scylla.scyllaClient.
  destruct config_scylla as [cfg|]; simpl;
    [|left; repeat split; [discriminate | left; reflexivity]].
  destruct (Scylla.missingScope kind ps userId) as [message|]; simpl;
    [left; repeat split; [discriminate | right; discriminate]|].
  right. split; [discriminate|]. split; [reflexivity|].
  destruct (Scylla.scanLoop _ _ _ _ _ _ _ _ _ _ _ _ _ _ _) as [[u|message|] st];
    simpl; split; try reflexivity; split; intros H; discriminate H || reflexivity.
Qed.

End ExecFacts.

(** C7, as stated, fails for the list feed: with the query limit at its
    default of 100 and ten rows asked for, the statement sent for the
    popped user is limited to 10. *)
Lemma list_feed_fetches_ps_limit :
  default 100 (queryLimit Examples.defaults) = 100
  /\ Spec.executedLimits
       (Scylla.events
          (snd (DayStore.exec Examples.threeDaysAgo Examples.defaults
                  Examples.today Examples.stamp 3 feed_list
                  Examples.threeUsers noFilters None (Some 1))))
     = [Some (PNumber 10)].
Proof. vm_compute. split; reflexivity. Qed.

(** C7, amended: every statement a call sends carries the same fetch
    limit; for every feed kind but the list feed it is the configured query
    limit (100 when none is configured), whatever [ps.limit] is, and for
    the list feed it is the smaller of [ps.limit] and the query limit. *)
Theorem fetch_limit_is_query_limit_except_list
    (Row : Type) (parseScyllaNote : Row -> ScyllaNote)
    (parseScyllaNotification : Row -> ScyllaNotification)
    (parseScyllaReaction : Row -> ScyllaNoteReaction)
    (config_scylla : option ScyllaConfig) (prepared : Prepared)
    (execute : string -> list Param -> option (list Row))
    (getTimestamp : string -> Z) (now tzOffset : Z) (fuel : nat)
    (kind : FeedType) (ps : PaginationParams) (filter : Filters)
    (userId : option string) (maxPartitions : option Z) :
  Forall (fun l =>
            l = Some (PNumber
                        (if FeedType_eqb kind feed_list
                         then Z.min (ps_limit ps)
                                (default 100 (config_scylla ≫= queryLimit))
                         else default 100 (config_scylla ≫= queryLimit))))
    (Spec.executedLimits
       (Scylla.events
          (snd (Scylla.execPaginationQuery Row parseScyllaNote
                  parseScyllaNotification parseScyllaReaction config_scylla
                  prepared execute getTimestamp now tzOffset fuel kind ps
                  filter userId maxPartitions)))).
Proof.
  destruct (execPaginationQuery_state Row parseScyllaNote parseScyllaNotification
              parseScyllaReaction config_scylla prepared execute getTimestamp
              now tzOffset fuel kind ps filter userId maxPartitions)
    as [(_ & -> & _) | (_ & _ & -> & _)]; [constructor|].
  apply scanLoop_limits. constructor.
Qed.

Lemma filter_none {A} (f : A -> bool) (l : list A) :
  (forall x, In x l -> f x = false) -> List.filter f l = [].
Proof.
  induction l as [|x l IH]; intros H; simpl; [reflexivity|].
  rewrite (H x (or_introl eq_refl)). apply IH. intros y Hy. apply H. right. exact Hy.
Qed.

Lemma dayOf_endOfYesterday (u : Z) :
  DayStore.dayOf (Scylla.endOfYesterday 0 u) = DayStore.dayOf u - 1.
Proof.
  unfold DayStore.dayOf, Scylla.endOfYesterday, Scylla.msPerDay.
  Z.div_mod_to_equations. lia.
Qed.

(** A pass over a day of the home feed that holds no row of the viewer
    gives that day up and goes on. *)
Lemma iteration_empty_day (table : list DayStore.Stored) (cfg : ScyllaConfig)
    (stamp : string -> Z) (now : Z) (uid : string) (ps : PaginationParams)
    (filter : Filters) (st : Scylla.ScanState) :
  JS.truthy_string (Some uid) = true ->
  ps_sinceId ps = None ->
  ps_sinceDate ps = None ->
  0 < default 100 (queryLimit cfg) ->
  (forall r, In r table -> DayStore.feedKey r = uid ->
     DayStore.dayOf (createdAt (DayStore.stored r))
     <> DayStore.dayOf (Scylla.cur_untilDate st)) ->
  Scylla.iteration DayStore.Stored DayStore.parseNote DayStore.parseNotification
    DayStore.parseReaction (Some cfg) (DayStore.execute table) 0 feed_home ps
    filter (Some uid)
    (Scylla.preparePaginationQuery DayStore.statements stamp now feed_home ps) st
  = Scylla.Continue
      {| Scylla.cur_untilDate := Scylla.endOfYesterday 0 (Scylla.cur_untilDate st);
         Scylla.scannedPartitions := Scylla.scannedPartitions st + 1;
         Scylla.found := Scylla.found st;
         Scylla.cur_userIds := Scylla.cur_userIds st;
         Scylla.events :=
           (Scylla.events st
            ++ [EvExecute
                  (Scylla.query
                     (Scylla.preparePaginationQuery DayStore.statements stamp now
                        feed_home ps))
                  [PString uid; PDate (Scylla.cur_untilDate st);
                   PDate (Scylla.cur_untilDate st);
                   PNumber (default 100 (queryLimit cfg))]])
           ++ [EvPartitionEnd (Scylla.endOfYesterday 0 (Scylla.cur_untilDate st))] |}.
Proof.
  intros Huid HsinceId HsinceDate Hlimit Hempty.
  pose proof (statements_since_clause stamp now feed_home ps) as Hclause.
  assert (Hsince :
    Scylla.sinceDate
      (Scylla.preparePaginationQuery DayStore.statements stamp now feed_home ps) = None).
  { unfold Scylla.preparePaginationQuery, Scylla.resolveSince; simpl.
    rewrite HsinceId, HsinceDate. reflexivity. }
  rewrite Hsince in Hclause.
  assert (Hexec :
    DayStore.execute table
      (Scylla.query
         (Scylla.preparePaginationQuery DayStore.statements stamp now feed_home ps))
      [PString uid; PDate (Scylla.cur_untilDate st);
       PDate (Scylla.cur_untilDate st); PNumber (default 100 (queryLimit cfg))]
    = Some []).
  { unfold DayStore.execute, DayStore.decode. rewrite Hclause.
    rewrite filter_none; [rewrite firstn_nil; reflexivity|].
    intros r Hin. unfold DayStore.inScan. cbn [DayStore.scan_key DayStore.scan_day].
    destruct (String.eqb_spec (DayStore.feedKey r) uid) as [Hkey|Hkey]; [|reflexivity].
    destruct (Z.eqb_spec (DayStore.dayOf (createdAt (DayStore.stored r)))
                (DayStore.dayOf (Scylla.cur_untilDate st))) as [Hday|Hday];
      [|reflexivity].
    destruct (Hempty r Hin Hkey Hday). }
  unfold Scylla.iteration, Scylla.partitionParams.
  cbn [FeedType_eqb andb]. rewrite Huid.
  unfold Scylla.boundParams, Scylla.fetchLimit. rewrite Hsince.
  cbn [FeedType_eqb app mbind option_bind default id]. rewrite Hexec.
  change (Z.of_nat (length (@nil DayStore.Stored))) with 0.
  change (0 <? 0) with false.
  destruct (Z.ltb_spec 0 (default 100 (queryLimit cfg))) as [_|Hge]; [|lia].
  reflexivity.
Qed.

(** The scenario of C4 for every store: when the two most recent days of
    the viewer's home feed, counted from the cursor, hold no row, a scan
    with a budget of two partitions and no lower bound returns nothing
    after giving up exactly two partitions, whatever older days hold. *)
Lemma scan_two_empty_days (table : list DayStore.Stored) (cfg : ScyllaConfig)
    (stamp : string -> Z) (now : Z) (uid : string) (ps : PaginationParams)
    (filter : Filters) (fuel : nat) :
  JS.truthy_string (Some uid) = true ->
  ps_sinceId ps = None ->
  ps_sinceDate ps = None ->
  0 < ps_limit ps ->
  0 < default 100 (queryLimit cfg) ->
  (forall r, In r table -> DayStore.feedKey r = uid ->
     DayStore.dayOf (createdAt (DayStore.stored r))
     <> DayStore.dayOf (Scylla.resolveUntil stamp now ps)
     /\ DayStore.dayOf (createdAt (DayStore.stored r))
        <> DayStore.dayOf (Scylla.resolveUntil stamp now ps) - 1) ->
  (2 <= fuel)%nat ->
  fst (DayStore.exec table cfg now stamp fuel feed_home ps filter (Some uid) (Some 2))
  = Returned []
  /\ Spec.partitionEnds
       (Scylla.events
          (snd (DayStore.exec table cfg now stamp fuel feed_home ps filter
                  (Some uid) (Some 2)))) = 2%nat.
Proof.
  intros Huid HsinceId HsinceDate Hlimit Hql Hempty Hfuel.
  destruct fuel as [|[|fuel]]; [lia | lia |].
  assert (Hfound : Scylla.foundLimit feed_home ps = ps_limit ps)
    by (unfold Scylla.foundLimit; destruct (ps_userIds ps); reflexivity).
  assert (Hlt : (Z.of_nat (length (@nil FeedRow)) <? ps_limit ps) = true)
    by (apply Z.ltb_lt; simpl; lia).
  assert (Hrun : exists st,
    Scylla.scanLoop DayStore.Stored DayStore.parseNote DayStore.parseNotification
      DayStore.parseReaction (Some cfg) (DayStore.execute table) 0 (S (S fuel))
      feed_home ps filter (Some uid)
      (Scylla.preparePaginationQuery DayStore.statements stamp now feed_home ps) 2
      (Scylla.initialState ps
         (Scylla.preparePaginationQuery DayStore.statements stamp now feed_home ps))
    = (Returned tt, st)
    /\ Scylla.found st = []
    /\ Spec.partitionEnds (Scylla.events st) = 2%nat).
  { rewrite scanLoop_step
      by (cbn [Scylla.initialState Scylla.found Scylla.scannedPartitions];
          rewrite Hfound, Hlt; reflexivity).
    rewrite (iteration_empty_day table cfg stamp now uid ps filter _
               Huid HsinceId HsinceDate Hql)
      by (intros r Hin Hkey; apply (Hempty r Hin Hkey)).
    cbn [Scylla.initialState Scylla.cur_untilDate Scylla.scannedPartitions
         Scylla.found Scylla.cur_userIds Scylla.events app].
    rewrite scanLoop_step
      by (cbn [Scylla.found Scylla.scannedPartitions];
          rewrite Hfound, Hlt; reflexivity).
    rewrite (iteration_empty_day table cfg stamp now uid ps filter _
               Huid HsinceId HsinceDate Hql).
    - cbn [Scylla.cur_untilDate Scylla.scannedPartitions
           Scylla.found Scylla.cur_userIds Scylla.events app].
      rewrite scanLoop_done
        by (cbn [Scylla.found Scylla.scannedPartitions];
            rewrite Hfound, Hlt; reflexivity).
      eexists. split; [reflexivity|]. split; reflexivity.
    - intros r Hin Hkey. cbn [Scylla.cur_untilDate]. rewrite dayOf_endOfYesterday.
      apply (Hempty r Hin Hkey). }
  destruct Hrun as (st & Hrun & Hnone & Hends).
  unfold DayStore.exec, Scylla.execPaginationQuery, Scylla.scyllaClient,
    Scylla.missingScope.
  cbn [negb]. rewrite Huid. cbn [negb default id]. rewrite Hrun.
  cbn [fst snd]. rewrite Hnone, Hends. split; reflexivity.
Qed.



(** C10: a call for the list feed that enters its loop pops ids off the
    array the caller passed: when it returns, that array is what is left
    in front of the popped ids, so it is not the array that was passed;
    each statement sent went to one of the popped ids, and the loop comes
    to an end by itself as the array runs out. *)
Theorem list_feed_pops_caller_userIds
    (Row : Type) (parseScyllaNote : Row -> ScyllaNote)
    (parseScyllaNotification : Row -> ScyllaNotification)
    (parseScyllaReaction : Row -> ScyllaNoteReaction)
    (config_scylla : option ScyllaConfig) (prepared : Prepared)
    (execute : string -> list Param -> option (list Row))
    (getTimestamp : string -> Z) (now tzOffset : Z) (fuel : nat)
    (ps : PaginationParams) (filter : Filters)
    (userId : option string) (maxPartitions : option Z) (ids : list string) :
  config_scylla <> None ->
  ps_userIds ps = Some ids ->
  ids <> [] ->
  0 < ps_limit ps ->
  0 < default (Scylla.defaultMaxPartitions config_scylla) maxPartitions ->
  (length ids < fuel)%nat ->
  fst (Scylla.execPaginationQuery Row parseScyllaNote parseScyllaNotification
         parseScyllaReaction config_scylla prepared execute getTimestamp now
         tzOffset fuel feed_list ps filter userId maxPartitions) <> OutOfFuel
  /\ Spec.consumedFrom ids
       (snd (Scylla.execPaginationQuery Row parseScyllaNote
               parseScyllaNotification parseScyllaReaction config_scylla
               prepared execute getTimestamp now tzOffset fuel feed_list ps
               filter userId maxPartitions))
  /\ Spec.poppedIds
       (Scylla.events
          (snd (Scylla.execPaginationQuery Row parseScyllaNote
                  parseScyllaNotification parseScyllaReaction config_scylla
                  prepared execute getTimestamp now tzOffset fuel feed_list ps
                  filter userId maxPartitions))) <> []
  /\ Scylla.cur_userIds
       (snd (Scylla.execPaginationQuery Row parseScyllaNote
               parseScyllaNotification parseScyllaReaction config_scylla
               prepared execute getTimestamp now tzOffset fuel feed_list ps
               filter userId maxPartitions)) <> Some ids.
Proof.
  intros Hcfg Hids Hne Hlimit Hbudget Hfuel.
  assert (Hscope : Scylla.missingScope feed_list ps userId = None)
    by (unfold Scylla.missingScope; rewrite Hids; destruct ids; [contradiction | reflexivity]).
  destruct (execPaginationQuery_state Row parseScyllaNote parseScyllaNotification
              parseScyllaReaction config_scylla prepared execute getTimestamp
              now tzOffset fuel feed_list ps filter userId maxPartitions)
    as [(_ & _ & _ & _ & [H | H]) | (_ & _ & -> & Hout)];
    [contradiction | contradiction |].
  set (pq := Scylla.preparePaginationQuery prepared getTimestamp now feed_list ps) in *.
  set (budget := default (Scylla.defaultMaxPartitions config_scylla) maxPartitions) in *.
  assert (Hinit : Scylla.cur_userIds (Scylla.initialState ps pq) = Some ids)
    by exact Hids.
  assert (Hconsumed :
    Spec.consumedFrom ids
      (snd (Scylla.scanLoop Row parseScyllaNote parseScyllaNotification
              parseScyllaReaction config_scylla execute tzOffset fuel feed_list
              ps filter userId pq budget (Scylla.initialState ps pq)))).
  { apply scanLoop_consumes; [reflexivity|].
    exists ids. split; [exact Hinit|]. split; [simpl; rewrite app_nil_r; reflexivity|].
    constructor. }
  assert (Hpopped :
    Spec.poppedIds
      (Scylla.events
         (snd (Scylla.scanLoop Row parseScyllaNote parseScyllaNotification
                 parseScyllaReaction config_scylla execute tzOffset fuel feed_list
                 ps filter userId pq budget (Scylla.initialState ps pq)))) <> []).
  { apply (scanLoop_list_pops Row parseScyllaNote parseScyllaNotification
             parseScyllaReaction config_scylla execute tzOffset feed_list ps
             filter userId pq budget fuel (Scylla.initialState ps pq) ids);
      try assumption; try reflexivity; try lia.
    unfold Scylla.foundLimit. rewrite Hids. simpl.
    destruct ids; [contradiction|]. simpl length. nia. }
  split; [|split; [exact Hconsumed | split; [exact Hpopped|]]].
  - intros H. apply Hout in H. revert H.
    apply (scanLoop_list_terminates Row parseScyllaNote parseScyllaNotification
             parseScyllaReaction config_scylla execute tzOffset feed_list ps
             filter userId pq budget fuel (Scylla.initialState ps pq) ids);
      [reflexivity | exact Hinit | exact Hfuel].
  - destruct Hconsumed as (rest & Hrest & Hsplit & _). rewrite Hrest.
    intros [= ->]. apply Hpopped.
    apply (f_equal (@length string)) in Hsplit.
    rewrite length_app, length_rev in Hsplit.
    destruct (Spec.poppedIds _); [reflexivity | simpl in Hsplit; lia].
Qed.

(** A witness for C10: three users are passed, and after the call the
    array is empty. *)
Lemma list_feed_pops_caller_userIds_witness :
  Scylla.cur_userIds
    (snd (DayStore.exec Examples.threeDaysAgo Examples.defaults Examples.today
            Examples.stamp 4 feed_list Examples.threeUsers noFilters None
            (Some 4))) = Some []
  /\ Scylla.cur_userIds
       (snd (DayStore.exec Examples.threeDaysAgo Examples.defaults Examples.today
               Examples.stamp 4 feed_list Examples.threeUsers noFilters None
               (Some 4))) <> Some ["a"; "b"; "v"].
Proof.
  split; [vm_compute; reflexivity|].
  assert (Hcfg : Some Examples.defaults <> None) by discriminate.
  assert (Hne : ["a"; "b"; "v"] <> @nil string) by discriminate.
  assert (Hlimit : 0 < ps_limit Examples.threeUsers) by (vm_compute; reflexivity).
  assert (Hbudget :
    0 < default (Scylla.defaultMaxPartitions (Some Examples.defaults)) (Some 4))
    by (vm_compute; reflexivity).
  assert (Hfuel : (length ["a"; "b"; "v"] < 4)%nat) by (simpl; lia).
  pose proof (list_feed_pops_caller_userIds DayStore.Stored DayStore.parseNote
                DayStore.parseNotification DayStore.parseReaction
                (Some Examples.defaults) DayStore.statements
                (DayStore.execute Examples.threeDaysAgo) Examples.stamp Examples.today 0
                4%nat Examples.threeUsers noFilters None (Some 4) ["a"; "b"; "v"]
                Hcfg eq_refl Hne Hlimit Hbudget Hfuel) as (_ & _ & _ & H).
  exact H.
Defined.

(** ** The home-timeline endpoint *)

Section TimelineFacts.

Variable Packed : Type.
Variable packMany : list ScyllaNote -> list Packed.
Variable execHome : PaginationParams -> Outcome (list ScyllaNote).
Variable getMany : Z -> Z -> option (list ScyllaNote).

Lemma slice_length {A} (l : list A) (n : Z) :
  0 <= n -> Z.of_nat (length (Timeline.slice l n)) <= n.
Proof.
  intros Hn. unfold Timeline.slice.
  pose proof (firstn_le_length (Z.to_nat n) l). lia.
Qed.

Lemma scyllaPath_length (fuel : nat) (ps : PaginationParams) (found : list Packed) :
  0 <= ps_limit ps ->
  Timeline.scyllaPath Packed packMany execHome fuel ps = Returned found ->
  Z.of_nat (length found) <= ps_limit ps.
Proof.
  intros Hlimit. unfold Timeline.scyllaPath.
  destruct (Timeline.scyllaLoop _ _ _ _ _ _) as [l|m|]; try discriminate.
  intros [= <-]. apply slice_length. exact Hlimit.
Qed.

Lemma relationalPath_length (fuel : nat) (ps : PaginationParams) (found : list Packed) :
  0 <= ps_limit ps ->
  Timeline.relationalPath Packed packMany getMany fuel ps = Returned found ->
  Z.of_nat (length found) <= ps_limit ps.
Proof.
  intros Hlimit. unfold Timeline.relationalPath.
  destruct (Timeline.relationalLoop _ _ _ _ _ _ _) as [l|m|]; try discriminate.
  intros [= <-]. destruct (Z.ltb_spec (ps_limit ps) (Z.of_nat (length l))).
  - apply slice_length. exact Hlimit.
  - assumption.
Qed.

Lemma setUntilDate_limit (ps : PaginationParams) (d : Z) :
  ps_limit (Timeline.setUntilDate ps d) = ps_limit ps.
Proof. reflexivity. Qed.

(** The partitioned-store loop ends when every call of the scan ends and
    yields rows of a finite stock created strictly before the cursor it
    was given. *)
Lemma scyllaLoop_terminates (stock : list Z) :
  (forall ps, execHome ps <> OutOfFuel) ->
  (forall ps rows n, execHome ps = Returned rows -> In n rows ->
     In (createdAt n) stock
     /\ forall d, ps_untilDate ps = Some d -> createdAt n < d) ->
  forall fuel ps foundPacked,
    1 <= ps_limit ps ->
    (Spec.stockBelow stock ps < fuel)%nat ->
    Timeline.scyllaLoop Packed packMany execHome fuel ps foundPacked <> OutOfFuel.
Proof.
  intros Hends Hstock.
  induction fuel as [|fuel IH]; intros ps foundPacked Hlimit Hfuel; [lia|].
  simpl. destruct (_ <? _); [|discriminate].
  destruct (execHome ps) as [rows|m|] eqn:Hscan;
    [|discriminate | destruct (Hends ps Hscan)].
  destruct (Z.ltb_spec (Z.of_nat (length (Timeline.slice rows (Timeline.overFetch ps))))
              (ps_limit ps)) as [Hshort|Hfull]; [discriminate|].
  destruct (last (Timeline.slice rows (Timeline.overFetch ps))) as [n|] eqn:Hlast.
  - simpl. apply IH; [rewrite setUntilDate_limit; exact Hlimit|].
    assert (Hin : In n rows).
    { apply list_elem_of_In. apply (subseteq_take (Z.to_nat (Timeline.overFetch ps))).
      apply last_Some_elem_of. exact Hlast. }
    destruct (Hstock ps rows n Hscan Hin) as [Hn Hbefore].
    unfold Spec.stockBelow in *. cbn [ps_untilDate Timeline.setUntilDate].
    destruct (ps_untilDate ps) as [d|].
    + pose proof (countBelow_strict stock d (createdAt n) Hn (Hbefore d eq_refl)). lia.
    + assert (Spec.countBelow stock (createdAt n) <= length stock)%nat
        by (unfold Spec.countBelow; apply filter_length_le).
      lia.
  - apply last_None in Hlast. rewrite Hlast in Hfull. simpl in Hfull. lia.
Qed.

End TimelineFacts.

(** The relational loop ends once it has paged through the table. *)
Lemma relationalLoop_terminates (Packed : Type)
    (packMany : list ScyllaNote -> list Packed) (table : list ScyllaNote)
    (fuel : nat) (ps : PaginationParams) (skip : Z) (found : list Packed) :
  1 <= ps_limit ps ->
  0 <= skip ->
  (length table - Z.to_nat skip < fuel)%nat ->
  exists l,
    Timeline.relationalLoop Packed packMany (Timeline.pageOf table) fuel ps skip found
    = Returned l.
Proof.
  intros Hlimit. revert skip found.
  induction fuel as [|fuel IH]; intros skip found Hskip Hfuel; [lia|].
  simpl. destruct (_ <? _); [|eauto].
  assert (Htake : 1 <= Timeline.overFetch ps).
  { unfold Timeline.overFetch. apply Z.div_le_lower_bound; lia. }
  destruct (Z.ltb_spec
              (Z.of_nat (length (firstn (Z.to_nat (Timeline.overFetch ps))
                                   (skipn (Z.to_nat skip) table))))
              (Timeline.overFetch ps)) as [Hshort|Hfull]; [eauto|].
  apply IH; [lia|].
  rewrite length_firstn, length_skipn in Hfull. lia.
Qed.

(** C5: for a limit between 1 and 100 the sequence the handler returns
    has at most that many rows, on the partitioned-store path and on the
    relational path alike; the relational path does return once it has
    paged through a finite table, and the partitioned-store path comes to
    an end when each scan ends and yields rows of a finite stock from
    strictly before its cursor. *)
Theorem timeline_returns_at_most_limit
    (Packed : Type) (packMany : list ScyllaNote -> list Packed)
    (execHome : PaginationParams -> Outcome (list ScyllaNote))
    (getMany : Z -> Z -> option (list ScyllaNote))
    (scyllaClient : bool) (fuel : nat) (ps : PaginationParams) :
  1 <= ps_limit ps <= 100 ->
  (forall found,
      Timeline.timeline Packed packMany execHome getMany scyllaClient fuel ps
      = Returned found ->
      Z.of_nat (length found) <= ps_limit ps)
  /\ (forall table,
        (length table < fuel)%nat ->
        exists found,
          Timeline.timeline Packed packMany execHome (Timeline.pageOf table)
            false fuel ps = Returned found
          /\ Z.of_nat (length found) <= ps_limit ps)
  /\ (forall stock,
        (forall ps', execHome ps' <> OutOfFuel) ->
        (forall ps' rows n, execHome ps' = Returned rows -> In n rows ->
           In (createdAt n) stock
           /\ forall d, ps_untilDate ps' = Some d -> createdAt n < d) ->
        (Spec.stockBelow stock ps < fuel)%nat ->
        Timeline.timeline Packed packMany execHome getMany true fuel ps
        <> OutOfFuel).
Proof.
  intros [Hlow Hhigh]. split; [|split].
  - intros found. unfold Timeline.timeline. destruct scyllaClient.
    + apply scyllaPath_length. lia.
    + apply relationalPath_length. lia.
  - intros table Hfuel. unfold Timeline.timeline.
    destruct (relationalLoop_terminates Packed packMany table fuel ps 0 []
                Hlow ltac:(lia) ltac:(simpl; lia)) as [l Hl].
    pose proof (relationalPath_length Packed packMany (Timeline.pageOf table)
                  fuel ps) as Hlen.
    unfold Timeline.relationalPath in *. rewrite Hl in *.
    eexists. split; [reflexivity|]. apply Hlen; [lia | reflexivity].
  - intros stock Hends Hstock Hfuel. unfold Timeline.timeline, Timeline.scyllaPath.
    pose proof (scyllaLoop_terminates Packed packMany execHome stock Hends Hstock
                  fuel ps [] Hlow Hfuel) as Hloop.
    destruct (Timeline.scyllaLoop _ _ _ _ _ _); [discriminate | discriminate | contradiction].
Qed.

(** A witness for C5: two rows asked for of a feed of three. *)
Lemma timeline_returns_at_most_limit_witness :
  Z.of_nat (length (firstn 2 Examples.homeNotes)) <= 2
  /\ Timeline.timeline ScyllaNote (fun notes => notes) Examples.scanHome
       (Timeline.pageOf Examples.homeNotes) true 5 Examples.twoRows
     <> OutOfFuel.
Proof.
  pose proof (timeline_returns_at_most_limit ScyllaNote (fun notes => notes)
                Examples.scanHome (Timeline.pageOf Examples.homeNotes) true 5
                Examples.twoRows ltac:(simpl; lia)) as (Hlen & _ & Hends).
  split.
  - apply Hlen. vm_compute. reflexivity.
  - apply (Hends [3000; 2000; 1000]).
    + discriminate.
    + intros ps' rows n Hret Hin.
      assert (Hrows :
        rows = List.filter
                 (fun n => match ps_untilDate ps' with
                           | Some d => createdAt n <? d
                           | None => true
                           end)
                 Examples.homeNotes)
        by (unfold Examples.scanHome in Hret; congruence).
      rewrite Hrows in Hin. apply filter_In in Hin as [Hin Hd]. split.
      * simpl in Hin. destruct Hin as [<- | [<- | [<- | []]]]; simpl; tauto.
      * intros d Hsome. rewrite Hsome in Hd. apply Z.ltb_lt. exact Hd.
    + vm_compute. lia.
Defined.

(** ** The feed filters *)

Lemma filter_filter {A} (f g : A -> bool) (l : list A) :
  List.filter f (List.filter g l) = List.filter (fun x => g x && f x) l.
Proof.
  induction l as [|x l IH]; [reflexivity|]. simpl.
  destruct (g x); simpl; [destruct (f x)|]; rewrite IH; reflexivity.
Qed.

Lemma filter_all {A} (f : A -> bool) (l : list A) :
  (forall x, In x l -> f x = true) -> List.filter f l = l.
Proof.
  intros H. apply forallb_filter_id. apply forallb_forall. exact H.
Qed.

Lemma arrayIncludes_app (a b : list string) (x : string) :
  JS.arrayIncludes (a ++ b) x = JS.arrayIncludes a x || JS.arrayIncludes b x.
Proof. apply existsb_app. Qed.

Lemma knownIn_app (a b : list string) (x : option string) :
  Feed.knownIn (a ++ b) x = Feed.knownIn a x || Feed.knownIn b x.
Proof.
  unfold Feed.knownIn, Feed.includesOpt. destruct x as [x|]; simpl.
  - rewrite arrayIncludes_app. destruct (negb _); reflexivity.
  - reflexivity.
Qed.

Lemma knownIn_nil (x : option string) : Feed.knownIn [] x = false.
Proof.
  unfold Feed.knownIn. destruct x; simpl; [apply andb_false_r | reflexivity].
Qed.

(** X1: the channel filter keeps a row exactly when it is outside every
    channel or in a channel the viewer follows, the anonymous viewer
    counting as one who follows no channel; the shortcut taken when the
    batch has no channel row at all changes nothing. *)
Theorem filterChannel_keeps_followed_channels
    (notes : list ScyllaNote) (user : option string) (followingIds : list string) :
  Feed.filterChannel notes user followingIds
  = List.filter
      (fun note =>
         negb (JS.truthy_string (channelId note))
         || Feed.includesOpt
              (match user with Some _ => followingIds | None => [] end)
              (channelId note))
      notes.
Proof.
  unfold Feed.filterChannel. destruct user as [me|].
  - destruct (0 <? length _)%nat eqn:Hany; [reflexivity|].
    apply Nat.ltb_ge in Hany. symmetry. apply filter_all. intros n Hn.
    destruct (JS.truthy_string (channelId n)) eqn:Hch; [|reflexivity].
    assert (Hin : In n (List.filter (fun note => JS.truthy_string (channelId note)) notes))
      by (apply filter_In; split; assumption).
    destruct (List.filter _ notes); [destruct Hin | simpl in Hany; lia].
  - apply filter_ext. intros n. unfold Feed.includesOpt.
    destruct (channelId n); simpl; [symmetry; apply orb_false_r | reflexivity].
Qed.

(** X2: with replies switched on, a signed-in viewer's batch passes the
    reply filter unchanged; and what the anonymous reply filter keeps is
    what it keeps of the rows a signed-in viewer is shown with replies
    switched off, so an anonymous viewer is never shown a reply that a
    signed-in one is not. *)
Theorem filterReply_anonymous_sees_no_more
    (notes : list ScyllaNote) (me : string) (withReplies : bool) :
  Feed.filterReply notes true (Some me) = notes
  /\ Feed.filterReply (Feed.filterReply notes false (Some me)) withReplies None
     = Feed.filterReply notes withReplies None
  /\ incl (Feed.filterReply notes withReplies None)
          (Feed.filterReply notes false (Some me)).
Proof.
  assert (Hsub : Feed.filterReply (Feed.filterReply notes false (Some me)) withReplies None
                 = Feed.filterReply notes withReplies None).
  { unfold Feed.filterReply. simpl. rewrite filter_filter. apply filter_ext.
    intros n.
    destruct (negb (JS.truthy_string (replyId n))),
             (JS.strictEqOpt (replyUserId n) me),
             (String.eqb (userId n) me),
             (JS.strictEqOpt (replyUserId n) (userId n)); reflexivity. }
  split; [reflexivity | split; [exact Hsub|]].
  rewrite <- Hsub. unfold Feed.filterReply at 1. apply incl_filter.
Qed.

(** X3: blocking is muting without instances and without an exception,
    and muting first and blocking afterwards is muting the users of both
    lists at once. *)
Theorem filterBlockUser_is_mute_of_users
    (notes : list ScyllaNote) (mutedIds mutedInstances blockIds : list string) :
  Feed.filterBlockUser notes blockIds = Feed.filterMutedUser notes blockIds [] None
  /\ Feed.filterBlockUser (Feed.filterMutedUser notes mutedIds mutedInstances None)
       blockIds
     = Feed.filterMutedUser notes (mutedIds ++ blockIds) mutedInstances None.
Proof.
  unfold Feed.filterBlockUser, Feed.filterMutedUser. split.
  - apply filter_ext. intros n. rewrite !knownIn_nil. simpl.
    rewrite !andb_true_r. reflexivity.
  - rewrite filter_filter. apply filter_ext. intros n.
    rewrite arrayIncludes_app, !knownIn_app.
    destruct (JS.arrayIncludes mutedIds (userId n)),
             (JS.arrayIncludes blockIds (userId n)),
             (Feed.knownIn mutedIds (replyUserId n)),
             (Feed.knownIn blockIds (replyUserId n)),
             (Feed.knownIn mutedIds (renoteUserId n)),
             (Feed.knownIn blockIds (renoteUserId n)),
             (Feed.knownIn mutedInstances (userHost n)),
             (Feed.knownIn mutedInstances (replyUserHost n)),
             (Feed.knownIn mutedInstances (renoteUserHost n)); reflexivity.
Qed.

Lemma arrayIncludes_filter_ne (l : list string) (ex x : string) :
  JS.arrayIncludes (List.filter (fun id => negb (String.eqb id ex)) l) x
  = JS.arrayIncludes l x && negb (String.eqb x ex).
Proof.
  unfold JS.arrayIncludes. induction l as [|y l IH]; [reflexivity|]. simpl.
  destruct (String.eqb y ex) eqn:Hy; simpl; rewrite IH.
  - apply String.eqb_eq in Hy. subst y.
    destruct (String.eqb x ex); simpl; [apply andb_false_r | reflexivity].
  - destruct (String.eqb x y) eqn:Hxy; simpl; [|reflexivity].
    apply String.eqb_eq in Hxy. subst y. rewrite Hy. reflexivity.
Qed.

(** X4: no row that passes the mute filter was written by a muted user,
    unless that user is the one the call exempts; a note of the exempted
    user that replies to nobody, renotes nobody and comes from no muted
    instance always passes; and exempting a user who is not muted changes
    nothing. *)
Theorem filterMutedUser_exempts_only_the_excluded
    (notes : list ScyllaNote) (mutedIds mutedInstances : list string)
    (exclude : option string) :
  (forall n,
      In n (Feed.filterMutedUser notes mutedIds mutedInstances exclude) ->
      In (userId n) mutedIds -> exclude = Some (userId n))
  /\ (forall n,
        In n notes -> exclude = Some (userId n) ->
        replyUserId n = None -> renoteUserId n = None ->
        Feed.knownIn mutedInstances (userHost n) = false ->
        replyUserHost n = None -> renoteUserHost n = None ->
        In n (Feed.filterMutedUser notes mutedIds mutedInstances exclude))
  /\ (forall excluded,
        ~ In excluded mutedIds ->
        Feed.filterMutedUser notes mutedIds mutedInstances (Some excluded)
        = Feed.filterMutedUser notes mutedIds mutedInstances None).
Proof.
  split; [|split].
  - intros n Hin Hmuted. unfold Feed.filterMutedUser in Hin.
    apply filter_In in Hin as [_ Hkeep].
    rewrite !andb_true_iff in Hkeep. destruct Hkeep as [[[[[Hauthor _] _] _] _] _].
    apply negb_true_iff in Hauthor.
    assert (Hinc : JS.arrayIncludes mutedIds (userId n) = true)
      by (apply arrayIncludes_In; exact Hmuted).
    destruct exclude as [ex|].
    + rewrite arrayIncludes_filter_ne, Hinc in Hauthor. simpl in Hauthor.
      apply negb_false_iff, String.eqb_eq in Hauthor. congruence.
    + congruence.
  - intros n Hin -> Hr Hrn Hh Hrh Hrnh. unfold Feed.filterMutedUser.
    apply filter_In. split; [exact Hin|].
    rewrite arrayIncludes_filter_ne, String.eqb_refl, Hr, Hrn, Hh, Hrh, Hrnh.
    simpl. rewrite andb_false_r. reflexivity.
  - intros ex Hex. unfold Feed.filterMutedUser.
    replace (List.filter (fun id => negb (String.eqb id ex)) mutedIds)
      with mutedIds; [reflexivity|].
    symmetry. apply filter_all. intros id Hid.
    apply negb_true_iff, String.eqb_neq. intros Heq. subst id. exact (Hex Hid).
Qed.

(** ** Attachment URLs *)

(** X5: the plain URL of a file is always its [url]; its thumbnail URL is
    the stored thumbnail when there is one that is not empty, else the
    file's own URL when its type is one of the seven image types, and
    [null] exactly when there is no stored thumbnail and the file is no
    image. *)
Theorem getScyllaDrivePublicUrl_null_only_for_non_images (file : Drive.FileUrls) :
  Drive.getScyllaDrivePublicUrl file false = Some (Drive.url file)
  /\ (Drive.getScyllaDrivePublicUrl file true = None
      <-> JS.truthy_string (Drive.thumbnailUrl file) = false
          /\ ~ In (Drive.type file) Drive.imageTypes)
  /\ (forall u,
        Drive.getScyllaDrivePublicUrl file true = Some u ->
        (Drive.thumbnailUrl file = Some u /\ u <> "")
        \/ (JS.truthy_string (Drive.thumbnailUrl file) = false
            /\ u = Drive.url file /\ In (Drive.type file) Drive.imageTypes)).
Proof.
  assert (Himage :
    JS.truthy_string (Some (Drive.type file))
    && JS.arrayIncludes Drive.imageTypes (Drive.type file) = true
    <-> In (Drive.type file) Drive.imageTypes).
  { rewrite andb_true_iff, arrayIncludes_In. split; [tauto|].
    intros Hin. split; [|exact Hin]. simpl. apply negb_true_iff, String.eqb_neq.
    intros Hempty. rewrite Hempty in Hin. simpl in Hin.
    repeat (destruct Hin as [Hin|Hin]; [discriminate|]). exact Hin. }
  unfold Drive.getScyllaDrivePublicUrl.
  split; [reflexivity | split].
  - destruct (JS.truthy_string (Drive.thumbnailUrl file)) eqn:Hthumb.
    + split; [|intros [? _]; discriminate].
      destruct (Drive.thumbnailUrl file); [discriminate | simpl in Hthumb; discriminate].
    + destruct (_ && _) eqn:Himg.
      * split; [discriminate|]. intros [_ Hno]. exfalso. apply Hno, Himage. reflexivity.
      * split; [|reflexivity]. intros _. split; [reflexivity|].
        intros Hin. apply Himage in Hin. congruence.
  - intros u. destruct (JS.truthy_string (Drive.thumbnailUrl file)) eqn:Hthumb.
    + intros Hu. left. split; [exact Hu|]. rewrite Hu in Hthumb. simpl in Hthumb.
      apply negb_true_iff, String.eqb_neq in Hthumb. exact Hthumb.
    + destruct (_ && _) eqn:Himg; [|discriminate].
      intros [= <-]. right. split; [reflexivity | split; [reflexivity|]].
      apply Himage. reflexivity.
Qed.

(** ** Polls *)

Lemma bump_lookup (counts : gmap Z Z) (c i : Z) :
  Poll.bump counts c !! i
  = if decide (c = i) then Z.succ <$> counts !! i else counts !! i.
Proof.
  unfold Poll.bump. destruct (counts !! c) as [n|] eqn:Hc.
  - destruct (decide (c = i)) as [<-|Hne].
    + rewrite lookup_insert_eq, Hc. reflexivity.
    + rewrite lookup_insert_ne by exact Hne. reflexivity.
  - destruct (decide (c = i)) as [<-|Hne]; [rewrite Hc|]; reflexivity.
Qed.

Lemma foldl_bump_lookup (l : list Z) (counts : gmap Z Z) (i : Z) :
  NoDup l ->
  foldl Poll.bump counts l !! i
  = if decide (i ∈ l) then Z.succ <$> counts !! i else counts !! i.
Proof.
  intros Hnd. revert counts. induction Hnd as [|x l Hx Hnd IH]; intros counts.
  - simpl. destruct (decide (i ∈ [])) as [H|_]; [inversion H | reflexivity].
  - simpl. rewrite IH, bump_lookup.
    destruct (decide (x = i)) as [<-|Hne].
    + destruct (decide (x ∈ l)); [contradiction|].
      destruct (decide (x ∈ x :: l)) as [_|H]; [reflexivity|].
      exfalso. apply H. left.
    + destruct (decide (i ∈ l)) as [Hin|Hout].
      * destruct (decide (i ∈ x :: l)) as [_|H]; [reflexivity|].
        exfalso. apply H. right. exact Hin.
      * destruct (decide (i ∈ x :: l)) as [H|_]; [|reflexivity].
        apply elem_of_cons in H as [->|H]; contradiction.
Qed.

(** How many of the votes name a choice. *)
Lemma tally_lookup (pollVotes : list Poll.ScyllaPollVote) (counts : gmap Z Z) (i : Z) :
  Poll.tally pollVotes counts !! i
  = (fun n => n + Z.of_nat (length (List.filter
                                      (fun v => bool_decide (i ∈ Poll.vote_choice v))
                                      pollVotes)))
    <$> counts !! i.
Proof.
  unfold Poll.tally. revert counts.
  induction pollVotes as [|v vs IH]; intros counts.
  - simpl. destruct (counts !! i); simpl; [f_equal; lia | reflexivity].
  - cbn [foldl]. rewrite IH, foldl_bump_lookup by apply NoDup_elements.
    cbn [List.filter].
    destruct (decide (i ∈ elements (Poll.vote_choice v))) as [Hin|Hout].
    + apply elem_of_elements in Hin. rewrite (bool_decide_eq_true_2 _ Hin).
      destruct (counts !! i); simpl; [f_equal; lia | reflexivity].
    + rewrite elem_of_elements in Hout. rewrite (bool_decide_eq_false_2 _ Hout).
      reflexivity.
Qed.

Lemma zeroCounts_lookup (entries : list (Z * string)) (m : gmap Z Z) (i : Z) :
  In i (map fst entries) ->
  foldl (fun counts entry => <[fst entry := 0]> counts) m entries !! i = Some 0.
Proof.
  revert m. induction entries as [|e l IH]; intros m Hin; [destruct Hin|].
  simpl. destruct (in_dec Z.eq_dec i (map fst l)) as [Hl|Hl]; [apply IH; exact Hl|].
  destruct Hin as [Hi|Hi]; [|contradiction]. subst i.
  clear IH. revert m. induction l as [|e' l IH]; intros m.
  - simpl. apply lookup_insert_eq.
  - simpl. simpl in Hl.
    assert (Hne : fst e' <> fst e) by tauto.
    assert (Hl' : ~ In (fst e) (map fst l)) by tauto.
    rewrite (insert_insert_ne m) by congruence. apply IH. exact Hl'.
Qed.

Lemma flat_map_singletons {A B} (f : A -> list B) (g : A -> B) (l : list A) :
  (forall x, In x l -> f x = [g x]) -> flat_map f l = map g l.
Proof.
  induction l as [|x l IH]; intros H; [reflexivity|]. simpl.
  rewrite (H x (or_introl eq_refl)). simpl. f_equal.
  apply IH. intros y Hy. apply H. right. exact Hy.
Qed.

(** X6: on the wide-column store a poll is returned with every choice it
    has, in order, each with the number of votes that name its index and
    marked as voted exactly when a vote of the viewer names it; votes for
    an index the poll does not have are counted nowhere.  A note without
    a poll column is refused with the error poll not found. *)
Theorem populatePoll_counts_the_votes_of_each_choice
    (selectVotes : string -> option (list Poll.ScyllaPollVote))
    (findPoll : string -> option Poll.PollRow)
    (findVotes : string -> string -> list Z)
    (findOneVote : string -> string -> option Z)
    (noteId : string) (poll : Poll.ScyllaPoll) (meId : option string)
    (pollVotes : list Poll.ScyllaPollVote) :
  selectVotes noteId = Some pollVotes ->
  Poll.populatePoll true selectVotes findPoll findVotes findOneVote noteId
    (Some poll) meId
  = Returned
      {| Poll.populated_multiple := Poll.multiple poll;
         Poll.populated_expiresAt := Poll.expiresAt poll;
         Poll.populated_choices :=
           map (fun entry =>
                  {| Poll.choice_text := snd entry;
                     Poll.votes :=
                       Some (Z.of_nat
                               (length
                                  (List.filter
                                     (fun v => bool_decide (fst entry ∈ Poll.vote_choice v))
                                     pollVotes)));
                     Poll.isVoted :=
                       existsb (fun v => Poll.sameUser (Poll.vote_userId v) meId
                                         && bool_decide (fst entry ∈ Poll.vote_choice v))
                               pollVotes |})
               (Poll.choices poll) |}
  /\ Poll.populatePoll true selectVotes findPoll findVotes findOneVote noteId
       None meId
     = Threw "poll not found".
Proof.
  intros Hvotes. split; [|reflexivity].
  unfold Poll.populatePoll. rewrite Hvotes. do 2 f_equal.
  unfold Poll.scyllaChoices. apply flat_map_singletons. intros entry Hin.
  rewrite tally_lookup. unfold Poll.zeroCounts.
  rewrite zeroCounts_lookup by (apply in_map; exact Hin). reflexivity.
Qed.

(** A witness for X6: soup has the viewer's vote, salad the viewer's and
    bob's, and bob's vote for the missing index is counted nowhere. *)
Lemma populatePoll_counts_the_votes_of_each_choice_witness :
  Poll.populatePoll true (fun _ => Some Samples.lunchVotes) (fun _ => None)
    (fun _ _ => []) (fun _ _ => None) "n1" (Some Samples.lunchPoll) (Some "me")
  = Returned
      {| Poll.populated_multiple := true;
         Poll.populated_expiresAt := None;
         Poll.populated_choices :=
           [{| Poll.choice_text := "soup"; Poll.votes := Some 1;
               Poll.isVoted := true |};
            {| Poll.choice_text := "salad"; Poll.votes := Some 2;
               Poll.isVoted := true |}] |}.
Proof.
  pose proof (populatePoll_counts_the_votes_of_each_choice
                (fun _ => Some Samples.lunchVotes) (fun _ => None)
                (fun _ _ => []) (fun _ _ => None) "n1" Samples.lunchPoll
                (Some "me") Samples.lunchVotes eq_refl) as [H _].
  rewrite H. vm_compute. reflexivity.
Defined.

Lemma lookup_map {A B} (f : A -> B) (l : list A) (k : nat) :
  map f l !! k = f <$> l !! k.
Proof.
  revert k. induction l as [|x l IH]; intros [|k]; simpl; auto.
Qed.

Lemma indexOf_lookup (l : list string) (k : nat) (c : string) :
  NoDup l -> l !! k = Some c -> Poll.indexOf l c = Z.of_nat k.
Proof.
  intros Hnd. revert k. induction Hnd as [|x l Hx Hnd IH]; intros k Hk.
  - discriminate.
  - destruct k as [|k]; simpl in *.
    + injection Hk as ->. rewrite String.eqb_refl. reflexivity.
    + destruct (String.eqb_spec x c) as [Heq|Hne].
      * exfalso. apply Hx. rewrite Heq. apply list_elem_of_lookup. eauto.
      * rewrite (IH k Hk).
        destruct (Z.ltb_spec (Z.of_nat k) 0); lia.
Qed.

Lemma at_of_nat {A} (a : list A) (k : nat) : Poll.at_ a (Z.of_nat k) = a !! k.
Proof.
  unfold Poll.at_. destruct (Z.ltb_spec (Z.of_nat k) 0); [lia|].
  rewrite Nat2Z.id. reflexivity.
Qed.

Lemma at_in_range {A} (a : list A) (i : Z) :
  0 <= i < Z.of_nat (length a) -> exists x, Poll.at_ a i = Some x.
Proof.
  intros Hi. unfold Poll.at_. destruct (Z.ltb_spec i 0); [lia|].
  apply lookup_lt_is_Some. lia.
Qed.

Lemma at_out_of_range {A} (a : list A) (i : Z) :
  ~ 0 <= i < Z.of_nat (length a) -> Poll.at_ a i = None.
Proof.
  intros Hi. unfold Poll.at_. destruct (Z.ltb_spec i 0); [reflexivity|].
  apply lookup_ge_None. lia.
Qed.

(** The entries after the viewer's choices have been marked. *)
Lemma markAll_in_range (mine : list Z) (cs : list Poll.Choice) :
  Forall (fun i => 0 <= i < Z.of_nat (length cs)) mine ->
  Poll.markAll cs mine
  = Returned
      (imap (fun k c =>
               {| Poll.choice_text := Poll.choice_text c;
                  Poll.votes := Poll.votes c;
                  Poll.isVoted :=
                    Poll.isVoted c || existsb (Z.eqb (Z.of_nat k)) mine |})
            cs).
Proof.
  revert cs. induction mine as [|i mine IH]; intros cs Hrange.
  - simpl. f_equal. apply list_eq. intros k. rewrite list_lookup_imap.
    destruct (cs !! k) as [[t v b]|]; simpl; [rewrite orb_false_r|]; reflexivity.
  - inversion Hrange as [|? ? Hi Hrest]; subst. simpl.
    unfold Poll.markVoted. destruct (at_in_range cs i Hi) as [c Hc]. rewrite Hc.
    rewrite IH by (rewrite length_insert; exact Hrest).
    f_equal. apply list_eq. intros k. rewrite !list_lookup_imap.
    unfold Poll.at_ in Hc. destruct (Z.ltb_spec i 0); [lia|].
    destruct (decide (Z.to_nat i = k)) as [<-|Hne].
    + rewrite list_lookup_insert_eq by (apply lookup_lt_is_Some; eauto).
      rewrite Hc. simpl. rewrite Z2Nat.id by lia. rewrite Z.eqb_refl. simpl.
      rewrite orb_true_r. reflexivity.
    + rewrite list_lookup_insert_ne by exact Hne.
      destruct (cs !! k) as [[t v b]|]; simpl; [|reflexivity].
      destruct (Z.eqb_spec (Z.of_nat k) i); [lia|]. reflexivity.
Qed.

Lemma markAll_out_of_range (mine : list Z) (cs : list Poll.Choice) :
  Exists (fun i => ~ 0 <= i < Z.of_nat (length cs)) mine ->
  Poll.markAll cs mine = Threw "TypeError".
Proof.
  revert cs. induction mine as [|i mine IH]; intros cs Hex.
  - inversion Hex.
  - simpl. unfold Poll.markVoted.
    destruct (Poll.at_ cs i) as [c|] eqn:Hc; [|reflexivity].
    apply IH. rewrite length_insert.
    inversion Hex as [? ? Hi|? ? Hrest]; subst; [|exact Hrest].
    rewrite (at_out_of_range cs i Hi) in Hc. discriminate.
Qed.

Lemma markVoted_markAll (cs : list Poll.Choice) (i : Z) :
  Poll.markVoted cs i = Poll.markAll cs [i].
Proof. simpl. destruct (Poll.markVoted cs i); reflexivity. Qed.

(** X7: on the relational store, for a poll whose choices are pairwise
    different, every choice is returned in order with the count stored at
    its own position (nothing where the stored counts run out), and is
    marked as voted exactly when the viewer has a vote for its position:
    all the viewer's votes for a poll that allows several, the one vote
    looked up otherwise, none for an anonymous viewer.  A vote of the
    viewer for a position the poll does not have makes the call fail with
    a type error. *)
Theorem populatePoll_marks_the_viewers_choices
    (selectVotes : string -> option (list Poll.ScyllaPollVote))
    (findPoll : string -> option Poll.PollRow)
    (findVotes : string -> string -> list Z)
    (findOneVote : string -> string -> option Z)
    (noteId : string) (poll : option Poll.ScyllaPoll) (meId : option string)
    (row : Poll.PollRow) :
  findPoll noteId = Some row ->
  NoDup (Poll.row_choices row) ->
  let mine :=
    if JS.truthy_string meId then
      if Poll.row_multiple row then findVotes (default "" meId) noteId
      else option_list (findOneVote (default "" meId) noteId)
    else [] in
  let run :=
    Poll.populatePoll false selectVotes findPoll findVotes findOneVote noteId
      poll meId in
  (Forall (fun i => 0 <= i < Z.of_nat (length (Poll.row_choices row))) mine ->
   run = Returned
           {| Poll.populated_multiple := Poll.row_multiple row;
              Poll.populated_expiresAt := Poll.row_expiresAt row;
              Poll.populated_choices :=
                imap (fun k c =>
                        {| Poll.choice_text := c;
                           Poll.votes := Poll.row_votes row !! k;
                           Poll.isVoted := existsb (Z.eqb (Z.of_nat k)) mine |})
                     (Poll.row_choices row) |})
  /\ (Exists (fun i => ~ 0 <= i < Z.of_nat (length (Poll.row_choices row))) mine ->
      run = Threw "TypeError").
Proof.
  intros Hrow Hnd mine run.
  set (cs := map (fun c => {| Poll.choice_text := c;
                              Poll.votes :=
                                Poll.at_ (Poll.row_votes row)
                                  (Poll.indexOf (Poll.row_choices row) c);
                              Poll.isVoted := false |})
                 (Poll.row_choices row)).
  assert (Hlen : length cs = length (Poll.row_choices row))
    by (unfold cs; apply length_map).
  assert (Hrun :
    run = match Poll.markAll cs mine with
          | Returned cs =>
              Returned {| Poll.populated_multiple := Poll.row_multiple row;
                          Poll.populated_expiresAt := Poll.row_expiresAt row;
                          Poll.populated_choices := cs |}
          | Threw message => Threw message
          | OutOfFuel => OutOfFuel
          end).
  { unfold run, mine, Poll.populatePoll. rewrite Hrow. fold cs.
    destruct (JS.truthy_string meId); [|reflexivity].
    destruct (Poll.row_multiple row); [reflexivity|].
    destruct (findOneVote _ _) as [i|]; [|reflexivity].
    change (option_list (Some i)) with [i]. rewrite <- markVoted_markAll.
    reflexivity. }
  rewrite Hrun. rewrite <- Hlen. split.
  - intros Hrange. rewrite (markAll_in_range mine cs Hrange). do 2 f_equal.
    apply list_eq. intros k. unfold cs. rewrite !list_lookup_imap, lookup_map.
    destruct (Poll.row_choices row !! k) as [c|] eqn:Hk; [|reflexivity]. simpl.
    rewrite (indexOf_lookup _ k c Hnd Hk), at_of_nat. reflexivity.
  - intros Hout. rewrite (markAll_out_of_range mine cs Hout). reflexivity.
Qed.

(** A witness for X7: the viewer voted for the second choice. *)
Lemma populatePoll_marks_the_viewers_choices_witness :
  Poll.populatePoll false (fun _ => None) (fun _ => Some Samples.lunchRow)
    (fun _ _ => [1]) (fun _ _ => None) "n1" None (Some "me")
  = Returned
      {| Poll.populated_multiple := true;
         Poll.populated_expiresAt := None;
         Poll.populated_choices :=
           [{| Poll.choice_text := "soup"; Poll.votes := Some 3;
               Poll.isVoted := false |};
            {| Poll.choice_text := "salad"; Poll.votes := Some 5;
               Poll.isVoted := true |}] |}.
Proof.
  assert (Hnd : NoDup (Poll.row_choices Samples.lunchRow)).
  { apply (bool_decide_unpack _). vm_compute. exact I. }
  pose proof (populatePoll_marks_the_viewers_choices
                (fun _ => None) (fun _ => Some Samples.lunchRow)
                (fun _ _ => [1]) (fun _ _ => None) "n1" None (Some "me")
                Samples.lunchRow eq_refl Hnd) as [H _].
  rewrite H; [reflexivity|].
  repeat constructor; simpl; lia.
Defined.

(** ** The keyed cache: reads after writes *)

Lemma append_inj_l (s a b : string) : s +:+ a = s +:+ b -> a = b.
Proof.
  induction s as [|c s IH]; simpl; intros H; [exact H|].
  injection H as H. exact (IH H).
Qed.

(** Two keys name the same slot of a cache exactly when they are the
    same once the empty key is read as no key. *)
Lemma prefixedKey_eq (c : Cache.t) (key key' : option string) :
  Cache.prefixedKey c key = Cache.prefixedKey c key'
  <-> Spec.givenId key = Spec.givenId key'.
Proof.
  unfold Cache.prefixedKey, Spec.givenId, JS.truthy_string.
  destruct key as [k|], key' as [k'|]; simpl;
    repeat match goal with
           | |- context [String.eqb ?x ""] => destruct (String.eqb_spec x "")
           end; simpl; split; intros H;
    first
      [ reflexivity
      | discriminate H
      | congruence
      | apply append_inj_l, append_inj_l in H; congruence
      | exfalso; revert H; apply append_neq_self; discriminate
      | exfalso; symmetry in H; revert H; apply append_neq_self; discriminate ].
Qed.

Section KeyedCacheReads.

Context {T V : Type}.
Variable encode : T -> V.
Variable decode : V -> T.

Lemma getBuffer_set_ex (now now' secs : Z) (st : Redis.t V) (k k' : string) (v : V) :
  Redis.getBuffer now' (Redis.set_ex now st k v secs) k'
  = if decide (k = k')
    then (if now' <? now + secs * 1000 then Some v else None)
    else Redis.getBuffer now' st k'.
Proof.
  unfold Redis.getBuffer, Redis.set_ex; simpl.
  destruct (decide (k = k')) as [<-|Hne].
  - rewrite lookup_insert_eq. reflexivity.
  - rewrite lookup_insert_ne by exact Hne. reflexivity.
Qed.

Lemma getBuffer_expire (now now' secs : Z) (st : Redis.t V) (k : string) (v : V) :
  Redis.getBuffer now st k = Some v ->
  Redis.getBuffer now' (Redis.expire now st k secs) k
  = if now' <? now + secs * 1000 then Some v else None.
Proof.
  unfold Redis.getBuffer, Redis.expire; simpl.
  destruct (Redis.strings st !! k) as [e|] eqn:He; [|discriminate].
  destruct (Redis.live now e) eqn:Hlive; [|discriminate].
  intros [= <-]. simpl. rewrite lookup_insert_eq. reflexivity.
Qed.

Lemma get_value (c : Cache.t) (now : Z) (st : Redis.t V) (key : option string)
    (renew : bool) :
  fst (Cache.get decode c now st key renew)
  = decode <$> Redis.getBuffer now st (Cache.prefixedKey c key).
Proof. unfold Cache.get. destruct (Redis.getBuffer _ _ _); reflexivity. Qed.

Lemma get_keeps (c : Cache.t) (now : Z) (st : Redis.t V) (key : option string) :
  snd (Cache.get decode c now st key false) = st.
Proof. unfold Cache.get. destruct (Redis.getBuffer _ _ _); reflexivity. Qed.

Lemma get_after_set (c : Cache.t) (now now' : Z) (st : Redis.t V)
    (key key' : option string) (value : T) (renew : bool) :
  fst (Cache.get decode c now' (Cache.set encode c now st key value) key' renew)
  = if bool_decide (Spec.givenId key = Spec.givenId key')
    then (if now' <? now + Cache.ttl c * 1000
          then Some (decode (encode value)) else None)
    else fst (Cache.get decode c now' st key' renew).
Proof.
  rewrite !get_value. unfold Cache.set. rewrite getBuffer_set_ex.
  destruct (decide (Cache.prefixedKey c key = Cache.prefixedKey c key')) as [He|Hne].
  - rewrite bool_decide_eq_true_2
      by exact (proj1 (prefixedKey_eq c key key') He).
    destruct (_ <? _); reflexivity.
  - rewrite bool_decide_eq_false_2; [reflexivity|].
    intros H. exact (Hne (proj2 (prefixedKey_eq c key key') H)).
Qed.

(** What [fetch] does on a miss and on a hit. *)
Lemma fetch_miss (c : Cache.t) (now : Z) (st : Redis.t V) (key : option string)
    (fetcher : T) (renew : bool) (validator : option (T -> bool)) :
  Redis.getBuffer now st (Cache.prefixedKey c key) = None ->
  Cache.fetch encode decode c now st key fetcher renew validator
  = (fetcher, Cache.set encode c now st key fetcher).
Proof. intros Hmiss. unfold Cache.fetch, Cache.get. rewrite Hmiss. reflexivity. Qed.

Lemma fetch_hit (c : Cache.t) (now : Z) (st : Redis.t V) (key : option string)
    (fetcher : T) (validator : option (T -> bool)) (cached : V) :
  Redis.getBuffer now st (Cache.prefixedKey c key) = Some cached ->
  match validator with
  | Some accepts => accepts (decode cached) = true
  | None => True
  end ->
  Cache.fetch encode decode c now st key fetcher false validator
  = (decode cached, st).
Proof.
  intros Hhit Hvalid. unfold Cache.fetch, Cache.get. rewrite Hhit.
  destruct validator as [accepts|]; [rewrite Hvalid|]; reflexivity.
Qed.

End KeyedCacheReads.

(** X8: in a cache whose time to live is positive (Redis accepts no
    other), a value written under a key is read back, decoded, under that
    key until its time to live has passed and not from then on; the empty
    key and no key name the same slot; a read under any other key is not
    affected by the write.  A read that renews restarts the time to live
    from the moment of the read, and a read that does not renew leaves the
    keyspace as it is. *)
Theorem get_after_set_reads_back_until_expiry {T V : Type}
    (encode : T -> V) (decode : V -> T) (c : Cache.t) (now now' now'' : Z)
    (st : Redis.t V) (key key' : option string) (value : T) :
  0 < Cache.ttl c ->
  fst (Cache.get decode c now' (Cache.set encode c now st key value) key' false)
  = (if bool_decide (Spec.givenId key = Spec.givenId key')
     then (if now' <? now + Cache.ttl c * 1000
           then Some (decode (encode value)) else None)
     else fst (Cache.get decode c now' st key' false))
  /\ snd (Cache.get decode c now' st key false) = st
  /\ (now' < now + Cache.ttl c * 1000 ->
      fst (Cache.get decode c now''
             (snd (Cache.get decode c now'
                     (Cache.set encode c now st key value) key true))
             key false)
      = if now'' <? now' + Cache.ttl c * 1000
        then Some (decode (encode value)) else None).
Proof.
  intros _. split; [apply get_after_set | split; [apply get_keeps|]].
  intros Hlive. rewrite get_value.
  assert (Hget : Redis.getBuffer now' (Cache.set encode c now st key value)
                   (Cache.prefixedKey c key) = Some (encode value)).
  { unfold Cache.set. rewrite getBuffer_set_ex.
    destruct (decide _) as [_|Hne]; [|contradiction].
    destruct (Z.ltb_spec now' (now + Cache.ttl c * 1000)); [reflexivity | lia]. }
  unfold Cache.get at 1. rewrite Hget. cbn [snd].
  rewrite (getBuffer_expire _ _ _ _ _ _ Hget).
  destruct (_ <? _); reflexivity.
Qed.

(** A witness for X8: a value written at time 0 into a cache that keeps
    values for 60 seconds is read back one second later. *)
Lemma get_after_set_reads_back_until_expiry_witness :
  fst (Cache.get (fun v : string => v) Examples.userCache 1000
         (Cache.set (fun v : string => v) Examples.userCache 0 Redis.empty
            (Some "k") "v")
         (Some "k") false)
  = Some "v".
Proof.
  pose proof (get_after_set_reads_back_until_expiry
                (fun v : string => v) (fun v : string => v) Examples.userCache
                0 1000 2000 Redis.empty (Some "k") (Some "k") "v"
                ltac:(vm_compute; reflexivity)) as (H & _ & _).
  rewrite H. reflexivity.
Defined.

(** X9: in a cache whose time to live is positive, when nothing live is
    cached under the key, [fetch] returns what the fetcher returns and
    caches it: until the time to live has passed,
    a later [fetch] of that key returns the cached value, decoded,
    whatever its own fetcher would return, and changes nothing.  When a
    value is cached and no validator rejects it, [fetch] returns it and
    changes nothing; when the validator rejects it, the fetcher's value
    replaces it. *)
Theorem fetch_asks_the_fetcher_only_on_a_miss {T V : Type}
    (encode : T -> V) (decode : V -> T) (c : Cache.t) (now now' : Z)
    (st : Redis.t V) (key : option string) (fetcher later : T)
    (renew : bool) (validator : option (T -> bool)) :
  0 < Cache.ttl c ->
  (Redis.getBuffer now st (Cache.prefixedKey c key) = None ->
   Cache.fetch encode decode c now st key fetcher renew validator
   = (fetcher, Cache.set encode c now st key fetcher)
   /\ (now' < now + Cache.ttl c * 1000 ->
       Cache.fetch encode decode c now'
         (Cache.set encode c now st key fetcher) key later false None
       = (decode (encode fetcher), Cache.set encode c now st key fetcher)))
  /\ (forall cached,
        Redis.getBuffer now st (Cache.prefixedKey c key) = Some cached ->
        Cache.fetch encode decode c now st key fetcher false validator
        = if match validator with
             | Some accepts => accepts (decode cached)
             | None => true
             end
          then (decode cached, st)
          else (fetcher, Cache.set encode c now st key fetcher)).
Proof.
  intros _. split.
  - intros Hmiss. split; [apply fetch_miss; exact Hmiss|].
    intros Hlive. apply fetch_hit; [|exact I].
    unfold Cache.set. rewrite getBuffer_set_ex.
    destruct (decide _) as [_|Hne]; [|contradiction].
    destruct (Z.ltb_spec now' (now + Cache.ttl c * 1000)); [reflexivity | lia].
  - intros cached Hhit. unfold Cache.fetch, Cache.get. rewrite Hhit.
    destruct validator as [accepts|]; [|reflexivity].
    destruct (accepts (decode cached)); reflexivity.
Qed.

(** A witness for X9: the first [fetch] on an empty keyspace asks the
    fetcher, and the second, a second later, does not. *)
Lemma fetch_asks_the_fetcher_only_on_a_miss_witness :
  Cache.fetch (fun v : string => v) (fun v : string => v) Examples.userCache 0
    Redis.empty (Some "k") "first" false None
  = ("first",
     Cache.set (fun v : string => v) Examples.userCache 0 Redis.empty
       (Some "k") "first")
  /\ Cache.fetch (fun v : string => v) (fun v : string => v) Examples.userCache
       1000
       (Cache.set (fun v : string => v) Examples.userCache 0 Redis.empty
          (Some "k") "first")
       (Some "k") "second" false None
     = ("first",
        Cache.set (fun v : string => v) Examples.userCache 0 Redis.empty
          (Some "k") "first").
Proof.
  pose proof (fetch_asks_the_fetcher_only_on_a_miss
                (fun v : string => v) (fun v : string => v) Examples.userCache
                0 1000 Redis.empty (Some "k") "first" "second" false None
                ltac:(vm_compute; reflexivity)) as [H _].
  destruct (H eq_refl) as [Hfirst Hsecond].
  split; [exact Hfirst|]. apply Hsecond. vm_compute. reflexivity.
Defined.

(** X10: [fetchMaybe] with a fetcher that finds a value is [fetch] with
    that value; with a fetcher that finds nothing, and nothing cached, it
    returns nothing and writes nothing, so that the next call asks the
    fetcher again. *)
Theorem fetchMaybe_caches_no_absence {T V : Type}
    (encode : T -> V) (decode : V -> T) (c : Cache.t) (now : Z)
    (st : Redis.t V) (key : option string) (value : T)
    (renew : bool) (validator : option (T -> bool)) :
  Cache.fetchMaybe encode decode c now st key (Some value) renew validator
  = (Some (fst (Cache.fetch encode decode c now st key value renew validator)),
     snd (Cache.fetch encode decode c now st key value renew validator))
  /\ (Redis.getBuffer now st (Cache.prefixedKey c key) = None ->
      Cache.fetchMaybe encode decode c now st key None renew validator = (None, st)
      /\ forall now' later,
           Redis.getBuffer now' st (Cache.prefixedKey c key) = None ->
           fst (Cache.fetchMaybe encode decode c now'
                  (snd (Cache.fetchMaybe encode decode c now st key None
                          renew validator))
                  key later renew validator)
           = later).
Proof.
  split.
  - unfold Cache.fetchMaybe, Cache.fetch.
    destruct (Cache.get decode c now st key renew) as [[x|] st'];
      [destruct validator as [accepts|]; [destruct (accepts x)|]|]; reflexivity.
  - intros Hmiss.
    assert (Hnone : forall t later,
              Redis.getBuffer t st (Cache.prefixedKey c key) = None ->
              Cache.fetchMaybe encode decode c t st key later renew validator
              = (later, match later with
                        | Some value => Cache.set encode c t st key value
                        | None => st
                        end)).
    { intros t later Ht. unfold Cache.fetchMaybe, Cache.get. rewrite Ht. reflexivity. }
    split; [apply (Hnone now None Hmiss)|].
    intros now' later Hmiss'. rewrite (Hnone now None Hmiss). simpl.
    rewrite (Hnone now' later Hmiss'). reflexivity.
Qed.

(** ** Row counts *)

(** X14: without the wide-column store both counters fail with the
    error ScyllaDB is disabled and touch nothing.  With it, a post count
    that is not cached yet is counted and cached under its own key: a
    later call for the same count, up to 3 600 000 seconds later (the
    time to live the cache is built with), returns the cached number
    whatever the table holds by then, while a call for the other post
    count is not served from it. *)
Theorem fetchPostCount_serves_the_cached_count {V : Type}
    (encode : Z -> V) (decode : V -> Z)
    (localCount allCount localLater allLater reactionCount : Z)
    (now now' : Z) (st : Redis.t V) (local : bool) :
  now' < now + 3600000 * 1000 ->
  Redis.getBuffer now st "cache:localPostCount" = None ->
  Redis.getBuffer now st "cache:allPostCount" = None ->
  Redis.getBuffer now' st "cache:localPostCount" = None ->
  Redis.getBuffer now' st "cache:allPostCount" = None ->
  let first :=
    Counts.fetchPostCount encode decode true localCount allCount now st local in
  fst first = Returned (if local then localCount else allCount)
  /\ fst (Counts.fetchPostCount encode decode true localLater allLater now'
            (snd first) local)
     = Returned (decode (encode (if local then localCount else allCount)))
  /\ fst (Counts.fetchPostCount encode decode true localLater allLater now'
            (snd first) (negb local))
     = Returned (if local then allLater else localLater)
  /\ Counts.fetchPostCount encode decode false localCount allCount now st local
     = (Threw "ScyllaDB is disabled", st)
  /\ Counts.fetchReactionCount encode decode false reactionCount now st
     = (Threw "ScyllaDB is disabled", st).
Proof.
  intros Hlive Hlocal Hall Hlocal' Hall' first.
  assert (Hfirst :
    first = (Returned (if local then localCount else allCount),
             Cache.set encode
               (if local then Counts.localPostCountCache else Counts.allPostCountCache)
               now st None (if local then localCount else allCount))).
  { unfold first, Counts.fetchPostCount. destruct local; simpl negb; cbv iota.
    - rewrite (fetch_miss encode decode Counts.localPostCountCache now st None
                 localCount false None Hlocal). reflexivity.
    - rewrite (fetch_miss encode decode Counts.allPostCountCache now st None
                 allCount false None Hall). reflexivity. }
  rewrite Hfirst. cbn [fst snd].
  split; [reflexivity|]. split; [|split; [|split; reflexivity]].
  - unfold Counts.fetchPostCount. destruct local; simpl negb; cbv iota.
    + rewrite (fetch_hit encode decode Counts.localPostCountCache now' _ None
                 localLater None (encode localCount)); [reflexivity | | exact I].
      unfold Cache.set. rewrite getBuffer_set_ex.
      destruct (decide _) as [_|Hne]; [|contradiction].
      change (Cache.ttl Counts.localPostCountCache) with 3600000.
      destruct (Z.ltb_spec now' (now + 3600000 * 1000)); [reflexivity | lia].
    + rewrite (fetch_hit encode decode Counts.allPostCountCache now' _ None
                 allLater None (encode allCount)); [reflexivity | | exact I].
      unfold Cache.set. rewrite getBuffer_set_ex.
      destruct (decide _) as [_|Hne]; [|contradiction].
      change (Cache.ttl Counts.allPostCountCache) with 3600000.
      destruct (Z.ltb_spec now' (now + 3600000 * 1000)); [reflexivity | lia].
  - unfold Counts.fetchPostCount. destruct local; simpl negb; cbv iota.
    + rewrite (fetch_miss encode decode Counts.allPostCountCache now' _ None
                 allLater false None); [reflexivity|].
      unfold Cache.set. rewrite getBuffer_set_ex.
      destruct (decide _) as [Heq|_]; [discriminate Heq | exact Hall'].
    + rewrite (fetch_miss encode decode Counts.localPostCountCache now' _ None
                 localLater false None); [reflexivity|].
      unfold Cache.set. rewrite getBuffer_set_ex.
      destruct (decide _) as [Heq|_]; [discriminate Heq | exact Hlocal'].
Qed.

(** A witness for X14: the local post count is 7 when first asked for and
    is still reported as 7 a second later, when the table holds 9. *)
Lemma fetchPostCount_serves_the_cached_count_witness :
  fst (Counts.fetchPostCount (fun n : Z => n) (fun n : Z => n) true 9 20 1000
         (snd (Counts.fetchPostCount (fun n : Z => n) (fun n : Z => n) true
                 7 20 0 Redis.empty true))
         true)
  = Returned 7.
Proof.
  pose proof (fetchPostCount_serves_the_cached_count
                (fun n : Z => n) (fun n : Z => n) 7 20 9 20 0 0 1000
                Redis.empty true ltac:(lia) eq_refl eq_refl eq_refl eq_refl)
    as (_ & H & _).
  exact H.
Defined.

(** ** The membership cache: following and unfollowing *)

Lemma isFollowing_iff (c : SetCache.t) (st : Redis.t string) (t : string) :
  SetCache.isFollowing c st t = bool_decide (t ∈ Redis.members st (SetCache.key c)).
Proof.
  unfold SetCache.isFollowing, Redis.sismember.
  destruct (bool_decide _); reflexivity.
Qed.

Lemma arrayIncludes_list_to_set (l : list string) (t : string) :
  JS.arrayIncludes l t = bool_decide (t ∈ (list_to_set l : gset string)).
Proof.
  destruct (JS.arrayIncludes l t) eqn:E; symmetry.
  - apply bool_decide_eq_true_2. apply elem_of_list_to_set, list_elem_of_In.
    apply arrayIncludes_In. exact E.
  - apply bool_decide_eq_false_2. intros H.
    apply elem_of_list_to_set, list_elem_of_In, arrayIncludes_In in H. congruence.
Qed.

Lemma members_sadd (st : Redis.t string) (k : string) (ids : list string) :
  Redis.members (Redis.sadd st k ids) k = list_to_set ids ∪ Redis.members st k.
Proof. unfold Redis.members, Redis.sadd; simpl. rewrite lookup_insert_eq. reflexivity. Qed.

Lemma members_srem (st : Redis.t string) (k : string) (ids : list string) :
  Redis.members (Redis.srem st k ids) k = Redis.members st k ∖ list_to_set ids.
Proof.
  unfold Redis.srem. fold (Redis.members st k).
  destruct (bool_decide_reflect (Redis.members st k ∖ list_to_set ids = ∅)) as [He|Hne].
  - unfold Redis.members at 1; simpl. rewrite lookup_delete_eq. simpl. congruence.
  - unfold Redis.members at 1; simpl. rewrite lookup_insert_eq. reflexivity.
Qed.

Lemma size_list_to_set_cons (x : string) (l : list string) :
  size (list_to_set (x :: l) : gset string) <> 0%nat.
Proof.
  intros Hsize. apply size_empty_iff in Hsize.
  apply (not_elem_of_empty (C := gset string) x). rewrite <- Hsize.
  apply elem_of_list_to_set. left.
Qed.

(** X11: after [follow] a target is a member exactly when it was one
    before or is among the ids given, after [unfollow] exactly when it
    was one before and is not among them; following the same ids a
    second time changes nothing, and unfollowing every member leaves the
    cache without any following. *)
Theorem follow_and_unfollow_update_membership
    (c : SetCache.t) (st : Redis.t string) (targetIds : list string) (t : string) :
  SetCache.isFollowing c (SetCache.follow c st targetIds) t
  = SetCache.isFollowing c st t || JS.arrayIncludes targetIds t
  /\ SetCache.isFollowing c (SetCache.unfollow c st targetIds) t
     = SetCache.isFollowing c st t && negb (JS.arrayIncludes targetIds t)
  /\ SetCache.follow c (SetCache.follow c st targetIds) targetIds
     = SetCache.follow c st targetIds
  /\ SetCache.hasFollowing c (SetCache.unfollow c st (SetCache.getAll c st)) = false.
Proof.
  split; [|split; [|split]].
  - unfold SetCache.follow. destruct targetIds as [|x l] eqn:Hids.
    + simpl. rewrite orb_false_r. reflexivity.
    + cbn [length Nat.ltb Nat.leb]. rewrite <- Hids. clear Hids.
      rewrite !isFollowing_iff, members_sadd, arrayIncludes_list_to_set.
      rewrite <- bool_decide_or. apply bool_decide_ext.
      rewrite elem_of_union. tauto.
  - unfold SetCache.unfollow. destruct targetIds as [|x l] eqn:Hids.
    + simpl. rewrite andb_true_r. reflexivity.
    + cbn [length Nat.ltb Nat.leb]. rewrite <- Hids. clear Hids.
      rewrite !isFollowing_iff, members_srem, arrayIncludes_list_to_set.
      rewrite <- bool_decide_not, <- bool_decide_and. apply bool_decide_ext.
      apply elem_of_difference.
  - unfold SetCache.follow. destruct targetIds as [|x l] eqn:Hids; [reflexivity|].
    cbn [length Nat.ltb Nat.leb]. rewrite <- Hids. clear Hids.
    unfold Redis.sadd at 1. rewrite members_sadd. unfold Redis.sadd; simpl.
    f_equal. rewrite insert_insert_eq. f_equal.
    rewrite (assoc_L (∪)), (idemp_L (∪)). reflexivity.
  - unfold SetCache.hasFollowing, Redis.scard. apply negb_false_iff, Z.eqb_eq.
    unfold SetCache.unfollow, SetCache.getAll, Redis.smembers.
    destruct (elements (Redis.members st (SetCache.key c))) as [|x l] eqn:Hel.
    + simpl. apply elements_empty_inv in Hel. apply leibniz_equiv in Hel.
      rewrite Hel. reflexivity.
    + cbn [length Nat.ltb Nat.leb]. rewrite <- Hel. rewrite members_srem.
      rewrite list_to_set_elements_L, difference_diag_L. reflexivity.
Qed.

(** What a reload leaves in the set, read through the cache. *)
Lemma fetch_stale_members (c : SetCache.t) (now : Z) (st : Redis.t string) :
  SetCache.stale c now st = true ->
  Redis.members (SetCache.fetch c now st) (SetCache.key c)
  = list_to_set (SetCache.fetcher c)
  /\ forall now',
       Redis.exists_ now' (SetCache.fetch c now st) (SetCache.ttlKey c)
       = if now' <? now + 1800 * 1000 then 1
         else if 0 <? Redis.scard (SetCache.fetch c now st) (SetCache.ttlKey c)
              then 1 else 0.
Proof.
  intros Hstale.
  destruct (fetch_when_stale c now st Hstale) as (Hmem & Hmark & _).
  split; [exact Hmem|]. intros now'.
  unfold Redis.exists_, Redis.getBuffer. rewrite Hmark.
  unfold Redis.live; simpl. destruct (_ <? _); reflexivity.
Qed.

(** X12: when [init] finds the cache stale, the cache it returns mirrors
    the source of truth: a target is a member exactly when the source
    lists it, [getAll] gives each listed id once, and the cache has a
    following exactly when the source lists anyone. *)
Theorem init_mirrors_the_source_of_truth
    (userId : string) (followees : list string) (now : Z) (st : Redis.t string) :
  SetCache.stale (SetCache.new "follow" userId followees) now st = true ->
  let cache := fst (SetCache.LocalFollowingsCache_init userId followees now st) in
  let st' := snd (SetCache.LocalFollowingsCache_init userId followees now st) in
  (forall t, SetCache.isFollowing cache st' t = JS.arrayIncludes followees t)
  /\ NoDup (SetCache.getAll cache st')
  /\ (forall t, In t (SetCache.getAll cache st') <-> In t followees)
  /\ SetCache.hasFollowing cache st' = (0 <? length followees)%nat.
Proof.
  intros Hstale cache st'.
  destruct (fetch_stale_members _ now st Hstale) as [Hmem _].
  change (SetCache.fetcher (SetCache.new "follow" userId followees))
    with followees in Hmem.
  change (Redis.members st' (SetCache.key cache) = list_to_set followees) in Hmem.
  split; [|split; [|split]].
  - intros t. rewrite isFollowing_iff, Hmem, arrayIncludes_list_to_set. reflexivity.
  - unfold SetCache.getAll, Redis.smembers. apply NoDup_elements.
  - intros t. unfold SetCache.getAll, Redis.smembers.
    rewrite Hmem, <- !list_elem_of_In, elem_of_elements, elem_of_list_to_set.
    reflexivity.
  - unfold SetCache.hasFollowing, Redis.scard. rewrite Hmem.
    destruct followees as [|x l]; [reflexivity|].
    change (0 <? length (x :: l))%nat with true.
    apply negb_true_iff, Z.eqb_neq.
    pose proof (size_list_to_set_cons x l). lia.
Qed.

(** A witness for X12: the warm set without marker is stale, and after
    [init] bob, whom the source lists, is a member and alice is not. *)
Lemma init_mirrors_the_source_of_truth_witness :
  SetCache.isFollowing
    (fst (SetCache.LocalFollowingsCache_init "u1" ["bob"] 0 Examples.warmUnmarked))
    (snd (SetCache.LocalFollowingsCache_init "u1" ["bob"] 0 Examples.warmUnmarked))
    "alice"
  = false.
Proof.
  pose proof (init_mirrors_the_source_of_truth "u1" ["bob"] 0 Examples.warmUnmarked
                ltac:(vm_compute; reflexivity)) as (H & _).
  rewrite H. reflexivity.
Defined.

(** X13: after a reload the cache stays fresh for the thirty minutes of
    its marker exactly when the source of truth listed someone: then a
    further [fetch] within that time changes nothing, while a cache
    reloaded from a source that lists nobody is stale at once and is
    reloaded by every [fetch]. *)
Theorem fetch_is_fresh_only_with_a_following
    (c : SetCache.t) (now now' : Z) (st : Redis.t string) :
  SetCache.stale c now st = true ->
  now' < now + 1800 * 1000 ->
  (SetCache.stale c now' (SetCache.fetch c now st) = false
   <-> SetCache.fetcher c <> [])
  /\ (SetCache.fetcher c <> [] ->
      SetCache.fetch c now' (SetCache.fetch c now st) = SetCache.fetch c now st).
Proof.
  intros Hstale Hlive.
  destruct (fetch_stale_members c now st Hstale) as [Hmem Hmark].
  assert (Hiff : SetCache.stale c now' (SetCache.fetch c now st) = false
                 <-> SetCache.fetcher c <> []).
  { unfold SetCache.stale, SetCache.hasFollowing, Redis.scard.
    rewrite Hmem, Hmark.
    destruct (Z.ltb_spec now' (now + 1800 * 1000)); [|lia].
    rewrite orb_false_r, negb_involutive.
    destruct (SetCache.fetcher c) as [|x l].
    - split; [discriminate | congruence].
    - split; [discriminate|]. intros _. apply Z.eqb_neq.
      pose proof (size_list_to_set_cons x l). lia. }
  split; [exact Hiff|]. intros Hsome. apply Hiff in Hsome.
  unfold SetCache.fetch at 1. rewrite Hsome. reflexivity.
Qed.

(** A witness for X13: reloaded at time 0 from a source that lists bob,
    the cache is left alone by a [fetch] ten milliseconds later. *)
Lemma fetch_is_fresh_only_with_a_following_witness :
  SetCache.fetch Examples.followCache 10
    (SetCache.fetch Examples.followCache 0 Examples.warmUnmarked)
  = SetCache.fetch Examples.followCache 0 Examples.warmUnmarked.
Proof.
  pose proof (fetch_is_fresh_only_with_a_following Examples.followCache 0 10
                Examples.warmUnmarked ltac:(vm_compute; reflexivity)
                ltac:(lia)) as [_ H].
  apply H. discriminate.
Defined.

(** ** The scanner: what a call leaves alone and how much it returns *)

(** The day-partitioned store returns no more rows than the limit bound
    to the statement. *)
Lemma DayStore_limit (table : list DayStore.Stored) (q : string)
    (params : list Param) (answer : list DayStore.Stored) (n : Z) :
  DayStore.execute table q params = Some answer ->
  last params = Some (PNumber n) ->
  Z.of_nat (length answer) <= Z.max 0 n.
Proof.
  unfold DayStore.execute.
  destruct (DayStore.decode q params) as [sc|] eqn:Hdec; [|discriminate].
  intros [= <-] Hlast.
  assert (Hlimit : DayStore.scan_limit sc = n).
  { unfold DayStore.decode in Hdec.
    destruct (JS.includes q Scylla.sinceClause);
      repeat match type of Hdec with
             | match ?x with _ => _ end = _ => destruct x; try discriminate Hdec
             end;
      injection Hdec as <-; cbn in Hlast; injection Hlast as <-; reflexivity. }
  rewrite length_firstn. rewrite Hlimit. lia.
Qed.

Section ScanBounds.

Variable Row : Type.
Variable parseScyllaNote : Row -> ScyllaNote.
Variable parseScyllaNotification : Row -> ScyllaNotification.
Variable parseScyllaReaction : Row -> ScyllaNoteReaction.
Variable config_scylla : option ScyllaConfig.
Variable execute : string -> list Param -> option (list Row).
Variable tzOffset : Z.
Variable kind : FeedType.
Variable ps : PaginationParams.
Variable filter : Filters.
Variable userId : option string.
Variable pq : Scylla.PreparedQuery.

Local Abbreviation iteration :=
  (Scylla.iteration Row parseScyllaNote parseScyllaNotification
     parseScyllaReaction config_scylla execute tzOffset kind ps filter userId pq).

Local Abbreviation theLimit := (Scylla.fetchLimit config_scylla kind ps).

Lemma ownStatement_no_pop (execs : list Event) :
  Forall (ownStatement config_scylla kind ps pq) execs ->
  List.filter isPop execs = [].
Proof.
  induction 1 as [|e l He _ IH]; [reflexivity|].
  destruct e; simpl in *; [exact IH | destruct He | destruct He].
Qed.

(** A pass of a feed other than the list feed pops nothing. *)
Lemma iteration_pops_nothing (st : Scylla.ScanState) :
  kind <> feed_list ->
  Scylla.cur_userIds (Scylla.stepState (iteration st)) = Scylla.cur_userIds st
  /\ List.filter isPop (Scylla.events (Scylla.stepState (iteration st)))
     = List.filter isPop (Scylla.events st).
Proof.
  intros Hkind.
  destruct (iteration_trace Row parseScyllaNote parseScyllaNotification
              parseScyllaReaction config_scylla execute tzOffset kind ps filter
              userId pq st)
    as (pops & execs & ends & Hev & Hexecs & Hends & [(-> & Hids & _) | (Hlist & _)]);
    [|contradiction].
  split; [exact Hids|]. rewrite Hev, !List.filter_app.
  rewrite (ownStatement_no_pop execs Hexecs).
  destruct Hends as [(-> & _) | ((u & ->) & _)]; simpl; rewrite app_nil_r; reflexivity.
Qed.

Lemma collectRows_length (rows : list Row) :
  filtersShorten filter ->
  (length (fst (Scylla.collectRows Row parseScyllaNote parseScyllaNotification
                  parseScyllaReaction kind filter rows))
   <= length rows)%nat.
Proof.
  intros (Hnote & Hreaction & Hnotification). unfold Scylla.collectRows.
  destruct kind; cbn [fst]; rewrite length_map;
    match goal with
    | |- context [filter_note filter] =>
        destruct (filter_note filter) as [f|] eqn:Hf;
        [etransitivity; [apply (Hnote f _ eq_refl)|] |]
    | |- context [filter_reaction filter] =>
        destruct (filter_reaction filter) as [f|] eqn:Hf;
        [etransitivity; [apply (Hreaction f _ eq_refl)|] |]
    | |- context [filter_notification filter] =>
        destruct (filter_notification filter) as [f|] eqn:Hf;
        [etransitivity; [apply (Hnotification f _ eq_refl)|] |]
    end; rewrite length_map; reflexivity.
Qed.

(** A pass adds no more rows than the store returned for its
    statement. *)
Lemma iteration_found (st : Scylla.ScanState) :
  filtersShorten filter ->
  (forall params rows,
      execute (Scylla.query pq) params = Some rows ->
      last params = Some (PNumber theLimit) ->
      Z.of_nat (length rows) <= Z.max 0 theLimit) ->
  Z.of_nat (length (Scylla.found (Scylla.stepState (iteration st))))
  <= Z.of_nat (length (Scylla.found st)) + Z.max 0 theLimit.
Proof.
  intros Hfilter Hstore. unfold Scylla.iteration.
  destruct (Scylla.partitionParams kind ps userId st) as [[params|] st1] eqn:Hpp;
    apply partitionParams_cases in Hpp as (_ & _ & Hfound & _);
    [|cbn [Scylla.stepState]; rewrite Hfound; lia].
  destruct (execute _ _) as [rows|] eqn:Hex;
    [|cbn [Scylla.stepState Scylla.withEvent Scylla.found]; rewrite Hfound; lia].
  specialize (Hstore _ rows Hex (boundParams_last pq theLimit params)).
  pose proof (collectRows_length rows Hfilter) as Hkept.
  destruct (Scylla.collectRows Row parseScyllaNote parseScyllaNotification
              parseScyllaReaction kind filter rows) as [kept lastAt].
  cbn [fst] in Hkept.
  destruct (0 <? Z.of_nat (length rows));
    destruct (Z.of_nat (length rows) <? theLimit);
    try destruct (Scylla.sinceDate pq) as [since|];
    try destruct (_ <? since);
    cbn [Scylla.stepState Scylla.withEvent Scylla.withUntil Scylla.pushFound
         Scylla.found];
    rewrite ?length_app, Hfound; lia.
Qed.

End ScanBounds.

(** X15: a call for any feed kind but the list feed never touches the
    caller's array of user ids and pops nothing, however it ends. *)
Theorem scan_leaves_userIds_alone_unless_list
    (Row : Type) (parseScyllaNote : Row -> ScyllaNote)
    (parseScyllaNotification : Row -> ScyllaNotification)
    (parseScyllaReaction : Row -> ScyllaNoteReaction)
    (config_scylla : option ScyllaConfig) (prepared : Prepared)
    (execute : string -> list Param -> option (list Row))
    (getTimestamp : string -> Z) (now tzOffset : Z) (fuel : nat)
    (kind : FeedType) (ps : PaginationParams) (filter : Filters)
    (userId : option string) (maxPartitions : option Z) :
  kind <> feed_list ->
  let run :=
    Scylla.execPaginationQuery Row parseScyllaNote parseScyllaNotification
      parseScyllaReaction config_scylla prepared execute getTimestamp now
      tzOffset fuel kind ps filter userId maxPartitions in
  Scylla.cur_userIds (snd run) = ps_userIds ps
  /\ List.filter isPop (Scylla.events (snd run)) = [].
Proof.
  intros Hkind run.
  destruct (execPaginationQuery_state Row parseScyllaNote parseScyllaNotification
              parseScyllaReaction config_scylla prepared execute getTimestamp
              now tzOffset fuel kind ps filter userId maxPartitions)
    as [(_ & Hev & _ & Hids & _) | (_ & _ & Hst & _)]; unfold run.
  - rewrite Hev, Hids. split; reflexivity.
  - rewrite Hst.
    apply (scanLoop_invariant Row parseScyllaNote parseScyllaNotification
             parseScyllaReaction config_scylla execute tzOffset kind ps filter
             userId _ _
             (fun st => Scylla.cur_userIds st = ps_userIds ps
                        /\ List.filter isPop (Scylla.events st) = [])).
    + intros st [Hids Hpops] _ _.
      destruct (iteration_pops_nothing Row parseScyllaNote parseScyllaNotification
                  parseScyllaReaction config_scylla execute tzOffset kind ps
                  filter userId
                  (Scylla.preparePaginationQuery prepared getTimestamp now kind ps)
                  st Hkind) as [Hids' Hpops'].
      rewrite Hids', Hpops'. split; assumption.
    + split; reflexivity.
Qed.

(** A witness for X15: a scan of the home feed of [v] that is handed an
    array of three user ids returns it as it was. *)
Lemma scan_leaves_userIds_alone_unless_list_witness :
  Scylla.cur_userIds
    (snd (DayStore.exec Examples.threeDaysAgo Examples.defaults Examples.today
            Examples.stamp 7 feed_home Examples.threeUsers noFilters (Some "v")
            (Some 4)))
  = Some ["a"; "b"; "v"].
Proof.
  pose proof (scan_leaves_userIds_alone_unless_list DayStore.Stored
                DayStore.parseNote DayStore.parseNotification
                DayStore.parseReaction (Some Examples.defaults)
                DayStore.statements (DayStore.execute Examples.threeDaysAgo)
                Examples.stamp Examples.today 0 7 feed_home Examples.threeUsers
                noFilters (Some "v") (Some 4) ltac:(discriminate)) as [H _].
  exact H.
Defined.

(** X16: against a store that returns no more rows than the limit bound
    to a statement, and with filters that return no more rows than they
    are given, a call returns fewer rows than the number it stops at plus
    the fetch limit of one statement: the last pass starts below the stop
    mark and adds at most one statement's worth. *)
Theorem scan_overshoots_by_less_than_one_fetch
    (Row : Type) (parseScyllaNote : Row -> ScyllaNote)
    (parseScyllaNotification : Row -> ScyllaNotification)
    (parseScyllaReaction : Row -> ScyllaNoteReaction)
    (config_scylla : option ScyllaConfig) (prepared : Prepared)
    (execute : string -> list Param -> option (list Row))
    (getTimestamp : string -> Z) (now tzOffset : Z) (fuel : nat)
    (kind : FeedType) (ps : PaginationParams) (filter : Filters)
    (userId : option string) (maxPartitions : option Z) (rows : list FeedRow) :
  (forall q params answer n,
      execute q params = Some answer ->
      last params = Some (PNumber n) ->
      Z.of_nat (length answer) <= Z.max 0 n) ->
  filtersShorten filter ->
  fst (Scylla.execPaginationQuery Row parseScyllaNote parseScyllaNotification
         parseScyllaReaction config_scylla prepared execute getTimestamp now
         tzOffset fuel kind ps filter userId maxPartitions)
  = Returned rows ->
  Z.of_nat (length rows)
  <= Z.max 0 (Scylla.foundLimit kind ps - 1)
     + Z.max 0 (Scylla.fetchLimit config_scylla kind ps).
Proof.
  intros Hstore Hfilter. unfold Scylla.execPaginationQuery.
  destruct (negb _); [intros [= <-]; simpl; lia|].
  destruct (Scylla.missingScope kind ps userId); [discriminate|].
  set (pq := Scylla.preparePaginationQuery prepared getTimestamp now kind ps).
  set (budget := default (Scylla.defaultMaxPartitions config_scylla) maxPartitions).
  pose proof (scanLoop_invariant Row parseScyllaNote parseScyllaNotification
                parseScyllaReaction config_scylla execute tzOffset kind ps filter
                userId pq budget
                (fun st => Z.of_nat (length (Scylla.found st))
                           <= Z.max 0 (Scylla.foundLimit kind ps - 1)
                              + Z.max 0 (Scylla.fetchLimit config_scylla kind ps)))
    as Hinv.
  specialize (Hinv
    ltac:(intros st _ Hbelow _;
          pose proof (iteration_found Row parseScyllaNote parseScyllaNotification
                        parseScyllaReaction config_scylla execute tzOffset kind ps
                        filter userId pq st Hfilter
                        (fun params answer => Hstore _ params answer _));
          cbv beta; lia)
    fuel (Scylla.initialState ps pq) ltac:(simpl; lia)).
  cbv beta in Hinv.
  destruct (Scylla.scanLoop _ _ _ _ _ _ _ _ _ _ _ _ _ _ _) as [[[]|m|] st];
    [|discriminate | discriminate].
  intros [= <-]. exact Hinv.
Qed.

(** A witness for X16: asked for ten rows with a fetch limit of 100, the
    scan of the five-row feed returns fewer than 110 rows. *)
Lemma scan_overshoots_by_less_than_one_fetch_witness :
  match fst (DayStore.exec Examples.threeDaysAgo Examples.defaults Examples.today
               Examples.stamp 7 feed_home Examples.tenRows noFilters (Some "v")
               (Some 4)) with
  | Returned rows => Z.of_nat (length rows) <= 9 + 100
  | _ => False
  end.
Proof.
  destruct (fst (DayStore.exec Examples.threeDaysAgo Examples.defaults
                   Examples.today Examples.stamp 7 feed_home Examples.tenRows
                   noFilters (Some "v") (Some 4))) as [rows|m|] eqn:Hrun.
  - refine (scan_overshoots_by_less_than_one_fetch DayStore.Stored
              DayStore.parseNote DayStore.parseNotification
              DayStore.parseReaction (Some Examples.defaults)
              DayStore.statements (DayStore.execute Examples.threeDaysAgo)
              Examples.stamp Examples.today 0 7 feed_home Examples.tenRows
              noFilters (Some "v") (Some 4) rows _ _ Hrun).
    + intros q params answer n. apply DayStore_limit.
    + repeat split; intros f l Hf; discriminate Hf.
  - vm_compute in Hrun. discriminate Hrun.
  - vm_compute in Hrun. discriminate Hrun.
Defined.

(** ** The relational path of the endpoint *)

Lemma firstn_add {A} (a b : nat) (l : list A) :
  firstn (a + b) l = firstn a l ++ firstn b (skipn a l).
Proof.
  revert l. induction a as [|a IH]; intros l; [reflexivity|].
  destruct l as [|x l]; simpl; [destruct b; reflexivity|].
  rewrite IH. reflexivity.
Qed.

Lemma firstn_prefix {A} (n : nat) (l rest : list A) :
  (n <= length l)%nat -> firstn n (l ++ rest) = firstn n l.
Proof.
  intros Hn. rewrite firstn_app.
  replace (n - length l)%nat with 0%nat by lia. simpl. apply app_nil_r.
Qed.

Section RelationalPaging.

Variable Packed : Type.
Variable packMany : list ScyllaNote -> list Packed.
Hypothesis packMany_app :
  forall a b, packMany (a ++ b) = packMany a ++ packMany b.
Variable table : list ScyllaNote.

Lemma relationalLoop_prefix (ps : PaginationParams) (fuel : nat) (skip : Z)
    (l : list Packed) :
  1 <= ps_limit ps ->
  0 <= skip ->
  Timeline.relationalLoop Packed packMany (Timeline.pageOf table) fuel ps skip
    (packMany (firstn (Z.to_nat skip) table))
  = Returned l ->
  firstn (Z.to_nat (ps_limit ps)) l
  = firstn (Z.to_nat (ps_limit ps)) (packMany table).
Proof.
  intros Hlimit. revert skip.
  assert (Htake : 1 <= Timeline.overFetch ps).
  { unfold Timeline.overFetch. apply Z.div_le_lower_bound; lia. }
  induction fuel as [|fuel IH]; intros skip Hskip; simpl.
  - destruct (Z.ltb_spec (Z.of_nat (length (packMany (firstn (Z.to_nat skip) table))))
                (ps_limit ps)) as [Hshort|Hfull]; [discriminate|].
    intros [= <-].
    rewrite <- (firstn_skipn (Z.to_nat skip) table) at 2.
    rewrite packMany_app. symmetry. apply firstn_prefix. lia.
  - destruct (Z.ltb_spec (Z.of_nat (length (packMany (firstn (Z.to_nat skip) table))))
                (ps_limit ps)) as [Hshort|Hfull].
    + set (page := firstn (Z.to_nat (Timeline.overFetch ps))
                     (skipn (Z.to_nat skip) table)).
      assert (Hnext : packMany (firstn (Z.to_nat skip) table) ++ packMany page
                      = packMany (firstn (Z.to_nat (skip + Timeline.overFetch ps)) table)).
      { rewrite <- packMany_app. f_equal. unfold page.
        rewrite Z2Nat.inj_add by lia. symmetry. apply firstn_add. }
      rewrite Hnext.
      destruct (Z.ltb_spec (Z.of_nat (length page)) (Timeline.overFetch ps))
        as [Hlast|Hmore].
      * intros [= <-]. do 2 f_equal.
        rewrite Z2Nat.inj_add by lia. rewrite firstn_add. fold page.
        unfold page in Hlast. rewrite length_firstn in Hlast.
        assert (Hall : page = skipn (Z.to_nat skip) table)
          by (unfold page; apply firstn_all2; lia).
        rewrite Hall. apply firstn_skipn.
      * apply IH. lia.
    + intros [= <-].
      rewrite <- (firstn_skipn (Z.to_nat skip) table) at 2.
      rewrite packMany_app. symmetry. apply firstn_prefix. lia.
Qed.

End RelationalPaging.

(** X17: on the relational path, when notes are packed one by one (the
    packed batch of two lists put together is the two packed batches put
    together), the handler returns, for a limit of at least 1 and a
    finite result of the query, exactly the first [limit] packed notes of
    that result: paging by one and a half times the limit neither skips
    nor repeats a note. *)
Theorem relational_timeline_is_the_packed_prefix
    (Packed : Type) (packMany : list ScyllaNote -> list Packed)
    (execHome : PaginationParams -> Outcome (list ScyllaNote))
    (table : list ScyllaNote) (fuel : nat) (ps : PaginationParams) :
  (forall a b, packMany (a ++ b) = packMany a ++ packMany b) ->
  1 <= ps_limit ps ->
  (length table < fuel)%nat ->
  Timeline.timeline Packed packMany execHome (Timeline.pageOf table) false fuel ps
  = Returned (firstn (Z.to_nat (ps_limit ps)) (packMany table)).
Proof.
  intros Happ Hlimit Hfuel.
  assert (Hnil : packMany [] = []).
  { pose proof (f_equal (@length _) (Happ [] [])) as Hlen.
    simpl in Hlen. rewrite length_app in Hlen.
    destruct (packMany []); [reflexivity | simpl in Hlen; lia]. }
  unfold Timeline.timeline, Timeline.relationalPath.
  destruct (relationalLoop_terminates Packed packMany table fuel ps 0 []
              Hlimit ltac:(lia) ltac:(simpl; lia)) as [l Hl].
  rewrite Hl. f_equal.
  pose proof (relationalLoop_prefix Packed packMany Happ table ps fuel 0 l
                Hlimit ltac:(lia)) as Hprefix.
  change (firstn (Z.to_nat 0) table) with (@nil ScyllaNote) in Hprefix.
  rewrite Hnil in Hprefix. specialize (Hprefix Hl).
  unfold Timeline.slice.
  destruct (Z.ltb_spec (ps_limit ps) (Z.of_nat (length l))) as [Hlong|Hshort];
    [exact Hprefix|].
  rewrite <- Hprefix. symmetry. apply firstn_all2. lia.
Qed.

(** A witness for X17: two rows asked for of a table of three. *)
Lemma relational_timeline_is_the_packed_prefix_witness :
  Timeline.timeline ScyllaNote (fun notes => notes) Examples.scanHome
    (Timeline.pageOf Examples.homeNotes) false 5 Examples.twoRows
  = Returned (firstn 2 Examples.homeNotes).
Proof.
  exact (relational_timeline_is_the_packed_prefix ScyllaNote (fun notes => notes)
           Examples.scanHome Examples.homeNotes 5 Examples.twoRows
           (fun a b => eq_refl) ltac:(simpl; lia) ltac:(simpl; lia)).
Defined.


(** ** Signing in *)

Lemma error_never_signs_in (code uid : string) :
  ~ In (Signin.SignIn uid) (Signin.error code).
Proof. intros [H|[H|[]]]; discriminate H. Qed.

Lemma fail_never_signs_in (user : Signin.User) (uid : string) :
  ~ In (Signin.SignIn uid) (Signin.fail user).
Proof. intros [H|[H|[H|[]]]]; discriminate H. Qed.

Lemma token_accepted (field : Signin.Field) :
  match field with
  | Signin.FNullish => false
  | _ => negb (Signin.isString field)
  end = false
  <-> field = Signin.FNullish \/ exists t, field = Signin.FString t.
Proof.
  destruct field as [t| |]; simpl; split; intros H; eauto;
    try discriminate H; destruct H as [H|[t' H]]; discriminate H.
Qed.

Ltac refuse H :=
  first [ exfalso; exact (fail_never_signs_in _ _ H)
        | exfalso; exact (error_never_signs_in _ _ H)
        | destruct H as [H|[]]; discriminate H
        | destruct H as [H|[H|[]]]; discriminate H ].

Lemma assertion_signs_in (clientData : option string)
    (findChallenge : string -> string -> option Signin.Challenge) (now : Z)
    (findSecurityKey : option (option string))
    (verifyLogin : string -> string -> string -> option bool)
    (user : Signin.User) (profile : Signin.Profile) (same : bool) (uid : string) :
  In (Signin.SignIn uid)
     (Signin.assertion clientData findChallenge now findSecurityKey verifyLogin
        user profile same)
  <-> uid = Signin.id user
      /\ (same = true \/ Signin.usePasswordLessLogin profile = true)
      /\ exists clientChallenge found publicKey,
           clientData = Some clientChallenge
           /\ findChallenge (Signin.id user) clientChallenge = Some found
           /\ now - Signin.challenge_createdAt found < 5 * 60 * 1000
           /\ findSecurityKey = Some (Some publicKey)
           /\ verifyLogin publicKey clientChallenge (Signin.challenge found)
              = Some true.
Proof.
  unfold Signin.assertion.
  destruct same, (Signin.usePasswordLessLogin profile); cbn [negb andb];
    try (split; [intros H; refuse H
                | intros (_ & [H|H] & _); discriminate H]).
  all: destruct clientData as [clientChallenge|];
    [|split; [intros [H|[]]; discriminate H
             | intros (_ & _ & c & f & k & H & _); discriminate H]].
  all: destruct (findChallenge (Signin.id user) clientChallenge) as [found|] eqn:Hfound;
    [|split; [intros H; refuse H
             | intros (_ & _ & c & f & k & [= <-] & H & _); congruence]].
  all: destruct (Z.leb_spec (5 * 60 * 1000) (now - Signin.challenge_createdAt found))
         as [Hold|Hfresh];
    [split; [intros [H|H]; [discriminate H|];
             refuse H
            | intros (_ & _ & c & f & k & [= <-] & Hf & Hlt & _);
              rewrite Hfound in Hf; injection Hf as <-; lia]|].
  all: destruct findSecurityKey as [[publicKey|]|];
    [ destruct (verifyLogin publicKey clientChallenge (Signin.challenge found))
        as [[|]|] eqn:Hvalid
    | split; [intros [H|H]; [discriminate H|];
              refuse H
             | intros (_ & _ & c & f & k & _ & _ & _ & H & _); discriminate H]
    | split; [intros [H|[H|[]]]; discriminate H
             | intros (_ & _ & c & f & k & _ & _ & _ & H & _); discriminate H] ].
  all: try (split;
            [ intros [H|[H|[]]]; [discriminate H|]; injection H as <-;
              split; [reflexivity|]; split; [tauto|];
              exists clientChallenge, found, publicKey; repeat split; auto
            | intros (-> & _); right; left; reflexivity ]).
  all: try (split;
            [ intros [H|H]; [discriminate H|];
              refuse H
            | intros (_ & _ & c & f & k & [= <-] & Hf & _ & [= <-] & Hv);
              rewrite Hfound in Hf; injection Hf as <-; congruence ]).
Qed.

Lemma startAssertion_never_signs_in (securityKeys : string -> nat)
    (user : Signin.User) (profile : Signin.Profile) (same : bool) (uid : string) :
  ~ In (Signin.SignIn uid) (Signin.startAssertion securityKeys user profile same).
Proof.
  unfold Signin.startAssertion.
  destruct (negb same && negb (Signin.usePasswordLessLogin profile));
    [intros H; refuse H|].
  destruct (securityKeys (Signin.id user) =? 0)%nat;
    [intros H; refuse H|].
  intros [H|[H|[]]]; discriminate H.
Qed.

Section SigninFacts.

Variable rateLimited : bool.
Variable username password token : Signin.Field.
Variable toLowerCase : string -> string.
Variable findUser : string -> option Signin.User.
Variable findProfile : string -> option Signin.Profile.
Variable compare : string -> option string -> bool.
Variable totpVerify : option string -> string -> bool.
Variable credentialId : bool.
Variable clientData : option string.
Variable findChallenge : string -> string -> option Signin.Challenge.
Variable now : Z.
Variable findSecurityKey : option (option string).
Variable verifyLogin : string -> string -> string -> option bool.
Variable securityKeys : string -> nat.

Local Abbreviation handler :=
  (Signin.handler rateLimited username password token toLowerCase findUser
     findProfile compare totpVerify credentialId clientData findChallenge now
     findSecurityKey verifyLogin securityKeys).

(** When the handler signs a user in. *)
Lemma handler_signs_in (uid : string) :
  In (Signin.SignIn uid) handler
  <-> rateLimited = false
      /\ exists name pw user profile,
           username = Signin.FString name
           /\ password = Signin.FString pw
           /\ (token = Signin.FNullish \/ exists t, token = Signin.FString t)
           /\ findUser (toLowerCase name) = Some user
           /\ Signin.id user = uid
           /\ Signin.isSuspended user = false
           /\ findProfile uid = Some profile
           /\ ((Signin.twoFactorEnabled profile = false
                /\ compare pw (Signin.password profile) = true)
               \/ (Signin.twoFactorEnabled profile = true
                   /\ Signin.truthy token = true
                   /\ compare pw (Signin.password profile) = true
                   /\ totpVerify (Signin.twoFactorSecret profile)
                        (Signin.stringOf token) = true)
               \/ (Signin.twoFactorEnabled profile = true
                   /\ Signin.truthy token = false
                   /\ credentialId = true
                   /\ In (Signin.SignIn uid)
                        (Signin.assertion clientData findChallenge now
                           findSecurityKey verifyLogin user profile
                           (compare pw (Signin.password profile))))).
Proof.
  unfold Signin.handler. split.
  - intros Hin.
    destruct rateLimited; [refuse Hin|]. split; [reflexivity|].
    destruct username as [name| |]; cbn [Signin.isString negb] in Hin;
      [|refuse Hin | refuse Hin].
    destruct password as [pw| |]; cbn [Signin.isString negb] in Hin;
      [|refuse Hin | refuse Hin].
    destruct (match token with
              | Signin.FNullish => false
              | _ => negb (Signin.isString token)
              end) eqn:Htoken; [refuse Hin|].
    apply token_accepted in Htoken.
    cbn [Signin.stringOf] in Hin.
    destruct (findUser (toLowerCase name)) as [user|] eqn:Huser; [|refuse Hin].
    destruct (Signin.isSuspended user) eqn:Hsusp; [refuse Hin|].
    destruct (findProfile (Signin.id user)) as [profile|] eqn:Hprofile; [|refuse Hin].
    assert (Hid : Signin.id user = uid).
    { destruct (Signin.twoFactorEnabled profile); cbn [negb] in Hin.
      - destruct (Signin.truthy token).
        + destruct (compare pw (Signin.password profile)); cbn [negb] in Hin;
            [|refuse Hin].
          destruct (totpVerify _ _); [|refuse Hin].
          destruct Hin as [H|[]]. injection H as H. exact H.
        + destruct credentialId.
          * apply assertion_signs_in in Hin as [-> _]. reflexivity.
          * exfalso. exact (startAssertion_never_signs_in _ _ _ _ _ Hin).
      - destruct (compare pw (Signin.password profile)); [|refuse Hin].
        destruct Hin as [H|[]]. injection H as H. exact H. }
    exists name, pw, user, profile.
    split; [reflexivity|]. split; [reflexivity|]. split; [exact Htoken|].
    split; [exact Huser|]. split; [exact Hid|]. split; [exact Hsusp|].
    split; [rewrite <- Hid; exact Hprofile|].
    destruct (Signin.twoFactorEnabled profile); cbn [negb] in Hin.
    + right. destruct (Signin.truthy token).
      * left. split; [reflexivity|]. split; [reflexivity|].
        destruct (compare pw (Signin.password profile)); cbn [negb] in Hin;
          [|refuse Hin].
        split; [reflexivity|]. destruct (totpVerify _ _); [reflexivity | refuse Hin].
      * right. split; [reflexivity|]. split; [reflexivity|].
        destruct credentialId; [split; [reflexivity | exact Hin]|].
        exfalso. exact (startAssertion_never_signs_in _ _ _ _ _ Hin).
    + left. split; [reflexivity|].
      destruct (compare pw (Signin.password profile)); [reflexivity | refuse Hin].
  - intros (Hrate & name & pw & user & profile & Hname & Hpw & Htoken & Huser
            & Hid & Hsusp & Hprofile & Hcases).
    rewrite Hrate, Hname, Hpw. cbn [Signin.isString negb Signin.stringOf].
    rewrite (proj2 (token_accepted token) Htoken), Huser. cbv iota beta.
    rewrite Hsusp. rewrite <- Hid in Hprofile. rewrite Hprofile.
    destruct Hcases as [(H2 & Hsame) | [(H2 & Ht & Hsame & Hv) | (H2 & Ht & Hc & Hin)]];
      rewrite H2; cbn [negb].
    + rewrite Hsame. left. rewrite Hid. reflexivity.
    + rewrite Ht, Hsame. cbn [negb]. rewrite Hv. left. rewrite Hid. reflexivity.
    + rewrite Ht, Hc. exact Hin.
Qed.

End SigninFacts.

(** X18: the handler signs a user in exactly when the request was not
    rate limited, user name and password are strings and the token is a
    string or absent, the user found under the lower-cased name is not
    suspended and has a profile, and one of three things holds: two-factor
    authentication is off and the password is right; it is on, a token is
    given, the password is right and the token verifies; or it is on, no
    token but a credential id is given, the password is right or the
    profile allows password-less login, and the assertion refers to a
    challenge of the user issued less than five minutes ago and verifies
    against the security key found for the credential.  In particular a
    wrong password is accepted only from a profile with two-factor
    authentication and password-less login both on. *)
Theorem handler_signs_in_only_verified_users
    (rateLimited : bool) (username password token : Signin.Field)
    (toLowerCase : string -> string)
    (findUser : string -> option Signin.User)
    (findProfile : string -> option Signin.Profile)
    (compare : string -> option string -> bool)
    (totpVerify : option string -> string -> bool)
    (credentialId : bool) (clientData : option string)
    (findChallenge : string -> string -> option Signin.Challenge) (now : Z)
    (findSecurityKey : option (option string))
    (verifyLogin : string -> string -> string -> option bool)
    (securityKeys : string -> nat) (uid : string) :
  let trace :=
    Signin.handler rateLimited username password token toLowerCase findUser
      findProfile compare totpVerify credentialId clientData findChallenge now
      findSecurityKey verifyLogin securityKeys in
  (In (Signin.SignIn uid) trace
   <-> rateLimited = false
       /\ exists name pw user profile,
            username = Signin.FString name
            /\ password = Signin.FString pw
            /\ (token = Signin.FNullish \/ exists t, token = Signin.FString t)
            /\ findUser (toLowerCase name) = Some user
            /\ Signin.id user = uid
            /\ Signin.isSuspended user = false
            /\ findProfile uid = Some profile
            /\ ((Signin.twoFactorEnabled profile = false
                 /\ compare pw (Signin.password profile) = true)
                \/ (Signin.twoFactorEnabled profile = true
                    /\ Signin.truthy token = true
                    /\ compare pw (Signin.password profile) = true
                    /\ totpVerify (Signin.twoFactorSecret profile)
                         (Signin.stringOf token) = true)
                \/ (Signin.twoFactorEnabled profile = true
                    /\ Signin.truthy token = false
                    /\ credentialId = true
                    /\ (compare pw (Signin.password profile) = true
                        \/ Signin.usePasswordLessLogin profile = true)
                    /\ exists clientChallenge found publicKey,
                         clientData = Some clientChallenge
                         /\ findChallenge uid clientChallenge = Some found
                         /\ now - Signin.challenge_createdAt found < 5 * 60 * 1000
                         /\ findSecurityKey = Some (Some publicKey)
                         /\ verifyLogin publicKey clientChallenge
                              (Signin.challenge found) = Some true)))
  /\ (In (Signin.SignIn uid) trace ->
      forall name pw user profile,
        username = Signin.FString name ->
        password = Signin.FString pw ->
        findUser (toLowerCase name) = Some user ->
        findProfile (Signin.id user) = Some profile ->
        compare pw (Signin.password profile) = false ->
        Signin.twoFactorEnabled profile = true
        /\ Signin.usePasswordLessLogin profile = true).
Proof.
  intros trace.
  assert (Hiff :
    In (Signin.SignIn uid) trace
    <-> rateLimited = false
        /\ exists name pw user profile,
             username = Signin.FString name
             /\ password = Signin.FString pw
             /\ (token = Signin.FNullish \/ exists t, token = Signin.FString t)
             /\ findUser (toLowerCase name) = Some user
             /\ Signin.id user = uid
             /\ Signin.isSuspended user = false
             /\ findProfile uid = Some profile
             /\ ((Signin.twoFactorEnabled profile = false
                  /\ compare pw (Signin.password profile) = true)
                 \/ (Signin.twoFactorEnabled profile = true
                     /\ Signin.truthy token = true
                     /\ compare pw (Signin.password profile) = true
                     /\ totpVerify (Signin.twoFactorSecret profile)
                          (Signin.stringOf token) = true)
                 \/ (Signin.twoFactorEnabled profile = true
                     /\ Signin.truthy token = false
                     /\ credentialId = true
                     /\ (compare pw (Signin.password profile) = true
                         \/ Signin.usePasswordLessLogin profile = true)
                     /\ exists clientChallenge found publicKey,
                          clientData = Some clientChallenge
                          /\ findChallenge uid clientChallenge = Some found
                          /\ now - Signin.challenge_createdAt found < 5 * 60 * 1000
                          /\ findSecurityKey = Some (Some publicKey)
                          /\ verifyLogin publicKey clientChallenge
                               (Signin.challenge found) = Some true))).
  { unfold trace. rewrite handler_signs_in. split.
    - intros (Hrate & name & pw & user & profile & Hname & Hpw & Htoken & Huser
              & Hid & Hsusp & Hprofile & Hcases).
      split; [exact Hrate|]. exists name, pw, user, profile.
      repeat (split; [assumption|]).
      destruct Hcases as [H | [H | (H2 & Ht & Hc & Hin)]]; [tauto | tauto |].
      right; right. apply assertion_signs_in in Hin as (_ & Hsame & Hkey).
      rewrite Hid in Hkey. tauto.
    - intros (Hrate & name & pw & user & profile & Hname & Hpw & Htoken & Huser
              & Hid & Hsusp & Hprofile & Hcases).
      split; [exact Hrate|]. exists name, pw, user, profile.
      repeat (split; [assumption|]).
      destruct Hcases as [H | [H | (H2 & Ht & Hc & Hsame & Hkey)]]; [tauto | tauto |].
      right; right. repeat (split; [assumption|]).
      apply assertion_signs_in. rewrite Hid. tauto. }
  split; [exact Hiff|].
  intros Hin name pw user profile Hname Hpw Huser Hprofile Hwrong.
  apply Hiff in Hin
    as (_ & name' & pw' & user' & profile' & Hname' & Hpw' & _ & Huser' & Hid
        & _ & Hprofile' & Hcases).
  rewrite Hname in Hname'. injection Hname' as <-.
  rewrite Hpw in Hpw'. injection Hpw' as <-.
  rewrite Huser in Huser'. injection Huser' as <-.
  rewrite <- Hid, Hprofile in Hprofile'. injection Hprofile' as <-.
  destruct Hcases as [(_ & Hsame) | [(_ & _ & Hsame & _) | (H2 & _ & _ & [Hsame|Hless] & _)]];
    try congruence.
  split; assumption.
Qed.

(** X19: every refusal of the handler ends in an exception: [error]
    sets the status of the response and then reads [endpoint.name], a
    name bound nowhere in the module, so the handler throws and no error
    body is ever assigned.  A failed attempt is recorded exactly on the
    refusals with the access-denied status, before that exception,
    always for the user found and never as a success; the refusals that
    come before the password is looked at (rate limit, malformed fields,
    unknown or suspended user) record nothing; and a request that is
    signed in does nothing else, but for deleting the challenge it
    answers. *)
Theorem handler_records_every_denied_attempt
    (rateLimited : bool) (username password token : Signin.Field)
    (toLowerCase : string -> string)
    (findUser : string -> option Signin.User)
    (findProfile : string -> option Signin.Profile)
    (compare : string -> option string -> bool)
    (totpVerify : option string -> string -> bool)
    (credentialId : bool) (clientData : option string)
    (findChallenge : string -> string -> option Signin.Challenge) (now : Z)
    (findSecurityKey : option (option string))
    (verifyLogin : string -> string -> string -> option bool)
    (securityKeys : string -> nat) :
  let trace :=
    Signin.handler rateLimited username password token toLowerCase findUser
      findProfile compare totpVerify credentialId clientData findChallenge now
      findSecurityKey verifyLogin securityKeys in
  (forall code,
     In (Signin.SetStatus code) trace ->
     exists before,
       trace = before ++ [Signin.SetStatus code; Signin.Throws "endpoint.name"])
  /\ ((exists uid success, In (Signin.InsertSignin uid success) trace)
      <-> In (Signin.SetStatus "ACCESS_DENIED") trace)
  /\ (forall uid success,
        In (Signin.InsertSignin uid success) trace ->
        success = false
        /\ (exists user,
              findUser (toLowerCase (Signin.stringOf username)) = Some user
              /\ Signin.id user = uid
              /\ Signin.isSuspended user = false)
        /\ exists before,
             trace = before ++ [Signin.InsertSignin uid false;
                                Signin.SetStatus "ACCESS_DENIED";
                                Signin.Throws "endpoint.name"])
  /\ (forall uid,
        In (Signin.SignIn uid) trace ->
        trace = [Signin.SignIn uid]
        \/ trace = [Signin.DeleteChallenge uid; Signin.SignIn uid]).
Proof.
  intros trace. unfold trace, Signin.handler, Signin.assertion,
    Signin.startAssertion, Signin.fail, Signin.error.
  destruct rateLimited, username as [name| |], password as [pw| |],
    token as [t| |]; cbn [Signin.isString Signin.truthy Signin.stringOf negb].
  all: try destruct (findUser (toLowerCase name)) as [user|] eqn:Huser.
  all: try destruct (Signin.isSuspended user) eqn:Hsusp.
  all: try destruct (findProfile (Signin.id user)) as [profile|].
  all: repeat match goal with
              | |- context [if ?b then _ else _] => destruct b
              | |- context [match ?x with Some _ => _ | None => _ end] => destruct x
              end.
  all: cbn [In]; split; [|split; [split|split]].
  all: intros;
    repeat match goal with
           | H : _ \/ _ |- _ => destruct H
           | H : False |- _ => destruct H
           | H : exists _, _ |- _ => destruct H
           | H : _ = _ :> Signin.Effect |- _ =>
               first [discriminate H | injection H as ? ?; subst | injection H as ?; subst]
           end.
  all: try solve [ first [ exists []; reflexivity
                         | eexists [_]; reflexivity
                         | eexists [_; _]; reflexivity ] ].
  all: try solve [ split; [reflexivity|]; split; [eauto|];
                   first [ exists []; reflexivity
                         | eexists [_]; reflexivity
                         | eexists [_; _]; reflexivity ] ].
  all: try solve [ do 2 eexists; first [left; reflexivity | right; left; reflexivity] ].
  all: tauto.
Qed.

(** ** The filter chain of the home timeline *)

Lemma filterWith_pure {A} (keep : A -> bool) (l : list A) :
  Untyped.filterWith (fun x => Returned (keep x)) l = Returned (List.filter keep l).
Proof.
  induction l as [|x rest IH]; [reflexivity|].
  cbn [Untyped.filterWith Untyped.bind List.filter]. rewrite IH.
  cbn [Untyped.bind]. destruct (keep x); reflexivity.
Qed.

Lemma filterWith_ext {A} (f g : A -> Outcome bool) (l : list A) :
  (forall x, f x = g x) -> Untyped.filterWith f l = Untyped.filterWith g l.
Proof.
  intros H. induction l as [|x rest IH]; [reflexivity|].
  cbn [Untyped.filterWith]. rewrite H, IH. reflexivity.
Qed.

Lemma knownIn_strings (l : list string) (x : option string) :
  Untyped.knownIn (Untyped.Strings l) x = Returned (Feed.knownIn l x).
Proof.
  unfold Untyped.knownIn, Feed.knownIn, Feed.includesOpt, JS.truthy_string.
  destruct x as [s|]; [|reflexivity].
  destruct (negb (String.eqb s "")); reflexivity.
Qed.

(** X20: the filter chain of the home timeline, run against the filters
    of [db/scylla.ts], returns no batch: its fifth stage calls
    [filterMutedUser] with the viewer where the array of muted ids is
    declared and with the array of muted instances as [exclude], which is
    truthy, so the function calls [filter] on the viewer object and the
    chain fails with a TypeError, whatever the batch, the request and the
    viewer's lists are.  The two later stages that are called the same
    way fare no better: with the viewer for the array of ids,
    [filterBlockUser] returns only for an empty batch and
    [filterMutedRenotes] only for a batch without a bare renote.  Called
    with an array where an array is declared, the three functions return
    what their typed reading returns. *)
Theorem home_filter_fails_at_the_muted_user_stage
    (RE2 : string -> string -> option (string -> bool))
    (trim toLowerCase : string -> string)
    (ps : HomeFilter.Flags) (user : string) (c : HomeFilter.Lists)
    (notes : list ScyllaNote) :
  HomeFilter.filter RE2 trim toLowerCase ps user c notes = Threw "TypeError"
  /\ (forall l ids instances,
        Untyped.filterMutedUser l (Untyped.UserObject user) ids (Some instances)
        = Threw "TypeError")
  /\ (forall n l,
        Untyped.filterBlockUser [] (Untyped.UserObject user) = Returned []
        /\ Untyped.filterBlockUser (n :: l) (Untyped.UserObject user)
           = Threw "TypeError")
  /\ (forall l,
        (forall n, In n l ->
           JS.truthy_string (text n) || negb (JS.truthy_string (renoteId n)) = true) ->
        Untyped.filterMutedRenotes l (Untyped.UserObject user) = Returned l)
  /\ (forall l n,
        JS.truthy_string (text n) = false ->
        JS.truthy_string (renoteId n) = true ->
        Untyped.filterMutedRenotes (l ++ [n]) (Untyped.UserObject user)
        = Threw "TypeError")
  /\ (forall l ids instances exclude,
        Untyped.filterMutedUser l (Untyped.Strings ids) (Untyped.Strings instances)
          (Untyped.UserObject <$> exclude)
        = Returned (Feed.filterMutedUser l ids instances exclude))
  /\ (forall l ids,
        Untyped.filterBlockUser l (Untyped.Strings ids)
        = Returned (Feed.filterBlockUser l ids))
  /\ (forall l ids,
        Untyped.filterMutedRenotes l (Untyped.Strings ids)
        = Returned (Feed.filterMutedRenotes l ids)).
Proof.
  split; [reflexivity|]. split; [reflexivity|].
  split; [intros n l; split; reflexivity|].
  split.
  { intros l Hall. unfold Untyped.filterMutedRenotes.
    induction l as [|n rest IH]; [reflexivity|].
    cbn [Untyped.filterWith].
    assert (Hn := Hall n (or_introl eq_refl)).
    rewrite IH by (intros m Hm; apply Hall; right; exact Hm).
    destruct (JS.truthy_string (text n)); [reflexivity|].
    cbn [orb] in Hn. rewrite Hn. reflexivity. }
  split.
  { intros l n Htext Hrenote. unfold Untyped.filterMutedRenotes.
    induction l as [|m rest IH].
    - cbn [app Untyped.filterWith]. rewrite Htext, Hrenote. reflexivity.
    - cbn [app Untyped.filterWith]. rewrite IH.
      destruct (JS.truthy_string (text m)); [reflexivity|].
      destruct (JS.truthy_string (renoteId m)); reflexivity. }
  split.
  { intros l ids instances exclude.
    unfold Untyped.filterMutedUser, Feed.filterMutedUser.
    assert (Hids :
      match Untyped.UserObject <$> exclude with
      | Some excluded =>
          Untyped.filterOf (Untyped.Strings ids)
            (fun id => negb (JS.strictEqOpt (Untyped.idOf excluded) id))
      | None => Returned (Untyped.Strings ids)
      end
      = Returned
          (Untyped.Strings
             match exclude with
             | Some excluded =>
                 List.filter (fun id => negb (String.eqb id excluded)) ids
             | None => ids
             end)).
    { destruct exclude as [excluded|]; [|reflexivity].
      cbn [fmap option_fmap option_map Untyped.filterOf Untyped.idOf JS.strictEqOpt].
      do 2 f_equal. apply filter_ext. intros id. rewrite String.eqb_sym. reflexivity. }
    rewrite Hids. cbn [Untyped.bind].
    rewrite <- filterWith_pure. apply filterWith_ext. intros note.
    unfold Untyped.includes. rewrite !knownIn_strings.
    cbn [Untyped.negate Untyped.andAlso Untyped.bind].
    repeat match goal with
           | |- context [negb ?b] => destruct b; cbn [negb andb Untyped.bind]
           end; reflexivity. }
  split.
  { intros l ids. unfold Untyped.filterBlockUser, Feed.filterBlockUser.
    rewrite <- filterWith_pure. apply filterWith_ext. intros note.
    unfold Untyped.includes. rewrite !knownIn_strings.
    cbn [Untyped.negate Untyped.andAlso Untyped.bind].
    repeat match goal with
           | |- context [negb ?b] => destruct b; cbn [negb andb Untyped.bind]
           end; reflexivity. }
  intros l ids. unfold Untyped.filterMutedRenotes, Feed.filterMutedRenotes.
  rewrite <- filterWith_pure. apply filterWith_ext. intros note.
  unfold Untyped.includes.
  cbn [Untyped.negate Untyped.orElse Untyped.bind].
  destruct (JS.truthy_string (text note)); [reflexivity|].
  destruct (JS.truthy_string (renoteId note)); reflexivity.
Qed.

(** ** Packing a batch of notes *)

Lemma fillHint_lookup (myReactions : list Pack.NoteReaction) (ids : list string)
    (m : Pack.Hint) (t : string) :
  foldl (fun (m : Pack.Hint) target =>
           <[target := List.find (fun r => String.eqb (Pack.noteId r) target)
                         myReactions]> m)
        m ids !! t
  = if JS.arrayIncludes ids t
    then Some (List.find (fun r => String.eqb (Pack.noteId r) t) myReactions)
    else m !! t.
Proof.
  unfold Pack.Hint in *.
  revert m. induction ids as [|x ids IH]; intros m; [reflexivity|].
  cbn [foldl]. rewrite IH. unfold JS.arrayIncludes. cbn [existsb].
  fold (JS.arrayIncludes ids t).
  destruct (JS.arrayIncludes ids t); [rewrite orb_true_r; reflexivity|].
  rewrite orb_false_r.
  destruct (String.eqb_spec t x) as [->|Hne].
  - rewrite lookup_insert_eq. reflexivity.
  - rewrite lookup_insert_ne by congruence. reflexivity.
Qed.

Lemma targets_cover (notes : list ScyllaNote) (n : ScyllaNote) :
  In n notes ->
  JS.arrayIncludes (Pack.targets notes) (note_id n) = true
  /\ (JS.truthy_string (renoteId n) = true ->
      JS.arrayIncludes (Pack.targets notes) (default "" (renoteId n)) = true).
Proof.
  intros Hin. unfold Pack.targets. split.
  - apply arrayIncludes_In, in_or_app. left. apply in_map. exact Hin.
  - intros Hre. apply arrayIncludes_In, in_or_app. right.
    apply (in_map (fun n => default "" (renoteId n))).
    apply filter_In. split; assumption.
Qed.

(** X21: for a signed-in viewer, the hint that [packMany] builds answers
    [populateMyReaction] for every note of the batch and for every note
    that one of them renotes without another read of the store: the
    answer is the converted reaction of the first of the viewer's
    reactions found for that note, and none when there is no such
    reaction.  Without a hint, or for a note the hint does not list, the
    store is read. *)
Theorem packMany_hint_spares_the_store
    (scyllaClient : bool) (convertLegacyReaction : string -> string)
    (selectOne findOneBy : string -> string -> option Pack.NoteReaction)
    (selectMany findBy : list string -> string -> list Pack.NoteReaction)
    (notes : list ScyllaNote) (me : option string) (n : ScyllaNote) :
  JS.truthy_string me = true ->
  In n notes ->
  let hint := Pack.myReactionsMap scyllaClient selectMany findBy notes me in
  let mine :=
    if scyllaClient then selectMany (Pack.targets notes) (default "" me)
    else findBy (Pack.targets notes) (default "" me) in
  let answer target :=
    (convertLegacyReaction
       <$> (Pack.reaction
              <$> List.find (fun r => String.eqb (Pack.noteId r) target) mine),
     false) in
  Pack.populateMyReaction scyllaClient convertLegacyReaction selectOne findOneBy
    (note_id n) (default "" me) (Some hint)
  = answer (note_id n)
  /\ (JS.truthy_string (renoteId n) = true ->
      Pack.populateMyReaction scyllaClient convertLegacyReaction selectOne
        findOneBy (default "" (renoteId n)) (default "" me) (Some hint)
      = answer (default "" (renoteId n)))
  /\ (forall target,
        ~ In target (Pack.targets notes) ->
        snd (Pack.populateMyReaction scyllaClient convertLegacyReaction selectOne
               findOneBy target (default "" me) (Some hint))
        = true)
  /\ (forall target,
        snd (Pack.populateMyReaction scyllaClient convertLegacyReaction selectOne
               findOneBy target (default "" me) None)
        = true).
Proof.
  intros Hme Hin hint mine answer.
  assert (Hhint : forall target,
            hint !! target
            = if JS.arrayIncludes (Pack.targets notes) target
              then Some (List.find (fun r => String.eqb (Pack.noteId r) target) mine)
              else None).
  { intros target. unfold hint, Pack.myReactionsMap, Pack.fillHint. rewrite Hme.
    fold mine. unfold Pack.Hint. rewrite fillHint_lookup.
    destruct (JS.arrayIncludes _ _); [reflexivity | apply lookup_empty]. }
  destruct (targets_cover notes n Hin) as [Hid Hrenote].
  assert (Hanswer : forall target,
            JS.arrayIncludes (Pack.targets notes) target = true ->
            Pack.populateMyReaction scyllaClient convertLegacyReaction selectOne
              findOneBy target (default "" me) (Some hint)
            = answer target).
  { intros target Hcovered. unfold Pack.populateMyReaction, answer.
    rewrite Hhint, Hcovered. destruct (List.find _ mine); reflexivity. }
  split; [apply Hanswer; exact Hid|].
  split; [intros Hre; apply Hanswer, Hrenote; exact Hre|].
  split.
  - intros target Hout. unfold Pack.populateMyReaction. rewrite Hhint.
    destruct (JS.arrayIncludes (Pack.targets notes) target) eqn:Hc; [|reflexivity].
    apply arrayIncludes_In in Hc. contradiction.
  - intros target. reflexivity.
Qed.

(** A witness for X21: the viewer has reacted to the one note of the
    batch, and the reaction is read off the hint. *)
Lemma packMany_hint_spares_the_store_witness :
  Pack.populateMyReaction false (fun r => r) (fun _ _ => None) (fun _ _ => None)
    "n4" "me"
    (Some (Pack.myReactionsMap false (fun _ _ => [])
             (fun _ _ => [{| Pack.noteId := "n4"; Pack.reaction := "like" |}])
             [Examples.hello] (Some "me")))
  = (Some "like", false).
Proof.
  pose proof (packMany_hint_spares_the_store false (fun r => r)
                (fun _ _ => None) (fun _ _ => None) (fun _ _ => [])
                (fun _ _ => [{| Pack.noteId := "n4"; Pack.reaction := "like" |}])
                [Examples.hello] (Some "me") Examples.hello
                eq_refl (or_introl eq_refl)) as [H _].
  exact H.
Defined.

(** ** Marking notifications as read *)

Lemma map_id_when_unselected {A} (f : A -> bool) (g : A -> A) (l : list A) :
  (forall x, In x l -> f x = false) ->
  map (fun x => if f x then g x else x) l = l.
Proof.
  intros H. induction l as [|x l IH]; [reflexivity|]. simpl.
  rewrite (H x (or_introl eq_refl)). f_equal. apply IH.
  intros y Hy. apply H. right. exact Hy.
Qed.

Lemma filter_length_0 {A} (f : A -> bool) (l : list A) :
  length (List.filter f l) = 0%nat <-> forall x, In x l -> f x = false.
Proof.
  split.
  - intros Hlen x Hin. destruct (f x) eqn:Hf; [|reflexivity].
    assert (Hx : In x (List.filter f l)) by (apply filter_In; split; assumption).
    destruct (List.filter f l); [destruct Hx | discriminate Hlen].
  - intros H. rewrite (filter_none f l H). reflexivity.
Qed.

(** What [readNotification] does to the table and what it sends. *)
Lemma readNotification_effect
    (getHasUnreadNotification : string -> list ReadNotification.Notification -> bool)
    (userId : string) (notificationIds : list string)
    (table : list ReadNotification.Notification) :
  let marked :=
    map (fun n => if ReadNotification.selected userId notificationIds n
                  then ReadNotification.markRead n else n) table in
  ReadNotification.readNotification false getHasUnreadNotification userId
    notificationIds table
  = (marked,
     if forallb (fun n => negb (ReadNotification.selected userId notificationIds n))
          table
     then []
     else if getHasUnreadNotification userId marked
          then ReadNotification.postReadNotifications userId notificationIds
          else ReadNotification.postReadAllNotifications userId).
Proof.
  intros marked. unfold ReadNotification.readNotification. rewrite orb_false_r.
  destruct (length notificationIds =? 0)%nat eqn:Hids.
  - apply Nat.eqb_eq in Hids. destruct notificationIds; [|discriminate Hids].
    assert (Hnone : forall n, In n table -> ReadNotification.selected userId [] n = false).
    { intros n _. unfold ReadNotification.selected. simpl.
      rewrite andb_false_r. reflexivity. }
    unfold marked. rewrite (map_id_when_unselected _ _ table Hnone).
    replace (forallb _ table) with true; [reflexivity|].
    symmetry. apply forallb_forall. intros n Hn. rewrite (Hnone n Hn). reflexivity.
  - fold marked.
    destruct (length (List.filter (ReadNotification.selected userId notificationIds) table)
              =? 0)%nat eqn:Haffected.
    + apply Nat.eqb_eq in Haffected.
      pose proof (proj1 (filter_length_0 _ _) Haffected) as Hnone.
      replace (forallb _ table) with true; [reflexivity|].
      symmetry. apply forallb_forall. intros n Hn. rewrite (Hnone n Hn). reflexivity.
    + apply Nat.eqb_neq in Haffected.
      replace (forallb _ table) with false.
      * destruct (getHasUnreadNotification userId marked); reflexivity.
      * symmetry. apply not_true_is_false. intros Hall. apply Haffected.
        apply (proj2 (filter_length_0 _ _)). intros n Hn.
        rewrite forallb_forall in Hall. specialize (Hall n Hn).
        apply negb_true_iff in Hall. exact Hall.
Qed.

(** X22: on the relational store [readNotification] marks as read
    exactly the unread notifications of the user whose id is listed and
    leaves every other row, and every other column, as it was; it sends
    nothing when no row changed, and otherwise one pair of events: read
    all when the user has nothing unread left, read with the listed ids
    otherwise.  With the wide-column store configured it does nothing
    at all. *)
Theorem readNotification_marks_the_listed_rows_of_the_user
    (getHasUnreadNotification : string -> list ReadNotification.Notification -> bool)
    (userId : string) (notificationIds : list string)
    (table : list ReadNotification.Notification) :
  let run :=
    ReadNotification.readNotification false getHasUnreadNotification userId
      notificationIds table in
  let touched n :=
    String.eqb (ReadNotification.notifieeId n) userId
    && JS.arrayIncludes notificationIds (ReadNotification.id n)
    && negb (ReadNotification.isRead n) in
  fst run
  = map (fun n => if touched n then ReadNotification.markRead n else n) table
  /\ (forall n, In n table -> ReadNotification.notifieeId n <> userId -> In n (fst run))
  /\ (snd run = [] <-> forall n, In n table -> touched n = false)
  /\ (snd run = []
      \/ snd run = ReadNotification.postReadAllNotifications userId
         /\ getHasUnreadNotification userId (fst run) = false
      \/ snd run = ReadNotification.postReadNotifications userId notificationIds
         /\ getHasUnreadNotification userId (fst run) = true)
  /\ ReadNotification.readNotification true getHasUnreadNotification userId
       notificationIds table
     = (table, []).
Proof.
  intros run touched.
  assert (Hsame : forall n, ReadNotification.selected userId notificationIds n = touched n).
  { intros n. unfold ReadNotification.selected, touched.
    destruct (ReadNotification.isRead n); reflexivity. }
  assert (Hrun := readNotification_effect getHasUnreadNotification userId
                    notificationIds table).
  cbv zeta in Hrun. fold run in Hrun.
  assert (Hfst : fst run
                 = map (fun n => if touched n then ReadNotification.markRead n else n)
                       table).
  { rewrite Hrun. cbn [fst]. apply map_ext. intros n. rewrite Hsame. reflexivity. }
  split; [exact Hfst|]. split; [|split; [|split]].
  - intros n Hin Hother. rewrite Hfst. apply in_map_iff. exists n. split; [|exact Hin].
    unfold touched. destruct (String.eqb_spec (ReadNotification.notifieeId n) userId);
      [contradiction | reflexivity].
  - rewrite Hrun. cbn [snd].
    destruct (forallb _ table) eqn:Hall.
    + split; [|reflexivity]. intros _ n Hn.
      rewrite forallb_forall in Hall. specialize (Hall n Hn).
      apply negb_true_iff in Hall. rewrite <- Hsame. exact Hall.
    + split.
      * destruct (getHasUnreadNotification _ _); discriminate.
      * intros Hnone. exfalso. apply not_true_iff_false in Hall. apply Hall.
        apply forallb_forall. intros n Hn. rewrite Hsame, (Hnone n Hn). reflexivity.
  - rewrite Hrun. cbn [fst snd].
    destruct (forallb _ table); [left; reflexivity|].
    destruct (getHasUnreadNotification _ _); [right; right | right; left];
      split; reflexivity.
  - unfold ReadNotification.readNotification. rewrite orb_true_r. reflexivity.
Qed.

Lemma same_id_same_row (table : list ReadNotification.Notification)
    (n m : ReadNotification.Notification) :
  NoDup (map ReadNotification.id table) ->
  In n table -> In m table -> ReadNotification.id n = ReadNotification.id m -> n = m.
Proof.
  induction table as [|x l IH]; intros Hnd Hn Hm Hid; [destruct Hn|].
  cbn [map] in Hnd. apply NoDup_cons in Hnd as [Hx Hnd].
  assert (Hfresh : forall y, In y l -> ReadNotification.id y <> ReadNotification.id x).
  { intros y Hy Heq. apply Hx. rewrite <- Heq. apply list_elem_of_In.
    apply in_map. exact Hy. }
  destruct Hn as [<-|Hn], Hm as [<-|Hm].
  - reflexivity.
  - exfalso. exact (Hfresh m Hm (eq_sym Hid)).
  - exfalso. exact (Hfresh n Hn Hid).
  - exact (IH Hnd Hn Hm Hid).
Qed.

(** X23: on a table whose ids are pairwise different,
    [readNotificationByQuery] marks as read exactly the unread
    notifications of the user that the query selects, whatever the query
    says about other users' rows, and sends events exactly when there is
    such a row. *)
Theorem readNotificationByQuery_marks_what_the_query_selects
    (getHasUnreadNotification : string -> list ReadNotification.Notification -> bool)
    (userId : string) (query : ReadNotification.Notification -> bool)
    (table : list ReadNotification.Notification) :
  NoDup (map ReadNotification.id table) ->
  let run :=
    ReadNotification.readNotificationByQuery false getHasUnreadNotification
      userId query table in
  let touched n :=
    query n
    && String.eqb (ReadNotification.notifieeId n) userId
    && negb (ReadNotification.isRead n) in
  fst run
  = map (fun n => if touched n then ReadNotification.markRead n else n) table
  /\ (snd run = [] <-> forall n, In n table -> touched n = false).
Proof.
  intros Hnd run touched.
  set (ids := map ReadNotification.id
                (List.filter
                   (fun n => query n
                             && String.eqb (ReadNotification.notifieeId n) userId
                             && Bool.eqb (ReadNotification.isRead n) false)
                   table)).
  assert (Hsame : forall n, In n table ->
                    ReadNotification.selected userId ids n = touched n).
  { intros n Hn. unfold ReadNotification.selected, touched.
    destruct (JS.arrayIncludes ids (ReadNotification.id n)) eqn:Hinc.
    - apply arrayIncludes_In in Hinc. unfold ids in Hinc.
      apply in_map_iff in Hinc as (m & Hid & Hm).
      apply filter_In in Hm as [Hm Hmatch].
      rewrite (same_id_same_row table n m Hnd Hn Hm (eq_sym Hid)).
      destruct (query m), (String.eqb (ReadNotification.notifieeId m) userId),
               (ReadNotification.isRead m); try reflexivity; discriminate Hmatch.
    - destruct (query n) eqn:Hq,
               (String.eqb (ReadNotification.notifieeId n) userId) eqn:Hu,
               (ReadNotification.isRead n) eqn:Hr; try reflexivity.
      exfalso. apply not_true_iff_false in Hinc. apply Hinc.
      apply arrayIncludes_In. unfold ids. apply in_map.
      apply filter_In. split; [exact Hn|]. rewrite Hq, Hu, Hr. reflexivity. }
  assert (Hrun := readNotification_effect getHasUnreadNotification userId ids table).
  cbv zeta in Hrun.
  change (ReadNotification.readNotification false getHasUnreadNotification userId
            ids table) with run in Hrun.
  rewrite Hrun. cbn [fst snd]. split.
  - apply map_ext_in. intros n Hn. rewrite (Hsame n Hn). reflexivity.
  - destruct (forallb _ table) eqn:Hall.
    + split; [|reflexivity]. intros _ n Hn.
      rewrite forallb_forall in Hall. specialize (Hall n Hn).
      apply negb_true_iff in Hall. rewrite <- (Hsame n Hn). exact Hall.
    + split.
      * destruct (getHasUnreadNotification _ _); discriminate.
      * intros Hnone. exfalso. apply not_true_iff_false in Hall. apply Hall.
        apply forallb_forall. intros n Hn. rewrite (Hsame n Hn), (Hnone n Hn).
        reflexivity.
Qed.

(** A witness for X23: a query that selects every row marks the two
    notifications of [u] and leaves the one of [w] unread. *)
Lemma readNotificationByQuery_marks_what_the_query_selects_witness :
  map ReadNotification.isRead
      (fst (ReadNotification.readNotificationByQuery false (fun _ _ => false) "u"
              (fun _ => true) Samples.inbox))
  = [true; false; true].
Proof.
  assert (Hnd : NoDup (map ReadNotification.id Samples.inbox)).
  { apply (bool_decide_unpack _). vm_compute. exact I. }
  pose proof (readNotificationByQuery_marks_what_the_query_selects
                (fun _ _ => false) "u" (fun _ => true) Samples.inbox Hnd) as [H _].
  rewrite H. reflexivity.
Defined.

(** ** Word mutes: one pattern at a time *)

Lemma scanPatterns_app (RE2 : string -> string -> option (string -> bool))
    (toLowerCase : string -> string)
    (text : string) (a b : list MutePattern) :
  WordMute.scanPatterns RE2 toLowerCase text (a ++ b)
  = WordMute.scanPatterns RE2 toLowerCase text a
    || WordMute.scanPatterns RE2 toLowerCase text b.
Proof.
  induction a as [|p a IH]; [reflexivity|]. simpl.
  destruct (WordMute.patternMatch RE2 toLowerCase text p); [reflexivity | exact IH].
Qed.

Lemma checkWordMute_app (scyllaClient : bool)
    (RE2 : string -> string -> option (string -> bool))
    (trim toLowerCase : string -> string)
    (note : option ScyllaNote) (a b : list MutePattern) :
  WordMute.checkWordMute scyllaClient RE2 trim toLowerCase note (a ++ b)
  = WordMute.checkWordMute scyllaClient RE2 trim toLowerCase note a
    || WordMute.checkWordMute scyllaClient RE2 trim toLowerCase note b.
Proof.
  unfold WordMute.checkWordMute. destruct note as [note|]; [|reflexivity].
  destruct (String.eqb _ ""); [reflexivity | apply scanPatterns_app].
Qed.

Lemma checkWordMute_nil (scyllaClient : bool)
    (RE2 : string -> string -> option (string -> bool))
    (trim toLowerCase : string -> string) (note : option ScyllaNote) :
  WordMute.checkWordMute scyllaClient RE2 trim toLowerCase note [] = false.
Proof.
  unfold WordMute.checkWordMute. destruct note as [note|]; [|reflexivity].
  destruct (String.eqb _ ""); reflexivity.
Qed.

(** X24: a note is hard-muted by a list of patterns exactly when it is
    hard-muted by one of the patterns taken alone, so that neither the
    order of the patterns nor a pattern that fails to match changes the
    verdict of another; and nobody's own note is ever hard-muted for
    them. *)
Theorem getWordHardMute_is_a_disjunction_over_patterns
    (scyllaClient : bool) (RE2 : string -> string -> option (string -> bool))
    (trim toLowerCase : string -> string)
    (note : ScyllaNote) (me : MeArg) (a b : list MutePattern) :
  JS.await (WordMute.getWordHardMute scyllaClient RE2 trim toLowerCase note me
              (Some (a ++ b)))
  = JS.await (WordMute.getWordHardMute scyllaClient RE2 trim toLowerCase note me
                (Some a))
    || JS.await (WordMute.getWordHardMute scyllaClient RE2 trim toLowerCase note me
                   (Some b))
  /\ JS.await (WordMute.getWordHardMute scyllaClient RE2 trim toLowerCase note me
                 (Some (a ++ b)))
     = JS.await (WordMute.getWordHardMute scyllaClient RE2 trim toLowerCase note me
                   (Some (b ++ a)))
  /\ JS.await (WordMute.getWordHardMute scyllaClient RE2 trim toLowerCase note
                 (me_id (userId note)) (Some a))
     = false.
Proof.
  pose (check := WordMute.checkWordMute scyllaClient RE2 trim toLowerCase).
  assert (Hguard : forall ws,
    JS.await (WordMute.getWordHardMute scyllaClient RE2 trim toLowerCase note me
                (Some ws))
    = negb (WordMute.isMe note me)
      && (check (Some note) ws
          || negb scyllaClient
             && (check (ofNoteLike <$> reply note) ws
                 || check (ofNoteLike <$> renote note) ws))).
  { intros ws. unfold check, WordMute.getWordHardMute, JS.await.
    destruct (WordMute.isMe note me); [reflexivity|]. cbn [negb andb].
    destruct ws as [|p ws].
    - cbn [length Nat.ltb Nat.leb]. rewrite !checkWordMute_nil.
      destruct scyllaClient; reflexivity.
    - cbn [length Nat.ltb Nat.leb].
      destruct scyllaClient; cbn [negb andb]; [rewrite orb_false_r|];
        destruct (WordMute.checkWordMute _ _ _ _ (Some note) _); reflexivity. }
  assert (Happ : forall x y,
    JS.await (WordMute.getWordHardMute scyllaClient RE2 trim toLowerCase note me
                (Some (x ++ y)))
    = JS.await (WordMute.getWordHardMute scyllaClient RE2 trim toLowerCase note me
                  (Some x))
      || JS.await (WordMute.getWordHardMute scyllaClient RE2 trim toLowerCase note me
                     (Some y))).
  { intros x y. rewrite !Hguard. unfold check. rewrite !checkWordMute_app.
    fold check.
    destruct (negb (WordMute.isMe note me)), (negb scyllaClient),
      (check (Some note) x), (check (Some note) y),
      (check (ofNoteLike <$> reply note) x), (check (ofNoteLike <$> reply note) y),
      (check (ofNoteLike <$> renote note) x), (check (ofNoteLike <$> renote note) y);
      reflexivity. }
  split; [apply Happ | split].
  - rewrite !Happ. apply orb_comm.
  - unfold WordMute.getWordHardMute, WordMute.isMe, JS.await.
    rewrite String.eqb_refl. reflexivity.
Qed.

(** ** The cursor of the scanner *)

(** X25: when the scanner gives up a partition it moves its cursor to
    23:59:59.990, local time, of the local day on which the instant
    twenty-four hours before the old cursor falls.  Measured from the
    old cursor, the new one lies between a day and ten milliseconds and
    ten milliseconds back, shifted by the change of the zone's offset
    between the two instants.  In a zone that keeps one offset the shift
    is zero: the new cursor is the one the scanner of this development
    computes, it lies before the old one, and its local day is the day
    before the old cursor's.  Across a change of offset it need not: in
    New York, from 23:30 on the day daylight saving time ended in 2023,
    the new cursor is 23:59:59.990 of that same day, after the old
    one. *)
Theorem endOfYesterday_is_the_end_of_the_previous_day
    (offsetAt offsetOfLocal : Z -> Z) (tzOffset until : Z) :
  let cursor := LocalTime.endOfYesterday offsetAt offsetOfLocal until in
  let date :=
    LocalTime.localDate offsetAt (until - Scylla.msPerDay) 23 59 59 990 in
  let shift := offsetAt (until - Scylla.msPerDay) - offsetOfLocal date in
  (until - Scylla.msPerDay - 10 + shift < cursor <= until - 10 + shift
   /\ (cursor + offsetOfLocal date) mod Scylla.msPerDay = Scylla.msPerDay - 10
   /\ (cursor + offsetOfLocal date) / Scylla.msPerDay
      = (until - Scylla.msPerDay + offsetAt (until - Scylla.msPerDay))
        / Scylla.msPerDay)
  /\ ((forall t, offsetAt t = tzOffset) ->
      (forall local, offsetOfLocal local = tzOffset) ->
      cursor = Scylla.endOfYesterday tzOffset until
      /\ until - Scylla.msPerDay - 10 < cursor <= until - 10
      /\ (cursor + tzOffset) mod Scylla.msPerDay = Scylla.msPerDay - 10
      /\ (cursor + tzOffset) / Scylla.msPerDay
         = (until + tzOffset) / Scylla.msPerDay - 1)
  /\ LocalTime.endOfYesterday Samples.newYorkOffsetAt Samples.newYorkOffsetOfLocal
       1699245000000
     = 1699246799990
  /\ 1699245000000
     < LocalTime.endOfYesterday Samples.newYorkOffsetAt
         Samples.newYorkOffsetOfLocal 1699245000000.
Proof.
  intros cursor date shift.
  assert (Hcursor : cursor = date - offsetOfLocal date) by reflexivity.
  split; [|split; [|split; [reflexivity | vm_compute; reflexivity]]].
  - rewrite Hcursor. unfold shift. clear Hcursor cursor shift.
    generalize (offsetOfLocal date). intros off.
    unfold date, LocalTime.localDate, Scylla.msPerDay.
    generalize (offsetAt (until - 86400000)). intros zone.
    repeat split; Z.div_mod_to_equations; lia.
  - intros Hat Hlocal.
    assert (Heq : cursor = Scylla.endOfYesterday tzOffset until).
    { rewrite Hcursor, Hlocal. unfold date, LocalTime.localDate.
      rewrite Hat. unfold Scylla.endOfYesterday. lia. }
    split; [exact Heq|]. rewrite Heq.
    unfold Scylla.endOfYesterday, Scylla.msPerDay.
    repeat split; Z.div_mod_to_equations; lia.
Qed.
